(** * Rules-resolution core of the card game engine

  A shallow embedding of the parts of the engine that sequence an
  ability (AbilityResolver.js), declare and re-validate targets
  (GameSystem.ts, CardTargetSystem.ts), match zones and card types
  (EnumHelpers.ts), compute resource costs and keep and move the cards
  of a player's piles (Player.js), followed by the properties of these
  functions. *)

From Stdlib Require Import ZArith Lia Bool List String.
From stdpp Require Import base option list gmap.
Import ListNotations.

Local Open Scope Z_scope.

(** ** Constants.ts *)

Module Constants.

(** The zones named by Player.getCardPile and EnumHelpers; a zone created
    at run time (an additional pile) is [OtherLocation]. *)
Inductive Location :=
| Hand | Deck | Discard | Resource | RemovedFromGame
| SpaceArena | GroundArena | Base | Leader
| OtherLocation (name : string).

Inductive WildcardLocation := AnyLocation | AnyArena | AnyAttackable.

(** LocationFilter = Location | WildcardLocation *)
Inductive LocationFilter :=
| Loc (l : Location)
| WildLoc (w : WildcardLocation).

(** The eight card types listed by EnumHelpers.getCardTypesForFilter. *)
Inductive CardType :=
| BaseType | EventType | LeaderType | NonLeaderUnit | Upgrade
| TokenUnit | TokenUpgrade | LeaderUnit.

Inductive WildcardCardType := AnyCard | UnitCard | TokenCard.

(** CardTypeFilter = CardType | WildcardCardType *)
Inductive CardTypeFilter :=
| Typ (t : CardType)
| WildTyp (w : WildcardCardType).

Inductive Stage := PreTarget | Cost | Target | EffectTmp.

#[global] Instance Location_eq_dec : EqDecision Location.
Proof. solve_decision. Defined.
#[global] Instance WildcardLocation_eq_dec : EqDecision WildcardLocation.
Proof. solve_decision. Defined.
#[global] Instance LocationFilter_eq_dec : EqDecision LocationFilter.
Proof. solve_decision. Defined.
#[global] Instance CardType_eq_dec : EqDecision CardType.
Proof. solve_decision. Defined.
#[global] Instance WildcardCardType_eq_dec : EqDecision WildcardCardType.
Proof. solve_decision. Defined.
#[global] Instance CardTypeFilter_eq_dec : EqDecision CardTypeFilter.
Proof. solve_decision. Defined.
#[global] Instance Stage_eq_dec : EqDecision Stage.
Proof. solve_decision. Defined.

End Constants.

Export Constants.

(** ** utils/EnumHelpers.ts *)

Module EnumHelpers.

Definition isArena (location : LocationFilter) : bool :=
  match location with
  | Loc GroundArena | Loc SpaceArena | WildLoc AnyArena => true
  | _ => false
  end.

Definition isAttackableLocation (location : LocationFilter) : bool :=
  match location with
  | Loc GroundArena | Loc SpaceArena | WildLoc AnyArena | Loc Base => true
  | _ => false
  end.

(** [locationFilter.some(...)], the filter already wrapped in an array *)
Definition cardLocationMatches (cardLocation : Location)
    (locationFilter : list LocationFilter) : bool :=
  existsb (fun allowedLocation =>
    match allowedLocation with
    | WildLoc AnyLocation => true
    | WildLoc AnyArena => isArena (Loc cardLocation)
    | WildLoc AnyAttackable => isAttackableLocation (Loc cardLocation)
    | Loc l => bool_decide (cardLocation = l)
    end) locationFilter.

Definition isUnit (cardType : CardTypeFilter) : bool :=
  match cardType with
  | WildTyp UnitCard | Typ NonLeaderUnit | Typ LeaderUnit | Typ TokenUnit => true
  | _ => false
  end.

Definition isToken (cardType : CardTypeFilter) : bool :=
  match cardType with
  | WildTyp TokenCard | Typ TokenUpgrade | Typ TokenUnit => true
  | _ => false
  end.

Definition cardTypeMatches (cardType : CardType)
    (cardTypeFilter : list CardTypeFilter) : bool :=
  existsb (fun allowedCardType =>
    match allowedCardType with
    | WildTyp AnyCard => true
    | WildTyp UnitCard => isUnit (Typ cardType)
    | WildTyp TokenCard => isToken (Typ cardType)
    | Typ t => bool_decide (cardType = t)
    end) cardTypeFilter.

End EnumHelpers.

(** ** JavaScript numbers as the cost code meets them

  Costs, amounts and floors are integers; the one other value the cost
  code can produce is [-Infinity], from [Math.max()] of no arguments. *)

Module JsNum.

Inductive num := NegInfinity | Finite (z : Z).

Definition max (a b : num) : num :=
  match a, b with
  | NegInfinity, x | x, NegInfinity => x
  | Finite x, Finite y => Finite (Z.max x y)
  end.

Definition min (a b : num) : num :=
  match a, b with
  | NegInfinity, _ | _, NegInfinity => NegInfinity
  | Finite x, Finite y => Finite (Z.min x y)
  end.

Definition add (a b : num) : num :=
  match a, b with
  | Finite x, Finite y => Finite (x + y)
  | _, _ => NegInfinity
  end.

(** Subtraction of a finite number. *)
Definition sub (a : num) (y : Z) : num :=
  match a with
  | Finite x => Finite (x - y)
  | NegInfinity => NegInfinity
  end.

(** [Math.max(...xs)] *)
Definition maxOf (xs : list Z) : num :=
  fold_left (fun acc x => max acc (Finite x)) xs NegInfinity.

Definition le (a b : num) : Prop :=
  match a, b with
  | NegInfinity, _ => True
  | Finite _, NegInfinity => False
  | Finite x, Finite y => x <= y
  end.

End JsNum.

(** ** Player.js: cost adjustment

    The player's state as the cost code reads it.  Aspect arrays live in a
    store and are named by reference, because [getPenaltyAspects] splices
    the array it works on: what it splices is the fresh array made by
    [concat] in [getAspects], not the leader's or the base's own. *)

Module Player.
Section Cost.

Context {Card Target PlayType Aspect Zones : Type} `{EqDecision Aspect}.

(** [card.cost] *)
Variable cardCost : Card → Z.

(** cost/CostAdjuster as Player.js uses it: [canAdjust(playingType, card,
    target, ignoreType, penaltyAspect)], [getAmount(card, player)] and the
    [costFloor] field.  The two methods may read the player and the game,
    which is their last argument here; they are taken not to change it. *)
Record CostAdjuster := {
  canAdjust : PlayType → Card → option Target → bool → option Aspect → Zones → bool;
  getAmount : Card → Zones → Z;
  costFloor : Z
}.

Definition ref := nat.

Record PlayerState := {
  arrays : gmap ref (list Aspect);
  leaderAspects : ref;          (* this.leader.aspects *)
  baseAspects : ref;            (* this.base.aspects *)
  costAdjusters : list CostAdjuster;
  zones : Zones                 (* the rest of the player and of the game *)
}.

(** Stateful computations over the player. *)
Definition M (A : Type) : Type := PlayerState → A * PlayerState.

Definition ret {A} (a : A) : M A := fun s => (a, s).

Definition bind {A B} (m : M A) (k : A → M B) : M B :=
  fun s => let '(a, s') := m s in k a s'.

Definition gets {A} (f : PlayerState → A) : M A := fun s => (f s, s).

Definition readArray (r : ref) : M (list Aspect) :=
  gets (fun s => default [] (arrays s !! r)).

(** A new array object holding [l]. *)
Definition newArray (l : list Aspect) : M ref :=
  fun s =>
    let r := fresh (dom (arrays s)) in
    (r, {| arrays := <[r := l]> (arrays s);
           leaderAspects := leaderAspects s;
           baseAspects := baseAspects s;
           costAdjusters := costAdjusters s;
           zones := zones s |}).

(** [array.splice(i, 1)] on the array object [r] *)
Definition splice (r : ref) (i : nat) : M unit :=
  fun s =>
    (tt, {| arrays := alter (delete i) r (arrays s);
            leaderAspects := leaderAspects s;
            baseAspects := baseAspects s;
            costAdjusters := costAdjusters s;
            zones := zones s |}).

(** [array.indexOf(x)], [None] for -1 *)
Fixpoint indexOf (x : Aspect) (l : list Aspect) : option nat :=
  match l with
  | [] => None
  | y :: l' => if decide (y = x) then Some 0%nat else S <$> indexOf x l'
  end.

(** [this.leader.aspects.concat(this.base.aspects)] *)
Definition getAspects : M ref :=
  bind (gets leaderAspects) (fun lr =>
  bind (gets baseAspects) (fun br =>
  bind (readArray lr) (fun l =>
  bind (readArray br) (fun b =>
  newArray (l ++ b))))).

(** The loop of [getPenaltyAspects] over the remaining cost aspects, with
    the local [penaltyAspects] accumulated so far. *)
Fixpoint penaltyLoop (playerAspects : ref) (costAspects penaltyAspects : list Aspect)
  : M (list Aspect) :=
  match costAspects with
  | [] => ret penaltyAspects
  | aspect :: rest =>
      bind (readArray playerAspects) (fun current =>
      match indexOf aspect current with
      | None => penaltyLoop playerAspects rest (penaltyAspects ++ [aspect])
      | Some matchedIndex =>
          bind (splice playerAspects matchedIndex) (fun _ =>
          penaltyLoop playerAspects rest penaltyAspects)
      end)
  end.

Definition getPenaltyAspects (costAspects : option (list Aspect)) : M (list Aspect) :=
  match costAspects with
  | None => ret []
  | Some costAspects =>
      bind getAspects (fun playerAspects =>
      penaltyLoop playerAspects costAspects [])
  end.

(** [this.costAdjusters.filter(adjuster => adjuster.canAdjust(...))] *)
Definition matchingAdjusters (s : PlayerState) (playingType : PlayType)
    (card : Card) (target : option Target) (ignoreType : bool)
    (penaltyAspect : option Aspect) : list CostAdjuster :=
  List.filter
    (fun adjuster => canAdjust adjuster playingType card target ignoreType penaltyAspect (zones s))
    (costAdjusters s).

(** [adjuster.getAmount(card, this)] *)
Definition amount (s : PlayerState) (card : Card) (adjuster : CostAdjuster) : Z :=
  getAmount adjuster card (zones s).

Definition runAdjustersForCostType (playingType : PlayType) (baseCost : JsNum.num)
    (card : Card) (target : option Target) (ignoreType : bool)
    (penaltyAspect : option Aspect) : M JsNum.num :=
  bind (gets (fun s => s)) (fun this =>
  let matching := matchingAdjusters this playingType card target ignoreType penaltyAspect in
  let costIncreases :=
    fold_left (fun cost adjuster => cost - amount this card adjuster)
      (List.filter (fun a => amount this card a <? 0) matching) 0 in
  let costDecreases :=
    fold_left (fun cost adjuster => cost + amount this card adjuster)
      (List.filter (fun a => 0 <? amount this card a) matching) 0 in
  let baseCost := JsNum.add baseCost (JsNum.Finite costIncreases) in
  let reducedCost := JsNum.sub baseCost costDecreases in
  let costFloor := JsNum.min baseCost (JsNum.maxOf (map costFloor matching)) in
  ret (JsNum.max reducedCost costFloor)).

(** The loop of [getAdjustedCost] over the penalty aspects. *)
Fixpoint aspectPenaltiesLoop (playingType : PlayType) (card : Card)
    (target : option Target) (ignoreType : bool)
    (penaltyAspects : list Aspect) (aspectPenaltiesTotal : JsNum.num) : M JsNum.num :=
  match penaltyAspects with
  | [] => ret aspectPenaltiesTotal
  | aspect :: rest =>
      bind (runAdjustersForCostType playingType (JsNum.Finite 2) card target ignoreType (Some aspect))
        (fun penalty =>
      aspectPenaltiesLoop playingType card target ignoreType rest
        (JsNum.add aspectPenaltiesTotal penalty))
  end.

Definition getAdjustedCost (playingType : PlayType) (card : Card)
    (target : option Target) (ignoreType : bool) (aspects : option (list Aspect))
  : M JsNum.num :=
  bind (getPenaltyAspects aspects) (fun penaltyAspects =>
  bind (aspectPenaltiesLoop playingType card target ignoreType penaltyAspects (JsNum.Finite 0))
    (fun aspectPenaltiesTotal =>
  let penalizedCost := JsNum.add (JsNum.Finite (cardCost card)) aspectPenaltiesTotal in
  runAdjustersForCostType playingType penalizedCost card target ignoreType None)).

(** [getMinimumPossibleCost]: the adjusted cost, never negative. *)
Definition getMinimumPossibleCost (playingType : PlayType) (card : Card)
    (target : option Target) (ignoreType : bool) (costAspects : option (list Aspect))
  : M JsNum.num :=
  bind (getAdjustedCost playingType card target ignoreType costAspects) (fun adjustedCost =>
  ret (JsNum.max adjustedCost (JsNum.Finite 0))).

(** The cost the spec's words describe for one pass: increases summed onto
    the base, decreases subtracted, the result kept from going below the
    smaller of the pre-decrease cost and the highest matching floor. *)
Definition sumOf (xs : list Z) : Z := fold_right Z.add 0 xs.

Definition increasesOf (s : PlayerState) (card : Card) (matching : list CostAdjuster) : Z :=
  sumOf (map (fun a => - amount s card a)
           (List.filter (fun a => amount s card a <? 0) matching)).

Definition decreasesOf (s : PlayerState) (card : Card) (matching : list CostAdjuster) : Z :=
  sumOf (map (amount s card)
           (List.filter (fun a => 0 <? amount s card a) matching)).

Definition preDecreaseCost (s : PlayerState) (baseCost : Z) (card : Card)
    (matching : list CostAdjuster) : Z :=
  baseCost + increasesOf s card matching.

Definition highestFloor (matching : list CostAdjuster) : JsNum.num :=
  JsNum.maxOf (map costFloor matching).

Definition clampedCost (s : PlayerState) (baseCost : Z) (card : Card)
    (matching : list CostAdjuster) : JsNum.num :=
  let C := preDecreaseCost s baseCost card matching in
  JsNum.max (JsNum.Finite (C - decreasesOf s card matching))
            (JsNum.min (JsNum.Finite C) (highestFloor matching)).

(** The references of the player's own arrays are allocated. *)
Definition allocated (s : PlayerState) : Prop :=
  is_Some (arrays s !! leaderAspects s) ∧ is_Some (arrays s !! baseAspects s).

(** What the player owns is the same in two states: the adjusters, the
    zones, the two references and the arrays behind them. *)
Definition sameOwnState (s s' : PlayerState) : Prop :=
  costAdjusters s' = costAdjusters s ∧
  zones s' = zones s ∧
  leaderAspects s' = leaderAspects s ∧
  baseAspects s' = baseAspects s ∧
  arrays s' !! leaderAspects s = arrays s !! leaderAspects s ∧
  arrays s' !! baseAspects s = arrays s !! baseAspects s.

(** Two states that differ at most in the array [r]. *)
Definition sameExcept (r : ref) (s s' : PlayerState) : Prop :=
  costAdjusters s' = costAdjusters s ∧
  zones s' = zones s ∧
  leaderAspects s' = leaderAspects s ∧
  baseAspects s' = baseAspects s ∧
  ∀ k, k ≠ r → arrays s' !! k = arrays s !! k.

(** The penalty aspects as a function of the contents of the spliced
    array. *)
Fixpoint penaltiesOf (current costAspects penaltyAspects : list Aspect) : list Aspect :=
  match costAspects with
  | [] => penaltyAspects
  | aspect :: rest =>
      match indexOf aspect current with
      | None => penaltiesOf current rest (penaltyAspects ++ [aspect])
      | Some matchedIndex => penaltiesOf (delete matchedIndex current) rest penaltyAspects
      end
  end.

End Cost.
End Player.

(** ** The game state read by systems and events

    Cards, players and ability contexts are mutable objects; an event holds
    references to them and reads their fields when its condition runs, so
    they live in a store indexed by identity. *)

Module Game.

Definition CardId := nat.
Definition PlayerId := nat.
Definition CtxId := nat.
Definition SystemId := nat.

(** [target: any]: what a system is asked to affect. *)
Inductive PlayerOrCard :=
| ACard (c : CardId)
| APlayer (p : PlayerId).

#[global] Instance PlayerOrCard_eq_dec : EqDecision PlayerOrCard.
Proof. solve_decision. Defined.

Inductive EventName :=
| Unnamed
| OnAbilityResolverInitiated
| OnCardAbilityInitiated
| OnCardPlayed
| OnCardAbilityTriggered
| OtherEvent (name : string).

#[global] Instance EventName_eq_dec : EqDecision EventName.
Proof. solve_decision. Defined.

Record Card := {
  type : CardType;
  location : Location;
  upgrades : option (list CardId);      (* [card.upgrades], may be undefined *)
  parentCard : option CardId;
  owner : PlayerId;
  controller : PlayerId;
  uuid : string;
  exhausted : option bool               (* [card.exhausted], may be undefined *)
}.

Record AbilityContext := {
  stage : option Stage;
  gameActionsResolutionChain : list SystemId;
  source : CardId
}.

Inductive Message :=
| IllegalLocationMessage (destination : option Location) (card : CardId)
| PaidAdditionalCost (card : PlayerOrCard)
| CannotPayAdditionalCost (card : PlayerOrCard)
| OtherMessage (text : string).

(** The arrays of a player (Player.js).  [additionalPiles] maps a zone
    name to the [cards] of the pile object the player's [additionalPiles]
    has as a property of its own under that name. *)
Record Piles := {
  hand : list CardId;
  drawDeck : list CardId;
  resources : list CardId;
  spaceArena : list CardId;
  groundArena : list CardId;
  discard : list CardId;
  removedFromGame : list CardId;
  baseZone : list CardId;
  leaderZone : list CardId;
  additionalPiles : Location → option (list CardId)
}.

(** [this.additionalPiles] starts as [{}], a plain object: a name it has no
    property for is looked up in [Object.prototype].  What is found there
    is not a pile, yet the pile code reads and writes its [cards] property
    all the same; this is where such writes land.  [memberCards] is the
    [cards] stored on one of the prototype's functions, [prototypeCards]
    the [cards] stored on the prototype itself, which every object without
    a [cards] of its own then inherits, and [arrayCards] the [cards] stored
    on the array that [prototypeCards] is. *)
Record ObjectPrototype := {
  memberCards : Location → option (list CardId);
  prototypeCards : option (list CardId);
  arrayCards : option (list CardId)
}.

(** The properties an array of cards is stored in. *)
Inductive Slot :=
| Field (player : PlayerId) (zone : Location)          (* [player.hand], [player.drawDeck], ... *)
| AdditionalPile (player : PlayerId) (name : Location) (* [player.additionalPiles[name].cards] *)
| MemberCards (name : Location)
| PrototypeCards
| ArrayCards.

#[global] Instance Slot_eq_dec : EqDecision Slot.
Proof. solve_decision. Defined.

Record State := {
  cards : CardId → Card;
  contexts : CtxId → AbilityContext;
  (** [target.hasRestriction(actionName, context)] *)
  hasRestriction : PlayerOrCard → string → CtxId → bool;
  players : PlayerId → Piles;
  objectPrototype : ObjectPrototype;
  (** How many arrays have been assigned to each slot so far.  An array
      read from a slot is the array stored there for as long as this number
      stays the same; the lists above are the contents of the arrays now
      stored. *)
  generation : Slot → nat;
  (** the chat log written by [game.addMessage], oldest first *)
  messages : list Message
}.

Definition addMessage (m : Message) (g : State) : State :=
  {| cards := cards g; contexts := contexts g; hasRestriction := hasRestriction g;
     players := players g; objectPrototype := objectPrototype g;
     generation := generation g; messages := messages g ++ [m] |}.

End Game.

Export Game.

(** ** gameSystems/GameSystem.ts *)

Module GameSystem.

(** The value of a [target] property: one target or an array of them, any
    of which can be null or undefined. *)
Inductive TargetProperty :=
| One (t : option PlayerOrCard)
| Many (ts : list (option PlayerOrCard)).

(** A properties object; [None] is a key the object does not have (a key
    holding undefined is not told apart from a missing one). *)
Record Properties := {
  target : option TargetProperty;
  cannotBeCancelled : option bool;
  optional : option bool;
  destination : option Location
}.

Definition noProperties : Properties :=
  {| target := None; cannotBeCancelled := None; optional := None; destination := None |}.

(** [Object.assign(a, b)]: the keys of [b] overwrite those of [a]. *)
Definition assign (a b : Properties) : Properties :=
  {| target := match target b with Some t => Some t | None => target a end;
     cannotBeCancelled :=
       match cannotBeCancelled b with Some c => Some c | None => cannotBeCancelled a end;
     optional := match optional b with Some o => Some o | None => optional a end;
     destination := match destination b with Some d => Some d | None => destination a end |}.

(** The constructor's argument: preset properties or a factory. *)
Inductive Configuration :=
| Preset (properties : Properties)
| Factory (propertyFactory : State → CtxId → Properties).

(** The [options] object that [moveCard] reads. *)
Record MoveOptions := { bottom : bool }.

(** The data of an event that carries no closure. *)
Record EventData := {
  name : EventName;
  cancelled : bool;
  eventCannotBeCancelled : option bool;
  context : option CtxId;
  card : option PlayerOrCard;
  order : Z;
  eventDestination : option Location;
  isContingent : bool;
  options : option MoveOptions
}.

(** The two variants of the hierarchy that the core distinguishes: a card
    target system, whose [isTargetTypeValid] and [checkEventCondition] are
    given by CardTargetSystem.ts, and any other system, which supplies its
    own [isTargetTypeValid] and inherits [checkEventCondition]. *)
Inductive Variant :=
| OtherSystem (isTargetTypeValid : State → PlayerOrCard → bool)
| CardTarget (targetTypeFilter : list CardTypeFilter).

Record System := {
  identity : SystemId;
  systemName : string;
  eventName : EventName;
  configuration : Configuration;
  defaultProperties : Properties;
  (** [this.getDefaultTargets], replaced by [setDefaultTargetFn] *)
  getDefaultTargets : State → CtxId → TargetProperty;
  variant : Variant;
  (** the abstract [eventHandler(event, additionalProperties)] *)
  eventHandler : EventData → Properties → State → State
}.

(** [defaultProperties] as GameSystem declares it. *)
Definition baseDefaultProperties : Properties :=
  {| target := None; cannotBeCancelled := Some false; optional := Some false;
     destination := None |}.

(** The properties after [generatePropertiesFromContext]: the target is an
    array without falsy entries. *)
Record GeneratedProperties := {
  targets : list PlayerOrCard;
  generated : Properties
}.

(** [Array.isArray(t) ? t : [t]] followed by [filter(Boolean)] *)
Definition normaliseTarget (t : option TargetProperty) : list PlayerOrCard :=
  match t with
  | None => []
  | Some (One x) => omap id [x]
  | Some (Many xs) => omap id xs
  end.

Definition generatePropertiesFromContext (this : System) (g : State) (context : CtxId)
    (additionalProperties : Properties) : GeneratedProperties :=
  let properties :=
    assign
      (assign
        (assign
          {| target := Some (getDefaultTargets this g context);
             cannotBeCancelled := None; optional := None; destination := None |}
          (defaultProperties this))
        additionalProperties)
      (match configuration this with
       | Preset properties => properties
       | Factory propertyFactory => propertyFactory g context
       end) in
  {| targets := normaliseTarget (target properties); generated := properties |}.

Definition isTargetTypeValid (this : System) (g : State) (target : PlayerOrCard) : bool :=
  match variant this with
  | OtherSystem valid => valid g target
  | CardTarget targetTypeFilter =>
      match target with
      | ACard c => EnumHelpers.cardTypeMatches (type (cards g c)) targetTypeFilter
      | APlayer _ => false
      end
  end.

(** [context.gameActionsResolutionChain.includes(this)] *)
Definition inResolutionChain (this : System) (g : State) (context : CtxId) : bool :=
  bool_decide (identity this ∈ gameActionsResolutionChain (contexts g context)).

(** A property read in a boolean position: undefined is falsy. *)
Definition truthy (b : option bool) : bool := default false b.

Definition canAffect (this : System) (g : State) (target : PlayerOrCard) (context : CtxId)
    (additionalProperties : Properties) : bool :=
  let cannotBeCancelled :=
    cannotBeCancelled (generated (generatePropertiesFromContext this g context additionalProperties)) in
  isTargetTypeValid this g target &&
  negb (inResolutionChain this g context) &&
  ((bool_decide (stage (contexts g context) = Some EffectTmp) && truthy cannotBeCancelled)
   || negb (hasRestriction g target (systemName this) context)).

(** [this.targets(context, additionalProperties)] *)
Definition targetsOf (this : System) (g : State) (context : CtxId)
    (additionalProperties : Properties) : list PlayerOrCard :=
  targets (generatePropertiesFromContext this g context additionalProperties).

(** The loop of [hasLegalTarget]: return true at the first legal candidate. *)
Fixpoint hasLegalTargetLoop (this : System) (g : State) (context : CtxId)
    (additionalProperties : Properties) (candidates : list PlayerOrCard) : bool :=
  match candidates with
  | [] => false
  | candidateTarget :: rest =>
      if canAffect this g candidateTarget context additionalProperties then true
      else hasLegalTargetLoop this g context additionalProperties rest
  end.

Definition hasLegalTarget (this : System) (g : State) (context : CtxId)
    (additionalProperties : Properties) : bool :=
  hasLegalTargetLoop this g context additionalProperties
    (targetsOf this g context additionalProperties).

(** The loop of [allTargetsLegal]: return false at the first illegal one. *)
Fixpoint allTargetsLegalLoop (this : System) (g : State) (context : CtxId)
    (additionalProperties : Properties) (candidates : list PlayerOrCard) : bool :=
  match candidates with
  | [] => true
  | candidateTarget :: rest =>
      if negb (canAffect this g candidateTarget context additionalProperties) then false
      else allTargetsLegalLoop this g context additionalProperties rest
  end.

Definition allTargetsLegal (this : System) (g : State) (context : CtxId)
    (additionalProperties : Properties) : bool :=
  allTargetsLegalLoop this g context additionalProperties
    (targetsOf this g context additionalProperties).

End GameSystem.

(** ** Events and the closures a system installs on them *)

Module GameEvent.
Import GameSystem.

(** [event.condition]: the closures this code assigns, as data. *)
Inductive Condition :=
| ConstructorCondition
    (* whatever [new GameEvent] installed *)
| SystemCondition (this : System) (additionalProperties : Properties)
    (* [() => this.checkEventCondition(event, additionalProperties)] *)
| AttachedCondition (previousCondition : Condition) (upgrade : CardId)
    (primaryCard : option PlayerOrCard).
    (* [(e) => previousCondition(e) && upgrade.parentCard === event.card],
       [event] being the primary event, whose card nothing here reassigns *)

(** [event.handler] *)
Inductive Handler :=
| NoHandler
| SystemHandler (this : System) (additionalProperties : Properties)
    (* [(event) => this.eventHandler(event, additionalProperties)] *)
| QueueInitiateAbilitySteps.
    (* [() => this.queueInitiateAbilitySteps()] of the ability resolver *)

(** [event.createContingentEvents]: unset, or the closure installed for a
    card leaving play. *)
Inductive Contingent :=
| NoContingentEvents
| DefeatAttachedUpgrades.

(** [event.checkFullyResolved] *)
Inductive FullyResolvedCheck :=
| ConstructorCheck
| SystemCheck (this : System) (target : PlayerOrCard) (context : CtxId)
    (additionalProperties : Properties).

Record t := {
  data : EventData;
  condition : Condition;
  handler : Handler;
  checkFullyResolved : FullyResolvedCheck;
  createContingentEvents : Contingent
}.

Definition withData (f : EventData → EventData) (event : t) : t :=
  {| data := f (data event); condition := condition event; handler := handler event;
     checkFullyResolved := checkFullyResolved event;
     createContingentEvents := createContingentEvents event |}.

Definition setName (n : EventName) (d : EventData) : EventData :=
  {| name := n; cancelled := cancelled d; eventCannotBeCancelled := eventCannotBeCancelled d;
     context := context d; card := card d; order := order d;
     eventDestination := eventDestination d; isContingent := isContingent d;
     options := options d |}.

Definition setContext (c : CtxId) (d : EventData) : EventData :=
  {| name := name d; cancelled := cancelled d; eventCannotBeCancelled := eventCannotBeCancelled d;
     context := Some c; card := card d; order := order d;
     eventDestination := eventDestination d; isContingent := isContingent d;
     options := options d |}.

Definition setCard (c : PlayerOrCard) (d : EventData) : EventData :=
  {| name := name d; cancelled := cancelled d; eventCannotBeCancelled := eventCannotBeCancelled d;
     context := context d; card := Some c; order := order d;
     eventDestination := eventDestination d; isContingent := isContingent d;
     options := options d |}.

Definition setOrder (o : Z) (d : EventData) : EventData :=
  {| name := name d; cancelled := cancelled d; eventCannotBeCancelled := eventCannotBeCancelled d;
     context := context d; card := card d; order := o;
     eventDestination := eventDestination d; isContingent := isContingent d;
     options := options d |}.

Definition setDestination (l : Location) (d : EventData) : EventData :=
  {| name := name d; cancelled := cancelled d; eventCannotBeCancelled := eventCannotBeCancelled d;
     context := context d; card := card d; order := order d;
     eventDestination := Some l; isContingent := isContingent d;
     options := options d |}.

Definition setIsContingent (b : bool) (d : EventData) : EventData :=
  {| name := name d; cancelled := cancelled d; eventCannotBeCancelled := eventCannotBeCancelled d;
     context := context d; card := card d; order := order d;
     eventDestination := eventDestination d; isContingent := b;
     options := options d |}.

Definition setCancelled (b : bool) (d : EventData) : EventData :=
  {| name := name d; cancelled := b; eventCannotBeCancelled := eventCannotBeCancelled d;
     context := context d; card := card d; order := order d;
     eventDestination := eventDestination d; isContingent := isContingent d;
     options := options d |}.

Definition setCondition (c : Condition) (event : t) : t :=
  {| data := data event; condition := c; handler := handler event;
     checkFullyResolved := checkFullyResolved event;
     createContingentEvents := createContingentEvents event |}.

Definition replaceHandler (h : Handler) (event : t) : t :=
  {| data := data event; condition := condition event; handler := h;
     checkFullyResolved := checkFullyResolved event;
     createContingentEvents := createContingentEvents event |}.

Definition setCheckFullyResolved (c : FullyResolvedCheck) (event : t) : t :=
  {| data := data event; condition := condition event; handler := handler event;
     checkFullyResolved := c;
     createContingentEvents := createContingentEvents event |}.

Definition setCreateContingentEvents (c : Contingent) (event : t) : t :=
  {| data := data event; condition := condition event; handler := handler event;
     checkFullyResolved := checkFullyResolved event;
     createContingentEvents := c |}.

(** Modelled from the spec: the constructor of event/GameEvent.js, which is
    not among the sources.  A new event has the given name and handler, is
    not cancelled, has the ordering key every event starts with, and a
    condition that holds until a system installs its own. *)
Definition new (n : EventName) (cannotBeCancelled : option bool) (h : Handler) : t :=
  {| data := {| name := n; cancelled := false; eventCannotBeCancelled := cannotBeCancelled;
                context := None; card := None; order := 0;
                eventDestination := None; isContingent := false; options := None |};
     condition := ConstructorCondition;
     handler := h;
     checkFullyResolved := ConstructorCheck;
     createContingentEvents := NoContingentEvents |}.

(** Modelled from the spec: [cancel()] of event/GameEvent.js sets the
    cancelled flag. *)
Definition cancel (event : t) : t := withData (setCancelled true) event.

End GameEvent.

(** ** GameSystem.ts, continued: event generation *)

Module EventGeneration.
Import GameSystem.

Definition createEvent (this : System) (g : State) (target : PlayerOrCard) (context : CtxId)
    (additionalProperties : Properties) : GameEvent.t :=
  let cannotBeCancelled :=
    cannotBeCancelled (generated (generatePropertiesFromContext this g context additionalProperties)) in
  let event := GameEvent.new Unnamed cannotBeCancelled GameEvent.NoHandler in
  GameEvent.setCheckFullyResolved
    (GameEvent.SystemCheck this target context additionalProperties) event.

(** [addPropertiesToEvent]: the base class sets the context, a card target
    system also sets the card. *)
Definition addPropertiesToEvent (this : System) (event : GameEvent.t)
    (target : PlayerOrCard) (context : CtxId) : GameEvent.t :=
  let event := GameEvent.withData (GameEvent.setContext context) event in
  match variant this with
  | OtherSystem _ => event
  | CardTarget _ => GameEvent.withData (GameEvent.setCard target) event
  end.

Definition updateEvent (this : System) (event : GameEvent.t) (target : PlayerOrCard)
    (context : CtxId) (additionalProperties : Properties) : GameEvent.t :=
  let event := GameEvent.withData (GameEvent.setName (eventName this)) event in
  let event := addPropertiesToEvent this event target context in
  let event := GameEvent.replaceHandler (GameEvent.SystemHandler this additionalProperties) event in
  GameEvent.setCondition (GameEvent.SystemCondition this additionalProperties) event.

Definition generateEvent (this : System) (g : State) (target : PlayerOrCard) (context : CtxId)
    (additionalProperties : Properties) : GameEvent.t :=
  let event := createEvent this g target context additionalProperties in
  updateEvent this event target context additionalProperties.

(** [checkEventCondition(event, additionalProperties)]: true in GameSystem;
    in CardTargetSystem, [canAffect(event.card, event.context, ...)].
    [None] is the TypeError of reading through a missing card or context. *)
Definition checkEventCondition (this : System) (g : State) (event : EventData)
    (additionalProperties : Properties) : option bool :=
  match variant this with
  | OtherSystem _ => Some true
  | CardTarget _ =>
      match card event, context event with
      | Some target, Some context => Some (canAffect this g target context additionalProperties)
      | _, _ => None
      end
  end.

(** Running [event.condition(event)] in state [g]; the condition a new
    event starts with holds. *)
Fixpoint evalCondition (g : State) (event : EventData) (c : GameEvent.Condition)
  : option bool :=
  match c with
  | GameEvent.ConstructorCondition => Some true
  | GameEvent.SystemCondition this additionalProperties =>
      checkEventCondition this g event additionalProperties
  | GameEvent.AttachedCondition previousCondition upgrade primaryCard =>
      match evalCondition g event previousCondition with
      | Some true => Some (bool_decide (ACard <$> parentCard (cards g upgrade) = primaryCard))
      | other => other
      end
  end.

(** GameSystem.generateEventsForAllTargets: one event per legal target. *)
Definition generateEventsForAllTargets (this : System) (g : State) (context : CtxId)
    (additionalProperties : Properties) : list GameEvent.t :=
  map (fun target => generateEvent this g target context additionalProperties)
    (List.filter (fun target => canAffect this g target context additionalProperties)
       (targetsOf this g context additionalProperties)).

(** Modelled from the spec: the event window's treatment of one event
    (gameSteps/EventWindow and GameEvent are not among the sources).  The
    condition is re-checked immediately before the event applies; a
    cancelled event, or one whose condition fails, does not run its
    handler.  The result says whether the handler ran. *)
Definition applyEvent (g : State) (event : GameEvent.t) : State * bool :=
  if cancelled (GameEvent.data event) then (g, false)
  else
    match evalCondition g (GameEvent.data event) (GameEvent.condition event) with
    | Some true =>
        match GameEvent.handler event with
        | GameEvent.SystemHandler this additionalProperties =>
            (eventHandler this (GameEvent.data event) additionalProperties g, true)
        | _ => (g, true)
        end
    | _ => (g, false)
    end.

End EventGeneration.

(** ** Player.js: the piles and the movement of cards

    The piles of a player are arrays held in properties.  The functions
    here read an array from a property, assign a new array to a property
    ([removeCardFromPile]) or change an array in place through a reference
    obtained earlier ([moveCard]).  The state keeps the contents of the
    arrays that are stored now and counts the assignments to each property,
    which tells whether a reference obtained earlier is still the array
    stored. *)

Module Zones.
Import GameSystem.

(** *** The state, field by field *)

Definition setPlayers (f : PlayerId → Piles) (g : State) : State :=
  {| cards := cards g; contexts := contexts g; hasRestriction := hasRestriction g;
     players := f; objectPrototype := objectPrototype g;
     generation := generation g; messages := messages g |}.

Definition setPlayer (player : PlayerId) (p : Piles) (g : State) : State :=
  setPlayers (fun q => if bool_decide (q = player) then p else players g q) g.

Definition setObjectPrototype (o : ObjectPrototype) (g : State) : State :=
  {| cards := cards g; contexts := contexts g; hasRestriction := hasRestriction g;
     players := players g; objectPrototype := o;
     generation := generation g; messages := messages g |}.

(** One more array has been assigned to the slot. *)
Definition assigned (slot : Slot) (g : State) : State :=
  {| cards := cards g; contexts := contexts g; hasRestriction := hasRestriction g;
     players := players g; objectPrototype := objectPrototype g;
     generation := fun s => if bool_decide (s = slot) then S (generation g s)
                            else generation g s;
     messages := messages g |}.

(** A card object with some of its fields written. *)
Definition updateCard (card : CardId) (f : Card → Card) (g : State) : State :=
  {| cards := fun c => if bool_decide (c = card) then f (cards g c) else cards g c;
     contexts := contexts g; hasRestriction := hasRestriction g;
     players := players g; objectPrototype := objectPrototype g;
     generation := generation g; messages := messages g |}.

(** [card.controller = player] and [card.exhausted = b] *)
Definition withController (player : PlayerId) (c : Card) : Card :=
  {| type := type c; location := location c; upgrades := upgrades c;
     parentCard := parentCard c; owner := owner c; controller := player; uuid := uuid c;
     exhausted := exhausted c |}.

Definition withExhausted (b : bool) (c : Card) : Card :=
  {| type := type c; location := location c; upgrades := upgrades c;
     parentCard := parentCard c; owner := owner c; controller := controller c;
     uuid := uuid c; exhausted := Some b |}.

Definition setExhausted (card : CardId) (b : bool) (g : State) : State :=
  updateCard card (withExhausted b) g.

Definition setHand (v : list CardId) (p : Piles) : Piles :=
  {| hand := v; drawDeck := drawDeck p; resources := resources p;
     spaceArena := spaceArena p; groundArena := groundArena p; discard := discard p;
     removedFromGame := removedFromGame p; baseZone := baseZone p;
     leaderZone := leaderZone p; additionalPiles := additionalPiles p |}.

Definition setDrawDeck (v : list CardId) (p : Piles) : Piles :=
  {| hand := hand p; drawDeck := v; resources := resources p;
     spaceArena := spaceArena p; groundArena := groundArena p; discard := discard p;
     removedFromGame := removedFromGame p; baseZone := baseZone p;
     leaderZone := leaderZone p; additionalPiles := additionalPiles p |}.

Definition setResources (v : list CardId) (p : Piles) : Piles :=
  {| hand := hand p; drawDeck := drawDeck p; resources := v;
     spaceArena := spaceArena p; groundArena := groundArena p; discard := discard p;
     removedFromGame := removedFromGame p; baseZone := baseZone p;
     leaderZone := leaderZone p; additionalPiles := additionalPiles p |}.

Definition setSpaceArena (v : list CardId) (p : Piles) : Piles :=
  {| hand := hand p; drawDeck := drawDeck p; resources := resources p;
     spaceArena := v; groundArena := groundArena p; discard := discard p;
     removedFromGame := removedFromGame p; baseZone := baseZone p;
     leaderZone := leaderZone p; additionalPiles := additionalPiles p |}.

Definition setGroundArena (v : list CardId) (p : Piles) : Piles :=
  {| hand := hand p; drawDeck := drawDeck p; resources := resources p;
     spaceArena := spaceArena p; groundArena := v; discard := discard p;
     removedFromGame := removedFromGame p; baseZone := baseZone p;
     leaderZone := leaderZone p; additionalPiles := additionalPiles p |}.

Definition setDiscard (v : list CardId) (p : Piles) : Piles :=
  {| hand := hand p; drawDeck := drawDeck p; resources := resources p;
     spaceArena := spaceArena p; groundArena := groundArena p; discard := v;
     removedFromGame := removedFromGame p; baseZone := baseZone p;
     leaderZone := leaderZone p; additionalPiles := additionalPiles p |}.

Definition setRemovedFromGame (v : list CardId) (p : Piles) : Piles :=
  {| hand := hand p; drawDeck := drawDeck p; resources := resources p;
     spaceArena := spaceArena p; groundArena := groundArena p; discard := discard p;
     removedFromGame := v; baseZone := baseZone p;
     leaderZone := leaderZone p; additionalPiles := additionalPiles p |}.

Definition setBaseZone (v : list CardId) (p : Piles) : Piles :=
  {| hand := hand p; drawDeck := drawDeck p; resources := resources p;
     spaceArena := spaceArena p; groundArena := groundArena p; discard := discard p;
     removedFromGame := removedFromGame p; baseZone := v;
     leaderZone := leaderZone p; additionalPiles := additionalPiles p |}.

Definition setLeaderZone (v : list CardId) (p : Piles) : Piles :=
  {| hand := hand p; drawDeck := drawDeck p; resources := resources p;
     spaceArena := spaceArena p; groundArena := groundArena p; discard := discard p;
     removedFromGame := removedFromGame p; baseZone := baseZone p;
     leaderZone := v; additionalPiles := additionalPiles p |}.

(** [this.additionalPiles[name]] is a pile with these cards. *)
Definition setAdditionalPile (name : Location) (pile : list CardId) (p : Piles) : Piles :=
  {| hand := hand p; drawDeck := drawDeck p; resources := resources p;
     spaceArena := spaceArena p; groundArena := groundArena p; discard := discard p;
     removedFromGame := removedFromGame p; baseZone := baseZone p;
     leaderZone := leaderZone p;
     additionalPiles := fun l => if bool_decide (l = name) then Some pile
                                 else additionalPiles p l |}.

(** *** Slots *)

(** The array stored in a slot, if one is. *)
Definition arrayAt (slot : Slot) (g : State) : option (list CardId) :=
  match slot with
  | Field player zone =>
      let p := players g player in
      match zone with
      | Hand => Some (hand p)
      | Deck => Some (drawDeck p)
      | Discard => Some (discard p)
      | Resource => Some (resources p)
      | RemovedFromGame => Some (removedFromGame p)
      | SpaceArena => Some (spaceArena p)
      | GroundArena => Some (groundArena p)
      | Base => Some (baseZone p)
      | Leader => Some (leaderZone p)
      | OtherLocation _ => None
      end
  | AdditionalPile player name => additionalPiles (players g player) name
  | MemberCards name => memberCards (objectPrototype g) name
  | PrototypeCards => prototypeCards (objectPrototype g)
  | ArrayCards => arrayCards (objectPrototype g)
  end.

(** The zones that are fields of the player, which [getCardPile] has a
    case for. *)
Definition isField (zone : Location) : bool :=
  match zone with
  | OtherLocation _ => false
  | _ => true
  end.

(** The slot holds an array with these contents; which array it is, is not
    said here. *)
Definition store (slot : Slot) (v : list CardId) (g : State) : State :=
  match slot with
  | Field player zone =>
      let p := players g player in
      setPlayer player
        match zone with
        | Hand => setHand v p
        | Deck => setDrawDeck v p
        | Discard => setDiscard v p
        | Resource => setResources v p
        | RemovedFromGame => setRemovedFromGame v p
        | SpaceArena => setSpaceArena v p
        | GroundArena => setGroundArena v p
        | Base => setBaseZone v p
        | Leader => setLeaderZone v p
        | OtherLocation _ => p
        end g
  | AdditionalPile player name =>
      setPlayer player (setAdditionalPile name v (players g player)) g
  | MemberCards name =>
      setObjectPrototype
        {| memberCards := fun l => if bool_decide (l = name) then Some v
                                   else memberCards (objectPrototype g) l;
           prototypeCards := prototypeCards (objectPrototype g);
           arrayCards := arrayCards (objectPrototype g) |} g
  | PrototypeCards =>
      setObjectPrototype
        {| memberCards := memberCards (objectPrototype g);
           prototypeCards := Some v;
           arrayCards := arrayCards (objectPrototype g) |} g
  | ArrayCards =>
      setObjectPrototype
        {| memberCards := memberCards (objectPrototype g);
           prototypeCards := prototypeCards (objectPrototype g);
           arrayCards := Some v |} g
  end.

(** [property = array], for an array made on the spot: the slot holds a
    new array.  A new array stored as [Object.prototype.cards] has no
    [cards] of its own, so the one stored on the array it replaces is out
    of reach. *)
Definition assign (slot : Slot) (v : list CardId) (g : State) : State :=
  match slot with
  | PrototypeCards =>
      assigned ArrayCards
        (assigned PrototypeCards
           (setObjectPrototype
              {| memberCards := memberCards (objectPrototype g);
                 prototypeCards := Some v;
                 arrayCards := None |} g))
  | _ => assigned slot (store slot v g)
  end.

(** *** Looking a name up in [this.additionalPiles] *)

(** The functions every object inherits from [Object.prototype]. *)
Definition inheritedNames : list string :=
  ["constructor"; "hasOwnProperty"; "isPrototypeOf"; "propertyIsEnumerable";
   "toLocaleString"; "toString"; "valueOf"; "__defineGetter__"; "__defineSetter__";
   "__lookupGetter__"; "__lookupSetter__"]%string.

Definition isInherited (name : Location) : bool :=
  match name with
  | OtherLocation n => bool_decide (n ∈ inheritedNames)
  | _ => false
  end.

(** The names under which an object shows its prototype and, once the
    prototype has a [cards] property, that property; and the name that
    [undefined] makes as a property key. *)
Definition protoName : Location := OtherLocation "__proto__".
Definition cardsName : Location := OtherLocation "cards".
Definition undefinedName : Location := OtherLocation "undefined".

(** What [this.additionalPiles[name]] evaluates to, when it is not
    undefined: every one of these is truthy. *)
Inductive PileObject :=
| OwnPile              (* a pile object made by [createAdditionalPile] *)
| InheritedFunction    (* a function of [Object.prototype] *)
| ThePrototype         (* [Object.prototype] itself *)
| InheritedArray.      (* the array stored as [Object.prototype.cards] *)

Definition lookupPile (this : PlayerId) (name : Location) (g : State) : option PileObject :=
  match additionalPiles (players g this) name with
  | Some _ => Some OwnPile
  | None =>
      if bool_decide (name = protoName) then Some ThePrototype
      else if isInherited name then Some InheritedFunction
      else if bool_decide (name = cardsName) then
        match prototypeCards (objectPrototype g) with
        | Some _ => Some InheritedArray
        | None => None
        end
      else None
  end.

(** The slot [object.cards] is read from: the object's own property, or
    else the one it inherits from [Object.prototype]; [None] is
    undefined. *)
Definition inheritedCards (g : State) : option Slot :=
  match prototypeCards (objectPrototype g) with
  | Some _ => Some PrototypeCards
  | None => None
  end.

Definition cardsOf (this : PlayerId) (name : Location) (object : PileObject) (g : State)
  : option Slot :=
  match object with
  | OwnPile => Some (AdditionalPile this name)
  | InheritedFunction =>
      match memberCards (objectPrototype g) name with
      | Some _ => Some (MemberCards name)
      | None => inheritedCards g
      end
  | ThePrototype => inheritedCards g
  | InheritedArray =>
      match arrayCards (objectPrototype g) with
      | Some _ => Some ArrayCards
      | None => inheritedCards g
      end
  end.

(** The slot [object.cards = array] writes: always the object's own. *)
Definition ownCards (this : PlayerId) (name : Location) (object : PileObject) : Slot :=
  match object with
  | OwnPile => AdditionalPile this name
  | InheritedFunction => MemberCards name
  | ThePrototype => PrototypeCards
  | InheritedArray => ArrayCards
  end.

(** The slot of [this.additionalPiles[name].cards], for a name the lookup
    finds something under. *)
Definition additionalCards (this : PlayerId) (name : Location) (g : State) : option Slot :=
  object ← lookupPile this name g;
  cardsOf this name object g.

(** *** The pile functions *)

(** [getCardsInPlay(arena)]: the argument is not read. *)
Definition getCardsInPlay (arena : option Location) (p : Piles) : list CardId :=
  spaceArena p ++ groundArena p.

(** [this.createAdditionalPile(source)] as [getCardPile] calls it: with no
    properties, for a name under which the lookup found nothing. *)
Definition createAdditionalPile (this : PlayerId) (name : Location) (g : State) : State :=
  assign (AdditionalPile this name) [] g.

(** [getCardPile(source)]: the array, or undefined, and the state
    afterwards, as asking for an unknown zone creates its pile.  The empty
    name is falsy.  A name that [this.additionalPiles] inherits is not
    unknown: no pile is created for it, and what is returned is the [cards]
    of the inherited object. *)
Definition getCardPile (this : PlayerId) (source : option Location) (g : State)
  : option (list CardId) * State :=
  let p := players g this in
  match source with
  | Some Hand => (Some (hand p), g)
  | Some Deck => (Some (drawDeck p), g)
  | Some Discard => (Some (discard p), g)
  | Some Resource => (Some (resources p), g)
  | Some RemovedFromGame => (Some (removedFromGame p), g)
  | Some SpaceArena => (Some (spaceArena p), g)
  | Some GroundArena => (Some (groundArena p), g)
  | Some Base => (Some (baseZone p), g)
  | Some Leader => (Some (leaderZone p), g)
  | Some (OtherLocation name) =>
      if bool_decide (name = EmptyString) then (None, g)
      else
        let g :=
          match lookupPile this (OtherLocation name) g with
          | None => createAdditionalPile this (OtherLocation name) g
          | Some _ => g
          end in
        (slot ← additionalCards this (OtherLocation name) g; arrayAt slot g, g)
  | None => (None, g)
  end.

(** The slot of the array that [getCardPile(source)] returned, in the
    state it left. *)
Definition pileOf (this : PlayerId) (source : Location) (g : State) : option Slot :=
  match source with
  | OtherLocation name =>
      if bool_decide (name = EmptyString) then None
      else additionalCards this source g
  | zone => Some (Field this zone)
  end.

(** Player.isLegalLocationForCardType, with
    Helpers.defaultLegalLocationsForCardType, whose falsy result is
    [None].  The location can be undefined: as a property key that is the
    name "undefined", and only the wildcard for any zone matches it. *)
Definition isLegalLocationForCardType
    (defaultLegalLocationsForCardType : CardType → option (list LocationFilter))
    (g : State) (player : PlayerId) (cardType : CardType) (location : option Location)
  : bool :=
  if match lookupPile player (default undefinedName location) g with
     | Some _ => true
     | None => false
     end
  then true
  else
    match defaultLegalLocationsForCardType cardType with
    | None => false
    | Some legalLocationsForType =>
        match location with
        | Some l => EnumHelpers.cardLocationMatches l legalLocationsForType
        | None =>
            existsb (fun allowed => bool_decide (allowed = WildLoc AnyLocation))
              legalLocationsForType
        end
    end.

(** [removeCardByUuid(list, uuid)] *)
Definition removeCardByUuid (g : State) (pile : list CardId) (u : string) : list CardId :=
  List.filter (fun card => negb (bool_decide (uuid (cards g card) = u))) pile.

Section Removal.

(** The property name JavaScript derives from an array used as a key (its
    elements' string forms, joined by commas), read as a zone name. *)
Variable pileKey : list CardId → Location.

(** The body of [removeCardFromPile] once [card.controller === this]. *)
Definition removeFromOwnPile (this : PlayerId) (card : CardId) (g : State) : State :=
  let originalLocation := location (cards g card) in
  let '(originalPile, g) := getCardPile this (Some originalLocation) g in
  match originalPile with
  | None => g
  | Some pile =>
      let updatedPile := removeCardByUuid g pile (uuid (cards g card)) in
      match originalLocation with
      | SpaceArena => assign (Field this SpaceArena) updatedPile g
      | GroundArena => assign (Field this GroundArena) updatedPile g
      | Hand => assign (Field this Hand) updatedPile g
      | Deck => assign (Field this Deck) updatedPile g
      | Discard => assign (Field this Discard) updatedPile g
      | RemovedFromGame => assign (Field this RemovedFromGame) updatedPile g
      | Leader => assign (Field this Leader) updatedPile g
      | _ =>
          match lookupPile this (pileKey pile) g with
          | Some object => assign (ownCards this (pileKey pile) object) updatedPile g
          | None => g
          end
      end
  end.

(** [removeCardFromPile(card)]: another player's card is handed to its
    controller. *)
Definition removeCardFromPile (this : PlayerId) (card : CardId) (g : State) : State :=
  if bool_decide (controller (cards g card) ≠ this)
  then removeFromOwnPile (controller (cards g card)) card g
  else removeFromOwnPile this card g.

End Removal.

(** *** Moving a card *)

(** Modelled from the spec: [Contract.fail] of utils/Contract, which is not
    among the sources.  A violated invariant, such as moving a card to a
    zone that is not registered, is fatal to the pipeline and never
    silently recovered: the call does not return, which is [None]. *)
Definition contractFail {A : Type} : option A := None.

(** What [moveCard] calls besides and is not among the sources: methods of
    Card, each of which changes the card it is called on, the string
    values of the zone names (Constants.ts), and the engine's limit on
    nested calls. *)
Record Runtime := {
  (** [targetLocation.endsWith(' bottom')], and then the zone named by
      [targetLocation.replace(' bottom', '')] *)
  bottomOf : Location → option Location;
  (** [card.isUnit()] *)
  isUnit : Card → bool;
  (** the card after [card.moveTo(targetLocation)] *)
  moveTo : Location → Card → Card;
  (** the card after [card.setDefaultController(player)] *)
  setDefaultController : PlayerId → Card → Card;
  (** how deep calls may nest before the engine gives up *)
  callDepth : nat
}.

(** A reference to an array, as a local variable holds it: the slot it was
    read from and the number of assignments the slot had seen then. *)
Definition hold (slot : option Slot) (g : State) : option (Slot * nat) :=
  s ← slot;
  _ ← arrayAt s g;
  Some (s, generation g s).

(** [array.push(card)] and [array.unshift(card)] through a reference: the
    array changes in place, which shows in the state when it is still the
    array its slot stores. *)
Definition changeInPlace (held : option (Slot * nat)) (change : list CardId → list CardId)
    (g : State) : State :=
  match held with
  | Some (slot, stamp) =>
      if (generation g slot =? stamp)%nat
      then match arrayAt slot g with
           | Some pile => store slot (change pile) g
           | None => g
           end
      else g
  | None => g
  end.

Section Moving.

Variable defaultLegalLocationsForCardType : CardType → option (list LocationFilter).
Variable pileKey : list CardId → Location.
Variable runtime : Runtime.

(** The end of [moveCard]: the card goes into the target pile, on top for
    the deck (unless [options.bottom]), the discard pile and the
    removed-from-game pile, at the end otherwise, and is told its new
    location. *)
Definition place (card : CardId) (targetLocation : Location) (options : MoveOptions)
    (targetPile : option (Slot * nat)) (g : State) : State :=
  let g :=
    if bool_decide (targetLocation = Deck) && negb (bottom options)
    then changeInPlace targetPile (fun pile => card :: pile) g
    else if bool_decide (targetLocation = Discard)
            || bool_decide (targetLocation = RemovedFromGame)
    then changeInPlace targetPile (fun pile => card :: pile) g
    else changeInPlace targetPile (fun pile => pile ++ [card]) g in
  updateCard card (moveTo runtime targetLocation) g.

(** [this.moveCard(card, targetLocation, options)] with [depth] nested
    calls still allowed.  [None] is a call that does not return: the
    contract failure of an illegal zone or of a card already in the target
    pile, the TypeError of a unit without an array of upgrades, or calls
    nested too deep.  The local variable [targetPile] is a reference to
    the array read before the upgrades are moved; when one of those moves
    assigns a new array to the same property, the card is put into the
    array that is no longer stored.  That [options.bottom = true] also
    writes the caller's object is not followed up: no caller among the
    sources reads its options again. *)
Fixpoint moveCardWithin (depth : nat) (this : PlayerId) (card : CardId)
    (targetLocation : Location) (options : MoveOptions) (g : State) : option State :=
  match depth with
  | O => None
  | S depth =>
      let g := removeCardFromPile pileKey this card g in
      let '(options, targetLocation) :=
        match bottomOf runtime targetLocation with
        | Some stripped => ({| bottom := true |}, stripped)
        | None => (options, targetLocation)
        end in
      let '(targetPile, g) := getCardPile this (Some targetLocation) g in
      let held := hold (pileOf this targetLocation g) g in
      if negb (isLegalLocationForCardType defaultLegalLocationsForCardType g this
                 (type (cards g card)) (Some targetLocation))
         || match targetPile with
            | Some pile => bool_decide (card ∈ pile)
            | None => false
            end
      then contractFail
      else
        let currentLocation := location (cards g card) in
        if EnumHelpers.isArena (Loc currentLocation) then
          if negb (bool_decide (owner (cards g card) = this))
          then moveCardWithin depth (owner (cards g card)) card targetLocation options g
          else
            g ← (if isUnit runtime (cards g card)
                 then
                   attached ← upgrades (cards g card);
                   fold_left
                     (fun moved upgrade =>
                        g ← moved;
                        moveCardWithin depth (owner (cards g upgrade)) upgrade Discard
                          {| bottom := false |} g)
                     attached (Some g)
                 else Some g);
            Some (place card targetLocation options held
                    (updateCard card (withController this) g))
        else if EnumHelpers.isArena (Loc targetLocation) then
          Some (place card targetLocation options held
                  (updateCard card (withController this)
                     (updateCard card (setDefaultController runtime this) g)))
        else
          Some (place card targetLocation options held
                  (updateCard card (withController (owner (cards g card))) g))
  end.

(** [this.moveCard(card, targetLocation, options)] *)
Definition moveCard (this : PlayerId) (card : CardId) (targetLocation : Location)
    (options : MoveOptions) (g : State) : option State :=
  moveCardWithin (callDepth runtime) this card targetLocation options g.

End Moving.

(** The pile [rest] with the card put in as [place] does it. *)
Definition placed (card : CardId) (targetLocation : Location) (options : MoveOptions)
    (rest : list CardId) : list CardId :=
  if bool_decide (targetLocation = Deck) && negb (bottom options) then card :: rest
  else if bool_decide (targetLocation = Discard)
          || bool_decide (targetLocation = RemovedFromGame)
  then card :: rest
  else rest ++ [card].

(** [g'] is [g] after the card has been moved to the field [zone] of
    [player]: the field is what [removeCardFromPile] left of it with the
    card put in, the other fields are as [removeCardFromPile] left them,
    the card is controlled by the player and has been told its new zone,
    no other card has changed and nothing was written to the chat log. *)
Definition movedToField (pileKey : list CardId → Location) (runtime : Runtime)
    (player : PlayerId) (card : CardId) (zone : Location) (options : MoveOptions)
    (g g' : State) : Prop :=
  let removed := removeCardFromPile pileKey player card g in
  ∃ rest moved,
    arrayAt (Field player zone) removed = Some rest
    ∧ arrayAt (Field player zone) g' = Some (placed card zone options rest)
    ∧ (∀ q z, isField z = true → Field q z ≠ Field player zone →
         arrayAt (Field q z) g' = arrayAt (Field q z) removed)
    ∧ cards g' card = moveTo runtime zone moved
    ∧ controller moved = player
    ∧ (∀ other, other ≠ card → cards g' other = cards g other)
    ∧ messages g' = messages g.

(** *** Resources *)

(** [!card.exhausted] *)
Definition isReady (g : State) (card : CardId) : bool :=
  negb (default false (exhausted (cards g card))).

(** [countSpendableResources()] *)
Definition countSpendableResources (this : PlayerId) (g : State) : nat :=
  fold_left (fun count card => (count + if isReady g card then 1 else 0)%nat)
    (resources (players g this)) 0%nat.

(** [countExhaustedResources()]: adding an undefined flag gives NaN, which
    is [None] here, and stays. *)
Definition countExhaustedResources (this : PlayerId) (g : State) : option nat :=
  fold_left
    (fun count card =>
       match count, exhausted (cards g card) with
       | Some n, Some b => Some (n + if b then 1 else 0)%nat
       | _, _ => None
       end)
    (resources (players g this)) (Some 0%nat).

(** [exhaustResources(count)], for a whole number: the loop runs over the
    first [Math.min(count, readyResources.length)] ready resources. *)
Definition exhaustResources (this : PlayerId) (count : Z) (g : State) : State :=
  let readyResources := List.filter (isReady g) (resources (players g this)) in
  fold_left (fun g card => setExhausted card true g)
    (take (Z.to_nat (Z.min count (Z.of_nat (length readyResources)))) readyResources) g.

(** *** Searching the piles *)

(** [findCards(cardList, predicate)] for a list that is not null. *)
Definition findCards (g : State) (cardList : list CardId) (predicate : CardId → bool)
  : list CardId :=
  fold_left
    (fun cardsToReturn card =>
       let cardsToReturn :=
         if predicate card then cardsToReturn ++ [card] else cardsToReturn in
       match upgrades (cards g card) with
       | Some attached => cardsToReturn ++ List.filter predicate attached
       | None => cardsToReturn
       end)
    cardList [].

(** [findCard(cardList, predicate)] *)
Definition findCard (g : State) (cardList : list CardId) (predicate : CardId → bool)
  : option CardId :=
  match findCards g cardList predicate with
  | [] => None
  | card :: _ => Some card
  end.

(** [findCardByUuid(list, uuid)] and [findCardInPlayByUuid(uuid)] *)
Definition findCardByUuid (g : State) (cardList : list CardId) (u : string)
  : option CardId :=
  findCard g cardList (fun card => bool_decide (uuid (cards g card) = u)).

Definition findCardInPlayByUuid (this : PlayerId) (g : State) (u : string) : option CardId :=
  findCard g (getCardsInPlay None (players g this))
    (fun card => bool_decide (uuid (cards g card) = u)).

End Zones.

(** ** gameSystems/CardTargetSystem.ts *)

Module CardTargetSystem.
Import GameSystem EventGeneration.

(** An [UnlessActionCost] effect value: the action it guards and the cost,
    given as an object or as a function of the card. *)
Record UnlessActionCost (CostObject : Type) := {
  actionName : string;
  cost : CostObject + (PlayerOrCard → CostObject)
}.
Arguments actionName {CostObject} _.
Arguments cost {CostObject} _.

(** The steps that [generateEventsForAllTargets] queues. *)
Inductive Step (CostObject : Type) :=
| ResolveCardTargetingCost (iteration : nat) (card : PlayerOrCard)
    (properties : UnlessActionCost CostObject)
| PushCardTargetEvent (iteration : nat) (card : PlayerOrCard).
Arguments ResolveCardTargetingCost {CostObject} _ _ _.
Arguments PushCardTargetEvent {CostObject} _ _.

(** What one call has in hand: the game, the [events] array it returns and
    later steps still push to, the [allCostsPaid] variable of each loop
    iteration, and the queued steps.  Beside each event stands the
    iteration that pushed it, and [attempts] records each cost check with
    its iteration and whether the cost could be paid; neither is read by
    the code. *)
Record Run (CostObject : Type) := {
  game : State;
  events : list (nat * GameEvent.t);
  allCostsPaid : gmap nat bool;
  queue : list (Step CostObject);
  attempts : list (nat * bool)
}.
Arguments game {CostObject} _.
Arguments events {CostObject} _.
Arguments allCostsPaid {CostObject} _.
Arguments queue {CostObject} _.
Arguments attempts {CostObject} _.

Section UnlessCosts.

Context {CostObject : Type}.

(** [cost.hasLegalTarget(context)] and the state after [cost.resolve(card,
    context)] together with the window it queues. *)
Variable costHasLegalTarget : CostObject → State → CtxId → bool.
Variable costResolve : CostObject → PlayerOrCard → CtxId → State → State.

(** [card.getEffectValues(EffectName.UnlessActionCost)] *)
Variable unlessActionCosts : State → PlayerOrCard → list (UnlessActionCost CostObject).

Definition start (g : State) : Run CostObject :=
  {| game := g; events := []; allCostsPaid := ∅; queue := []; attempts := [] |}.

(** [let allCostsPaid = true] of iteration [i], and a later assignment *)
Definition setAllCostsPaid (i : nat) (b : bool) (r : Run CostObject) : Run CostObject :=
  {| game := game r; events := events r; allCostsPaid := <[i := b]> (allCostsPaid r);
     queue := queue r; attempts := attempts r |}.

Definition pushEvent (i : nat) (event : GameEvent.t) (r : Run CostObject) : Run CostObject :=
  {| game := game r; events := events r ++ [(i, event)]; allCostsPaid := allCostsPaid r;
     queue := queue r; attempts := attempts r |}.

Definition queueSimpleSteps (steps : list (Step CostObject)) (r : Run CostObject)
  : Run CostObject :=
  {| game := game r; events := events r; allCostsPaid := allCostsPaid r;
     queue := queue r ++ steps; attempts := attempts r |}.

Definition setGame (g : State) (r : Run CostObject) : Run CostObject :=
  {| game := g; events := events r; allCostsPaid := allCostsPaid r;
     queue := queue r; attempts := attempts r |}.

Definition recordAttempt (i : nat) (paid : bool) (r : Run CostObject) : Run CostObject :=
  {| game := game r; events := events r; allCostsPaid := allCostsPaid r;
     queue := queue r; attempts := attempts r ++ [(i, paid)] |}.

Definition setQueue (q : list (Step CostObject)) (r : Run CostObject) : Run CostObject :=
  {| game := game r; events := events r; allCostsPaid := allCostsPaid r;
     queue := q; attempts := attempts r |}.

(** [additionalCosts]: the card's unless-costs that name this system. *)
Definition additionalCostsOf (this : System) (g : State) (card : PlayerOrCard)
  : list (UnlessActionCost CostObject) :=
  List.filter (fun properties => bool_decide (actionName properties = systemName this))
    (unlessActionCosts g card).

(** The body of the [for] loop for the card at position [i]. *)
Definition iteration (this : System) (context : CtxId) (additionalProperties : Properties)
    (i : nat) (card : PlayerOrCard) (r : Run CostObject) : Run CostObject :=
  let r := setAllCostsPaid i true r in
  let additionalCosts := additionalCostsOf this (game r) card in
  match additionalCosts with
  | _ :: _ =>
      queueSimpleSteps
        (map (ResolveCardTargetingCost i card) additionalCosts ++ [PushCardTargetEvent i card]) r
  | [] =>
      if default false (allCostsPaid r !! i)
      then pushEvent i (generateEvent this (game r) card context additionalProperties) r
      else r
  end.

Fixpoint loop (this : System) (context : CtxId) (additionalProperties : Properties)
    (i : nat) (target : list PlayerOrCard) (r : Run CostObject) : Run CostObject :=
  match target with
  | [] => r
  | card :: rest =>
      loop this context additionalProperties (S i) rest
        (iteration this context additionalProperties i card r)
  end.

(** The call itself: it returns with some events already in the array and
    the rest left to the queued steps. *)
Definition generateEventsForAllTargets (this : System) (g : State) (context : CtxId)
    (additionalProperties : Properties) : Run CostObject :=
  loop this context additionalProperties 0%nat
    (targetsOf this g context additionalProperties) (start g).

(** One queued step. *)
Definition runStep (this : System) (context : CtxId) (additionalProperties : Properties)
    (step : Step CostObject) (r : Run CostObject) : Run CostObject :=
  match step with
  | ResolveCardTargetingCost i card properties =>
      let cost := match cost properties with inl c => c | inr f => f card end in
      if costHasLegalTarget cost (game r) context then
        let r := recordAttempt i true r in
        let r := setGame (costResolve cost card context (game r)) r in
        setGame (addMessage (PaidAdditionalCost card) (game r)) r
      else
        let r := recordAttempt i false r in
        let r := setAllCostsPaid i false r in
        setGame (addMessage (CannotPayAdditionalCost card) (game r)) r
  | PushCardTargetEvent i card =>
      if default false (allCostsPaid r !! i)
      then pushEvent i (generateEvent this (game r) card context additionalProperties) r
      else r
  end.

(** The pipeline runs the queued steps in order. *)
Definition runSteps (this : System) (context : CtxId) (additionalProperties : Properties)
    (steps : list (Step CostObject)) (r : Run CostObject) : Run CostObject :=
  fold_left (fun r step => runStep this context additionalProperties step r) steps r.

Definition runQueue (this : System) (context : CtxId) (additionalProperties : Properties)
    (r : Run CostObject) : Run CostObject :=
  runSteps this context additionalProperties (queue r) (setQueue [] r).

(** The events in the array once the queue has run. *)
Definition resolvedEvents (this : System) (g : State) (context : CtxId)
    (additionalProperties : Properties) : Run CostObject :=
  runQueue this context additionalProperties
    (generateEventsForAllTargets this g context additionalProperties).

(** What the loop leaves behind, written out: the steps queued for the
    cards from position [i] on, and the events pushed at once for those of
    them that have no additional cost. *)
Fixpoint queuedSteps (this : System) (g : State) (i : nat) (target : list PlayerOrCard)
  : list (Step CostObject) :=
  match target with
  | [] => []
  | card :: rest =>
      match additionalCostsOf this g card with
      | [] => []
      | _ :: _ =>
          map (ResolveCardTargetingCost i card) (additionalCostsOf this g card)
          ++ [PushCardTargetEvent i card]
      end ++ queuedSteps this g (S i) rest
  end.

Fixpoint immediateEvents (this : System) (g : State) (context : CtxId)
    (additionalProperties : Properties) (i : nat) (target : list PlayerOrCard)
  : list (nat * GameEvent.t) :=
  match target with
  | [] => []
  | card :: rest =>
      match additionalCostsOf this g card with
      | [] => [(i, generateEvent this g card context additionalProperties)]
      | _ => []
      end ++ immediateEvents this g context additionalProperties (S i) rest
  end.



(** The [allCostsPaid] variable of iteration [i]. *)
Definition flagOf (i : nat) (r : Run CostObject) : option bool := allCostsPaid r !! i.


End UnlessCosts.

Section LeavesPlay.

(** [context.game.actions.defeat()] and [context.game.getFrameworkContext()] *)
Variable defeat : System.
Variable getFrameworkContext : State → CtxId.

(** Helpers.defaultLegalLocationsForCardType; a falsy result is [None]. *)
Variable defaultLegalLocationsForCardType : CardType → option (list LocationFilter).

(** What [Player.moveCard] needs besides: see [Zones.moveCard]. *)
Variable pileKey : list CardId → Location.
Variable runtime : Zones.Runtime.

Definition addLeavesPlayPropertiesToEvent (this : System) (g : State) (event : GameEvent.t)
    (card : PlayerOrCard) (context : CtxId) (additionalProperties : Properties) : GameEvent.t :=
  let properties := generated (generatePropertiesFromContext this g context additionalProperties) in
  let event := updateEvent this event card context additionalProperties in
  let event :=
    GameEvent.withData (GameEvent.setDestination (default Discard (destination properties))) event in
  GameEvent.setCreateContingentEvents GameEvent.DefeatAttachedUpgrades event.

(** The contingent event for one attached upgrade. *)
Definition attachmentEventFor (g : State) (event : EventData) (upgrade : CardId) : GameEvent.t :=
  let attachmentEvent := generateEvent defeat g (ACard upgrade) (getFrameworkContext g) noProperties in
  let attachmentEvent :=
    GameEvent.withData (GameEvent.setOrder (order event - 1)) attachmentEvent in
  let previousCondition := GameEvent.condition attachmentEvent in
  let attachmentEvent :=
    GameEvent.setCondition (GameEvent.AttachedCondition previousCondition upgrade (card event))
      attachmentEvent in
  GameEvent.withData (GameEvent.setIsContingent true) attachmentEvent.

(** The upgrades the loop pushes an event for. *)
Definition upgradesInArena (g : State) (c : CardId) : list CardId :=
  List.filter (fun upgrade => EnumHelpers.isArena (Loc (location (cards g upgrade))))
    (default [] (upgrades (cards g c))).

(** Calling [event.createContingentEvents()] in state [g]; [None] is the
    TypeError of an event without a card.  A player has no [upgrades]. *)
Definition createContingentEvents (g : State) (event : GameEvent.t) : option (list GameEvent.t) :=
  match GameEvent.createContingentEvents event with
  | GameEvent.NoContingentEvents => Some []
  | GameEvent.DefeatAttachedUpgrades =>
      match card (GameEvent.data event) with
      | None => None
      | Some (APlayer _) => Some []
      | Some (ACard c) =>
          Some (map (attachmentEventFor g (GameEvent.data event)) (upgradesInArena g c))
      end
  end.

(** [leavesPlayEventHandler(event)]: the event as the handler leaves it and
    the state after [moveCard].  [None] is a TypeError (an event without a
    card, or [moveCard] handed an undefined zone) or a call of [moveCard]
    that does not return. *)
Definition leavesPlayEventHandler (event : EventData) (g : State) : option (EventData * State) :=
  match card event with
  | Some (ACard c) =>
      let '(event, g) :=
        if negb (Zones.isLegalLocationForCardType defaultLegalLocationsForCardType g
                   (owner (cards g c)) (type (cards g c)) (eventDestination event))
        then (GameEvent.setDestination Deck event,
              addMessage (IllegalLocationMessage (eventDestination event) c) g)
        else (event, g) in
      match eventDestination event with
      | Some destination =>
          g' ← Zones.moveCard defaultLegalLocationsForCardType pileKey runtime
                 (owner (cards g c)) c destination
                 (default {| bottom := false |} (options event)) g;
          Some (event, g')
      | None => None
      end
  | _ => None
  end.

End LeavesPlay.

End CardTargetSystem.

(** ** gameSteps/AbilityResolver.js *)

Module AbilityResolver.

(** [this.targetResults]: the fields the resolver reads. *)
Record TargetResults := {
  targetsCancelled : bool;
  delayTargeting : bool;
  payCostsFirst : bool
}.

Record CostResults := {
  costsCancelled : bool;
  costsCanCancel : bool;
  costEvents : list GameEvent.t;
  playCosts : bool;
  triggerCosts : bool
}.

(** The pass handler object; its text, argument and handler closure are
    fixed, [hasBeenShown] is its one mutable field. *)
Record PassAbilityHandler := { hasBeenShown : bool }.

Record Resolver := {
  cancelled : bool;
  canCancel : bool;
  initiateAbility : bool;
  passPriority : bool;
  events : list GameEvent.t;
  targetResults : TargetResults;
  costResults : CostResults;
  passAbilityHandler : option PassAbilityHandler;
  stage : option Stage                    (* [this.context.stage] *)
}.

(** What a call into the ability's target resolution gives back.  The
    resolution is handed the pass handler object: it may mark it shown and
    the player may press the button, which runs the handler. *)
Record Targeting := {
  results : TargetResults;
  passButtonShown : bool;
  passButtonPressed : bool
}.

(** The ability, the player and the windows, as far as the resolver
    depends on them. *)
Record Environment := {
  optional : bool;
  cannotTargetFirst : bool;
  isCardAbility : bool;
  isCardPlayed : bool;
  isActivatedAbility : bool;
  isEventAbility : bool;                  (* [ability.type === AbilityType.Event] *)
  hasLimit : bool;                        (* [ability.limit] is set *)
  sourceLocation : Location;
  cardStateWhenInitiated : option Location;
  earlyTargets : Targeting;               (* [resolveTargets] in resolveEarlyTargets *)
  resolveCostsResult : CostResults → CostResults;
  resolutionEventCancelled : GameEvent.t → bool;
  hasLegalTargets : bool;
  checkAllTargets : bool;
  remainingTargets : Targeting;           (* [resolveRemainingTargets] *)
  retargeted : Targeting;                 (* [resolveTargets] in resolveTargets *)
  playerPasses : bool;                    (* the choice made in the handler menu *)
  initiationEventResolves : bool;         (* the initiation event runs its handler *)
  initiateCardAbilityEventResolves : bool
}.

(** The steps the resolver puts on the pipeline, and the prompts and
    windows it queues. *)
Inductive Step :=
| ResolveEarlyTargets
| CheckForCancelOrPass
| OpenInitiateAbilityEventWindow
| ResolveCosts
| PayCosts
| CheckCostsWerePaid
| ResolveTargets
| InitiateAbilityEffects
| ExecuteHandler
| CheckForPass
| InitiateAbilityEventWindow (windowEvents : list GameEvent.t)
| HandlerMenuPrompt
| CostEventWindow (windowEvents : list GameEvent.t)
| MoveSourceToDiscard
| InitiateCardAbilityThenWindow.

(** What the resolver does to the world outside itself. *)
Inductive Effect :=
| PassPromptShown
| EventCancelCalled (event : GameEvent.t)
| AbilityHandlerExecuted
| MessageAdded (text : string)
| LimitIncremented
| AbilityMessageDisplayed
| WindowOpened (windowEvents : list GameEvent.t).

Definition isPassPrompt (e : Effect) : bool :=
  match e with PassPromptShown => true | _ => false end.

Definition isHandlerExecution (e : Effect) : bool :=
  match e with AbilityHandlerExecuted => true | _ => false end.

Definition getCostResults (canCancel : bool) : CostResults :=
  {| costsCancelled := false; costsCanCancel := canCancel; costEvents := [];
     playCosts := true; triggerCosts := true |}.

(** [targetResults = {}] *)
Definition noTargetResults : TargetResults :=
  {| targetsCancelled := false; delayTargeting := false; payCostsFirst := false |}.

(** The constructor. *)
Definition new (env : Environment) : Resolver :=
  {| cancelled := false;
     canCancel := true;
     initiateAbility := false;
     passPriority := false;
     events := [];
     targetResults := noTargetResults;
     costResults := getCostResults true;
     passAbilityHandler :=
       if optional env then Some {| hasBeenShown := false |} else None;
     stage := None |}.

(** [initialise()] *)
Definition initialPipeline : list Step :=
  [ResolveEarlyTargets; CheckForCancelOrPass; OpenInitiateAbilityEventWindow].

Definition setCancelled (b : bool) (r : Resolver) : Resolver :=
  {| cancelled := b; canCancel := canCancel r; initiateAbility := initiateAbility r;
     passPriority := passPriority r; events := events r; targetResults := targetResults r;
     costResults := costResults r; passAbilityHandler := passAbilityHandler r;
     stage := stage r |}.

Definition setInitiateAbility (b : bool) (r : Resolver) : Resolver :=
  {| cancelled := cancelled r; canCancel := canCancel r; initiateAbility := b;
     passPriority := passPriority r; events := events r; targetResults := targetResults r;
     costResults := costResults r; passAbilityHandler := passAbilityHandler r;
     stage := stage r |}.

Definition setPassPriority (b : bool) (r : Resolver) : Resolver :=
  {| cancelled := cancelled r; canCancel := canCancel r; initiateAbility := initiateAbility r;
     passPriority := b; events := events r; targetResults := targetResults r;
     costResults := costResults r; passAbilityHandler := passAbilityHandler r;
     stage := stage r |}.

Definition setEvents (es : list GameEvent.t) (r : Resolver) : Resolver :=
  {| cancelled := cancelled r; canCancel := canCancel r; initiateAbility := initiateAbility r;
     passPriority := passPriority r; events := es; targetResults := targetResults r;
     costResults := costResults r; passAbilityHandler := passAbilityHandler r;
     stage := stage r |}.

Definition setTargetResults (t : TargetResults) (r : Resolver) : Resolver :=
  {| cancelled := cancelled r; canCancel := canCancel r; initiateAbility := initiateAbility r;
     passPriority := passPriority r; events := events r; targetResults := t;
     costResults := costResults r; passAbilityHandler := passAbilityHandler r;
     stage := stage r |}.

Definition setCostResults (c : CostResults) (r : Resolver) : Resolver :=
  {| cancelled := cancelled r; canCancel := canCancel r; initiateAbility := initiateAbility r;
     passPriority := passPriority r; events := events r; targetResults := targetResults r;
     costResults := c; passAbilityHandler := passAbilityHandler r;
     stage := stage r |}.

Definition setPassAbilityHandler (h : option PassAbilityHandler) (r : Resolver) : Resolver :=
  {| cancelled := cancelled r; canCancel := canCancel r; initiateAbility := initiateAbility r;
     passPriority := passPriority r; events := events r; targetResults := targetResults r;
     costResults := costResults r; passAbilityHandler := h;
     stage := stage r |}.

Definition setStage (s : Stage) (r : Resolver) : Resolver :=
  {| cancelled := cancelled r; canCancel := canCancel r; initiateAbility := initiateAbility r;
     passPriority := passPriority r; events := events r; targetResults := targetResults r;
     costResults := costResults r; passAbilityHandler := passAbilityHandler r;
     stage := Some s |}.

(** [passAbilityHandler.handler()] *)
Definition passHandler (r : Resolver) : Resolver :=
  setPassPriority true (setCancelled true r).

(** [this.passAbilityHandler && !this.passAbilityHandler.hasBeenShown] *)
Definition passNotYetShown (r : Resolver) : bool :=
  match passAbilityHandler r with
  | Some h => negb (hasBeenShown h)
  | None => false
  end.

(** A call to [resolveTargets] or [resolveRemainingTargets] with the pass
    handler: the results are stored; if there is a handler, the button may
    have been shown and pressed. *)
Definition storeTargeting (t : Targeting) (r : Resolver) : Resolver :=
  let r := setTargetResults (results t) r in
  match passAbilityHandler r with
  | None => r
  | Some h =>
      let r :=
        if passButtonShown t
        then setPassAbilityHandler (Some {| hasBeenShown := true |}) r
        else r in
      if passButtonShown t && passButtonPressed t then passHandler r else r
  end.

(** The steps of [queueInitiateAbilitySteps]. *)
Definition initiateAbilitySteps : list Step :=
  [ResolveCosts; PayCosts; CheckCostsWerePaid; ResolveTargets; CheckForCancelOrPass;
   InitiateAbilityEffects; ExecuteHandler].

(** The events pushed by [openInitiateAbilityEventWindow]: which events,
    in which order, and the handler of the last; their payloads (player,
    card, context) play no part in what the resolver does next. *)
Definition initiationEvents (env : Environment) : list GameEvent.t :=
  (if isCardAbility env && isCardPlayed env
   then [GameEvent.new OnCardPlayed None GameEvent.NoHandler] else []) ++
  (if isCardAbility env && isActivatedAbility env
   then [GameEvent.new OnCardAbilityTriggered None GameEvent.NoHandler] else []) ++
  [GameEvent.new
     (if isCardAbility env then OnCardAbilityInitiated else OnAbilityResolverInitiated)
     None GameEvent.QueueInitiateAbilitySteps].

(** Modelled from the spec: the prompt and the windows the resolver queues
    (the prompt layer and the event windows are not among the sources).
    The initiation window's resolution enqueues the remaining stages unless
    the initiation event was cancelled; the handler menu invokes exactly
    one of the two handlers; the "then" window sets [initiateAbility] once
    its event resolves.  Other steps are not for this function. *)
Definition outsideStep (env : Environment) (s : Step) (r : Resolver)
  : Resolver * list Step * list Effect :=
  match s with
  | InitiateAbilityEventWindow windowEvents =>
      (r, if initiationEventResolves env then initiateAbilitySteps else [],
       [WindowOpened windowEvents])
  | HandlerMenuPrompt =>
      if playerPasses env then (passHandler r, [], []) else (r, [], [])
  | CostEventWindow windowEvents => (r, [], [WindowOpened windowEvents])
  | InitiateCardAbilityThenWindow =>
      if initiateCardAbilityEventResolves env
      then (setInitiateAbility true r, [], [])
      else (r, [], [])
  | _ => (r, [], [])
  end.

(** One step: the resolver after it, the steps it queued, and its effects. *)
Definition step (env : Environment) (s : Step) (r : Resolver)
  : Resolver * list Step * list Effect :=
  match s with
  | ResolveEarlyTargets =>
      let r := setStage PreTarget r in
      if negb (cannotTargetFirst env)
      then (storeTargeting (earlyTargets env) r, [], [])
      else (r, [], [])
  | CheckForCancelOrPass =>
      if cancelled r then (r, [], [])
      else if passNotYetShown r then (r, [CheckForPass], [])
      else (setCancelled (targetsCancelled (targetResults r)) r, [], [])
  | OpenInitiateAbilityEventWindow =>
      if cancelled r then (r, [], [])
      else
        let r := setEvents (events r ++ initiationEvents env) r in
        (r, [InitiateAbilityEventWindow (events r)], [])
  | ResolveCosts =>
      if cancelled r then (r, [], [])
      else
        let r := setCostResults
                   {| costsCancelled := costsCancelled (costResults r);
                      costsCanCancel := canCancel r;
                      costEvents := costEvents (costResults r);
                      playCosts := playCosts (costResults r);
                      triggerCosts := triggerCosts (costResults r) |} r in
        let r := setStage Cost r in
        (setCostResults (resolveCostsResult env (costResults r)) r, [], [])
  | CheckForPass =>
      if cancelled r then (r, [], [])
      else if costsCancelled (costResults r) then (setCancelled true r, [], [])
      else if passNotYetShown r
      then (setPassAbilityHandler (Some {| hasBeenShown := true |}) r,
            [HandlerMenuPrompt], [PassPromptShown])
      else (r, [], [])
  | PayCosts =>
      if cancelled r then (r, [], [])
      else if costsCancelled (costResults r) then (setCancelled true r, [], [])
      else
        let r := setPassPriority true r in
        match costEvents (costResults r) with
        | _ :: _ => (r, [CostEventWindow (costEvents (costResults r))], [])
        | [] => (r, [], [])
        end
  | CheckCostsWerePaid =>
      if cancelled r then (r, [], [])
      else
        let r := setCancelled
                   (existsb (resolutionEventCancelled env) (costEvents (costResults r))) r in
        if cancelled r
        then (r, [], [MessageAdded "{0} attempted to use {1}, but did not successfully pay the required costs"])
        else (r, [], [])
  | ResolveTargets =>
      if cancelled r then (r, [], [])
      else
        let r := setStage Target r in
        if negb (hasLegalTargets env)
        then (setCancelled true r, [],
              [MessageAdded "{0} attempted to use {1}, but there are insufficient legal targets"])
        else if delayTargeting (targetResults r)
        then (storeTargeting (remainingTargets env) r, [], [])
        else if payCostsFirst (targetResults r) || negb (checkAllTargets env)
        then (storeTargeting (retargeted env) r, [], [])
        else (r, [], [])
  | InitiateAbilityEffects =>
      if cancelled r
      then (setEvents (map GameEvent.cancel (events r)) r, [],
            map EventCancelCalled (events r))
      else
        let limitEffects :=
          if hasLimit env && negb (bool_decide (sourceLocation env = Hand)) &&
             match cardStateWhenInitiated env with
             | None => true
             | Some l => bool_decide (l = sourceLocation env)
             end
          then [LimitIncremented] else [] in
        if isActivatedAbility env
        then (r,
              (if isEventAbility env then [MoveSourceToDiscard] else []) ++
              [InitiateCardAbilityThenWindow],
              limitEffects ++ [AbilityMessageDisplayed])
        else (setInitiateAbility true r, [], limitEffects ++ [AbilityMessageDisplayed])
  | ExecuteHandler =>
      if cancelled r || negb (initiateAbility r) then (r, [], [])
      else (setStage EffectTmp r, [], [AbilityHandlerExecuted])
  | InitiateAbilityEventWindow _ | HandlerMenuPrompt | CostEventWindow _
  | MoveSourceToDiscard | InitiateCardAbilityThenWindow =>
      outsideStep env s r
  end.

(** Modelled from the spec: the pipeline that runs the resolver's steps
    (Pipeline and BaseStepWithPipeline are not among the sources).  The
    front step runs to completion; the steps it queued go in front of the
    remaining ones, in the order they were queued.  [fuel] bounds the
    number of steps run; what is returned is the resolver, the steps still
    waiting, and the effects in order. *)
Fixpoint run (fuel : nat) (env : Environment) (pipeline : list Step) (r : Resolver)
  : Resolver * list Step * list Effect :=
  match fuel, pipeline with
  | S fuel, s :: rest =>
      let '(r, queued, effects) := step env s r in
      let '(r, waiting, later) := run fuel env (queued ++ rest) r in
      (r, waiting, effects ++ later)
  | _, _ => (r, pipeline, [])
  end.

(** One resolution, from the constructor. *)
Definition resolve (fuel : nat) (env : Environment) : Resolver * list Step * list Effect :=
  run fuel env initialPipeline (new env).

(** How often the pass prompt was put up, and whether the ability's
    handler ran. *)
Definition promptsShown (effects : list Effect) : nat :=
  length (List.filter isPassPrompt effects).

Definition handlerExecuted (effects : list Effect) : bool :=
  existsb isHandlerExecution effects.

(** A bound on the steps a step can still cause: each step queues steps of
    smaller total weight. *)
Definition weight (s : Step) : nat :=
  match s with
  | OpenInitiateAbilityEventWindow => 15
  | InitiateAbilityEventWindow _ => 14
  | CheckForCancelOrPass => 4
  | CheckForPass => 3
  | InitiateAbilityEffects => 3
  | PayCosts => 2
  | _ => 1
  end.

Definition totalWeight (pipeline : list Step) : nat :=
  fold_right (fun s n => (weight s + n)%nat) 0%nat pipeline.

(** Where a resolution stands, read off the steps still waiting. *)
Inductive Phase := BeforeWindow | InWindow | BeforeEffects | AfterEffects | Finished.

Inductive InPhase : Phase → list Step → Prop :=
| AtStart :
    InPhase BeforeWindow
      [ResolveEarlyTargets; CheckForCancelOrPass; OpenInitiateAbilityEventWindow]
| AtFirstCheck : InPhase BeforeWindow [CheckForCancelOrPass; OpenInitiateAbilityEventWindow]
| AtFirstPassCheck : InPhase BeforeWindow [CheckForPass; OpenInitiateAbilityEventWindow]
| AtFirstPrompt : InPhase BeforeWindow [HandlerMenuPrompt; OpenInitiateAbilityEventWindow]
| AtOpen : InPhase BeforeWindow [OpenInitiateAbilityEventWindow]
| AtWindow es : InPhase InWindow [InitiateAbilityEventWindow es]
| AtResolveCosts :
    InPhase BeforeEffects
      [ResolveCosts; PayCosts; CheckCostsWerePaid; ResolveTargets; CheckForCancelOrPass;
       InitiateAbilityEffects; ExecuteHandler]
| AtPayCosts :
    InPhase BeforeEffects
      [PayCosts; CheckCostsWerePaid; ResolveTargets; CheckForCancelOrPass;
       InitiateAbilityEffects; ExecuteHandler]
| AtCostWindow es :
    InPhase BeforeEffects
      [CostEventWindow es; CheckCostsWerePaid; ResolveTargets; CheckForCancelOrPass;
       InitiateAbilityEffects; ExecuteHandler]
| AtCheckCostsWerePaid :
    InPhase BeforeEffects
      [CheckCostsWerePaid; ResolveTargets; CheckForCancelOrPass;
       InitiateAbilityEffects; ExecuteHandler]
| AtResolveTargets :
    InPhase BeforeEffects
      [ResolveTargets; CheckForCancelOrPass; InitiateAbilityEffects; ExecuteHandler]
| AtSecondCheck :
    InPhase BeforeEffects [CheckForCancelOrPass; InitiateAbilityEffects; ExecuteHandler]
| AtSecondPassCheck :
    InPhase BeforeEffects [CheckForPass; InitiateAbilityEffects; ExecuteHandler]
| AtSecondPrompt :
    InPhase BeforeEffects [HandlerMenuPrompt; InitiateAbilityEffects; ExecuteHandler]
| AtInitiateAbilityEffects : InPhase BeforeEffects [InitiateAbilityEffects; ExecuteHandler]
| AtMoveToDiscard :
    InPhase AfterEffects [MoveSourceToDiscard; InitiateCardAbilityThenWindow; ExecuteHandler]
| AtThenWindow : InPhase AfterEffects [InitiateCardAbilityThenWindow; ExecuteHandler]
| AtExecuteHandler : InPhase AfterEffects [ExecuteHandler]
| AtEnd : InPhase Finished [].

(** Every event of the resolver's list is cancelled. *)
Definition allEventsCancelled (r : Resolver) : Prop :=
  Forall (fun e => GameSystem.cancelled (GameEvent.data e) = true) (events r).

(** What holds of the resolver in each phase. *)
Definition phaseHolds (ph : Phase) (r : Resolver) : Prop :=
  match ph with
  | BeforeWindow => events r = []
  | InWindow => cancelled r = false
  | BeforeEffects => True
  | AfterEffects | Finished => cancelled r = true → allEventsCancelled r
  end.

Definition reachable (pipeline : list Step) (r : Resolver) : Prop :=
  ∃ ph, InPhase ph pipeline ∧ phaseHolds ph r.

End AbilityResolver.

(** ** Concrete inputs used by the examples *)

Module Examples.

(** *** Costs: cards are their printed cost, aspects are numbered *)

(** An adjuster that takes 1 off the base cost, floor 0, and does not apply
    to aspect penalties. *)
Definition discount : @Player.CostAdjuster Z unit unit nat unit :=
  {| Player.canAdjust := fun _ _ _ _ penaltyAspect _ =>
       match penaltyAspect with None => true | Some _ => false end;
     Player.getAmount := fun _ _ => 1;
     Player.costFloor := 0 |}.

(** An adjuster that adds 2 to every cost, floor 5. *)
Definition surcharge : @Player.CostAdjuster Z unit unit nat unit :=
  {| Player.canAdjust := fun _ _ _ _ _ _ => true;
     Player.getAmount := fun _ _ => -2;
     Player.costFloor := 5 |}.

(** A player whose leader has aspects 1 and 2 and whose base has aspect 3. *)
Definition player (adjusters : list (@Player.CostAdjuster Z unit unit nat unit))
  : @Player.PlayerState Z unit unit nat unit :=
  {| Player.arrays := {[ 0%nat := [1%nat; 2%nat]; 1%nat := [3%nat] ]};
     Player.leaderAspects := 0%nat;
     Player.baseAspects := 1%nat;
     Player.costAdjusters := adjusters;
     Player.zones := tt |}.

(** *** Systems and game states *)

Import GameSystem.

(** A card target system for units, and the defeat system. *)
Definition exhaust : System :=
  {| identity := 1%nat; systemName := "exhaust"; eventName := OtherEvent "onCardExhausted";
     configuration := Preset noProperties;
     defaultProperties := baseDefaultProperties;
     getDefaultTargets := fun g context => Many [Some (ACard (source (contexts g context)))];
     variant := CardTarget [WildTyp UnitCard];
     eventHandler := fun _ _ g => addMessage (OtherMessage "exhausted") g |}.

Definition defeat : System :=
  {| identity := 2%nat; systemName := "defeat"; eventName := OtherEvent "onCardDefeated";
     configuration := Preset noProperties;
     defaultProperties := baseDefaultProperties;
     getDefaultTargets := fun g context => Many [Some (ACard (source (contexts g context)))];
     variant := CardTarget [WildTyp AnyCard];
     eventHandler := fun _ _ g => addMessage (OtherMessage "defeated") g |}.

(** A system that targets three cards at once. *)
Definition exhaustThree : System :=
  {| identity := 3%nat; systemName := "exhaust"; eventName := OtherEvent "onCardExhausted";
     configuration :=
       Preset {| target := Some (Many [Some (ACard 1%nat); Some (ACard 4%nat); Some (ACard 5%nat)]);
                 cannotBeCancelled := None; optional := None; destination := None |};
     defaultProperties := baseDefaultProperties;
     getDefaultTargets := fun _ _ => Many [];
     variant := CardTarget [WildTyp UnitCard];
     eventHandler := fun _ _ g => addMessage (OtherMessage "exhausted") g |}.

(** Card 1 is a unit in the ground arena with upgrades 2 (in the arena) and
    3 (already in the discard pile); cards 4 and 5 are units, 6 a token, all
    of player 0. *)
Definition cardsInPlay (c : CardId) : Card :=
  match c with
  | 1%nat => {| type := NonLeaderUnit; location := GroundArena;
                upgrades := Some [2%nat; 3%nat]; parentCard := None; owner := 0%nat;
                controller := 0%nat; uuid := "u1"; exhausted := Some false |}
  | 2%nat => {| type := Upgrade; location := GroundArena;
                upgrades := None; parentCard := Some 1%nat; owner := 0%nat;
                controller := 0%nat; uuid := "u2"; exhausted := None |}
  | 3%nat => {| type := Upgrade; location := Discard;
                upgrades := None; parentCard := None; owner := 0%nat;
                controller := 0%nat; uuid := "u3"; exhausted := None |}
  | 4%nat => {| type := NonLeaderUnit; location := SpaceArena;
                upgrades := Some []; parentCard := None; owner := 0%nat;
                controller := 0%nat; uuid := "u4"; exhausted := Some false |}
  | 6%nat => {| type := TokenUnit; location := SpaceArena;
                upgrades := Some []; parentCard := None; owner := 0%nat;
                controller := 0%nat; uuid := "u6"; exhausted := Some false |}
  | _ => {| type := NonLeaderUnit; location := SpaceArena;
            upgrades := Some []; parentCard := None; owner := 0%nat;
            controller := 0%nat; uuid := "u5"; exhausted := Some false |}
  end.

(** The piles these cards are in; the other player has none. *)
Definition noPiles : Piles :=
  {| hand := []; drawDeck := []; resources := []; spaceArena := []; groundArena := [];
     discard := []; removedFromGame := []; baseZone := []; leaderZone := [];
     additionalPiles := fun _ => None |}.

Definition pilesInPlay (p : PlayerId) : Piles :=
  match p with
  | 0%nat =>
      {| hand := []; drawDeck := []; resources := [];
         spaceArena := [4%nat; 5%nat; 6%nat]; groundArena := [1%nat; 2%nat];
         discard := [3%nat]; removedFromGame := []; baseZone := []; leaderZone := [];
         additionalPiles := fun _ => None |}
  | _ => noPiles
  end.

(** Nothing has been stored on [Object.prototype]. *)
Definition untouched : ObjectPrototype :=
  {| memberCards := fun _ => None; prototypeCards := None; arrayCards := None |}.

Definition table (restricted : PlayerOrCard → string → CtxId → bool) : State :=
  {| cards := cardsInPlay;
     contexts := fun _ => {| stage := Some Target; gameActionsResolutionChain := [];
                             source := 1%nat |};
     hasRestriction := restricted;
     players := pilesInPlay;
     objectPrototype := untouched;
     generation := fun _ => 0%nat;
     messages := [] |}.

(** Nothing is restricted; or card 1 cannot be exhausted. *)
Definition unrestricted : State := table (fun _ _ _ => false).

Definition cardOneRestricted : State :=
  table (fun target actionName _ =>
           bool_decide (target = ACard 1%nat) && String.eqb actionName "exhaust").

(** Legal zones by card type, for the examples: tokens are not shuffled
    into decks or discarded. *)
Definition legalLocations (t : CardType) : option (list LocationFilter) :=
  match t with
  | TokenUnit | TokenUpgrade => Some [WildLoc AnyArena]
  | BaseType | LeaderType => Some [Loc Base]
  | LeaderUnit => Some [WildLoc AnyArena; Loc Base]
  | _ => Some [Loc Hand; Loc Deck; Loc Discard; Loc Resource; Loc RemovedFromGame;
               WildLoc AnyArena]
  end.

(** Cards whose string form is the default one of objects, zone names of
    which none ends in [' bottom'], and cards that are units by their type
    and keep their controller. *)
Definition pileKey (pile : list CardId) : Location :=
  OtherLocation (String.concat "," (map (fun _ => "[object Object]"%string) pile)).

Definition withLocation (l : Location) (c : Card) : Card :=
  {| type := type c; location := l; upgrades := upgrades c; parentCard := parentCard c;
     owner := owner c; controller := controller c; uuid := uuid c;
     exhausted := exhausted c |}.

Definition engine : Zones.Runtime :=
  {| Zones.bottomOf := fun _ => None;
     Zones.isUnit := fun c => EnumHelpers.isUnit (Typ (type c));
     Zones.moveTo := withLocation;
     Zones.setDefaultController := fun _ c => c;
     Zones.callDepth := 16%nat |}.

(** The defeat of token 6, sent to the discard pile. *)
Definition tokenDefeated : EventData :=
  GameEvent.setDestination Discard
    (GameEvent.setCard (ACard 6%nat)
       (GameEvent.data (GameEvent.new (OtherEvent "onCardDefeated") None GameEvent.NoHandler))).

(** The defeat of unit 4, sent to the base zone. *)
Definition unitDefeated : EventData :=
  GameEvent.setDestination Base
    (GameEvent.setCard (ACard 4%nat)
       (GameEvent.data (GameEvent.new (OtherEvent "onCardDefeated") None GameEvent.NoHandler))).

(** *** Additional costs: a cost is payable or not *)

Definition payable (cost : bool) (_ : State) (_ : CtxId) : bool := cost.

Definition payCost (_ : bool) (_ : PlayerOrCard) (_ : CtxId) (g : State) : State :=
  addMessage (OtherMessage "paid") g.

(** Card 4 can be exhausted only at a cost that cannot be paid, card 5 at
    one that can; card 1 at none. *)
Definition unlessCosts (_ : State) (card : PlayerOrCard)
  : list (CardTargetSystem.UnlessActionCost bool) :=
  match card with
  | ACard 4%nat => [ {| CardTargetSystem.actionName := "exhaust";
                        CardTargetSystem.cost := inl false |} ]
  | ACard 5%nat => [ {| CardTargetSystem.actionName := "exhaust";
                        CardTargetSystem.cost := inl true |};
                     {| CardTargetSystem.actionName := "defeat";
                        CardTargetSystem.cost := inl false |} ]
  | _ => []
  end.

(** *** Resolutions *)

Import AbilityResolver.

Definition quietTargeting : Targeting :=
  {| results := noTargetResults; passButtonShown := false; passButtonPressed := false |}.

(** An optional triggered ability whose player, asked, passes or not. *)
Definition optionalAbility (passes : bool) : Environment :=
  {| optional := true; cannotTargetFirst := false; isCardAbility := true;
     isCardPlayed := false; isActivatedAbility := false; isEventAbility := false;
     hasLimit := false; sourceLocation := GroundArena; cardStateWhenInitiated := None;
     earlyTargets := quietTargeting;
     resolveCostsResult := fun c => c;
     resolutionEventCancelled := fun _ => false;
     hasLegalTargets := true; checkAllTargets := true;
     remainingTargets := quietTargeting; retargeted := quietTargeting;
     playerPasses := passes;
     initiationEventResolves := true;
     initiateCardAbilityEventResolves := true |}.

(** Target selection that showed the pass button, which was not pressed. *)
Definition promptedTargeting : Targeting :=
  {| results := noTargetResults; passButtonShown := true; passButtonPressed := false |}.

(** An optional ability whose early target selection offered the pass. *)
Definition passOfferedByTargeting : Environment :=
  {| optional := true; cannotTargetFirst := false; isCardAbility := true;
     isCardPlayed := false; isActivatedAbility := false; isEventAbility := false;
     hasLimit := false; sourceLocation := GroundArena; cardStateWhenInitiated := None;
     earlyTargets := promptedTargeting;
     resolveCostsResult := fun c => c;
     resolutionEventCancelled := fun _ => false;
     hasLegalTargets := true; checkAllTargets := true;
     remainingTargets := quietTargeting; retargeted := quietTargeting;
     playerPasses := false;
     initiationEventResolves := true;
     initiateCardAbilityEventResolves := true |}.

(** A resolver cancelled after its initiation event was put in its list. *)
Definition cancelledResolver : Resolver :=
  setCancelled true
    (setEvents (initiationEvents (optionalAbility false)) (new (optionalAbility false))).

End Examples.


(** ** utils/EnumHelpers.ts, the remaining functions *)

Module EnumConversion.

(** A call that returns a value or throws an [Error] with a message. *)
Inductive Outcome (A : Type) :=
| Thrown (message : string)
| Returned (value : A).
Arguments Thrown {A} _.
Arguments Returned {A} _.

Definition getCardTypesForFilter (cardTypeFilter : CardTypeFilter) : list CardType :=
  match cardTypeFilter with
  | WildTyp AnyCard =>
      [BaseType; EventType; LeaderType; NonLeaderUnit; Upgrade; TokenUnit; TokenUpgrade;
       LeaderUnit]
  | WildTyp UnitCard => [NonLeaderUnit; LeaderUnit; TokenUnit]
  | WildTyp TokenCard => [TokenUnit; TokenUpgrade]
  | Typ t => [t]
  end.

Section CheckConvert.

(** [String.prototype.toLowerCase] *)
Variable toLowerCase : string → string.

(** [Object.values(enumObj).indexOf(value.toLowerCase()) >= 0] *)
Definition isEnumValue (enumValues : list string) (value : string) : bool :=
  bool_decide (toLowerCase value ∈ enumValues).

(** [checkConvertToEnum(values, enumObj)], the enum given by its values:
    the loop pushes each value as it was passed and throws at the first one
    whose lower-case form is not a value of the enum. *)
Fixpoint checkConvertToEnum (values : list string) (enumValues : list string)
  : Outcome (list string) :=
  match values with
  | [] => Returned []
  | value :: rest =>
      if isEnumValue enumValues value then
        match checkConvertToEnum rest enumValues with
        | Returned result => Returned (value :: result)
        | Thrown message => Thrown message
        end
      else Thrown ("Invalid value for enum: " ++ value)
  end.

End CheckConvert.

End EnumConversion.

(** ** GameSystem.ts and CardTargetSystem.ts, the remaining methods *)

Module SystemCalls.
Import GameSystem EventGeneration.

(** [setDefaultTargetFn(func)]: the receiver with its [getDefaultTargets]
    replaced. *)
Definition setDefaultTargetFn (func : State → CtxId → TargetProperty) (this : System) : System :=
  {| identity := identity this; systemName := systemName this; eventName := eventName this;
     configuration := configuration this; defaultProperties := defaultProperties this;
     getDefaultTargets := func; variant := variant this; eventHandler := eventHandler this |}.

(** The [if (target)] of [resolve]: undefined is falsy, a card, a player or
    an array (an empty one too) is truthy. *)
Definition targetGiven (target : TargetProperty) : bool :=
  match target with
  | One None => false
  | _ => true
  end.

(** The receiver as [resolve(target, context)] leaves it: it keeps the
    passed target as its default target from then on. *)
Definition resolveReceiver (target : TargetProperty) (this : System) : System :=
  if targetGiven target then setDefaultTargetFn (fun _ _ => target) this else this.

(** The events [resolve(target, context)] hands to the window it queues,
    for a system that inherits [generateEventsForAllTargets]. *)
Definition resolveEvents (target : TargetProperty) (this : System) (g : State) (context : CtxId)
  : list GameEvent.t :=
  generateEventsForAllTargets (resolveReceiver target this) g context noProperties.

(** [isOptional(context, additionalProperties)] *)
Definition isOptional (this : System) (g : State) (context : CtxId)
    (additionalProperties : Properties) : bool :=
  default false
    (optional (generated (generatePropertiesFromContext this g context additionalProperties))).

(** [isEventFullyResolved(event, target, context, additionalProperties)]:
    GameSystem's, and CardTargetSystem's, which also wants the event's card
    to be the target. *)
Definition isEventFullyResolved (this : System) (event : EventData) (target : PlayerOrCard)
  : bool :=
  match variant this with
  | OtherSystem _ => negb (cancelled event) && bool_decide (name event = eventName this)
  | CardTarget _ =>
      bool_decide (card event = Some target)
      && (negb (cancelled event) && bool_decide (name event = eventName this))
  end.

(** Calling [check(eventAtResolution)] for a check installed by
    [createEvent]; what the constructor installs is not known here. *)
Definition evalFullyResolved (check : GameEvent.FullyResolvedCheck)
    (eventAtResolution : EventData) : option bool :=
  match check with
  | GameEvent.ConstructorCheck => None
  | GameEvent.SystemCheck this target _ _ =>
      Some (isEventFullyResolved this eventAtResolution target)
  end.

(** The property object without the target: what [Object.assign] makes of
    the three sources, the later ones first. *)
Definition firstDefined {A} (sources : list (option A)) : option A :=
  List.fold_right (fun source rest => match source with Some a => Some a | None => rest end)
    None sources.

(** The configured properties in a state and context. *)
Definition configured (this : System) (g : State) (context : CtxId) : Properties :=
  match configuration this with
  | Preset properties => properties
  | Factory propertyFactory => propertyFactory g context
  end.

End SystemCalls.

(** ** The keyword helpers: the cheapest Smuggle action *)

Module KeywordHelpers.

Section Smuggle.

Context {Action : Type}.

(** [action.playType === PlayType.Smuggle], [action.isPlayCardAbility()]
    and [action.getAdjustedCost(action.createContext())], a whole number. *)
Variable isSmuggle : Action → bool.
Variable isPlayCardAbility : Action → bool.
Variable cost : Action → Z.

(** [cost < cheapestAmount], where no amount yet is [Infinity]. *)
Definition below (c : Z) (cheapestAmount : option Z) : bool :=
  match cheapestAmount with
  | None => true
  | Some amount => c <? amount
  end.

(** The loop.  [None] is a failed [Contract.assertTrue]: what happens then
    is up to Contract, which is not among the sources. *)
Fixpoint cheapestLoop (smuggleActions : list Action) (cheapestSmuggle : option Action)
    (cheapestAmount : option Z) : option (option Action) :=
  match smuggleActions with
  | [] => Some cheapestSmuggle
  | smuggleAction :: rest =>
      if negb (isPlayCardAbility smuggleAction) then None
      else if below (cost smuggleAction) cheapestAmount
      then cheapestLoop rest (Some smuggleAction) (Some (cost smuggleAction))
      else cheapestLoop rest cheapestSmuggle cheapestAmount
  end.

(** [getCheapestSmuggle(smuggleActions)]: the action, or null. *)
Definition getCheapestSmuggle (smuggleActions : list Action) : option (option Action) :=
  let nonSmuggleActions := List.filter (fun action => negb (isSmuggle action)) smuggleActions in
  if negb (length nonSmuggleActions =? 0)%nat then None
  else
    match smuggleActions with
    | [] => Some None
    | [action] => Some (Some action)
    | _ => cheapestLoop smuggleActions None None
    end.

End Smuggle.

End KeywordHelpers.

(** ** AbilityResolver.js, what a resolution leaves behind *)

Module Resolution.
Import AbilityResolver.

Definition isFailureMessage (e : Effect) : bool :=
  match e with MessageAdded _ => true | _ => false end.

(** How often [game.addMessage] was called, and how often the ability's
    handler ran. *)
Definition messagesAdded (effects : list Effect) : nat :=
  length (List.filter isFailureMessage effects).

Definition handlerExecutions (effects : list Effect) : nat :=
  length (List.filter isHandlerExecution effects).

Definition isExecuteHandlerStep (s : Step) : bool :=
  match s with ExecuteHandler => true | _ => false end.

Definition isResolveTargetsStep (s : Step) : bool :=
  match s with ResolveTargets => true | _ => false end.

(** [executeHandler], or [resolveTargets], is among the steps waiting. *)
Definition handlerAhead (pipeline : list Step) : bool := existsb isExecuteHandlerStep pipeline.

Definition targetsAhead (pipeline : list Step) : bool := existsb isResolveTargetsStep pipeline.

(** What a resolution has been through once [executeHandler] is queued:
    the initiation event resolved; past [resolveTargets], a resolver that
    is not cancelled had legal targets; and [initiateAbility] was set
    directly, or by the event of an activated ability resolving. *)
Definition cleared (env : Environment) (pipeline : list Step) (r : Resolver) : Prop :=
  (handlerAhead pipeline = true →
     initiationEventResolves env = true
     ∧ (targetsAhead pipeline = false → cancelled r = false → hasLegalTargets env = true))
  ∧ (initiateAbility r = true →
     isActivatedAbility env = true → initiateCardAbilityEventResolves env = true).

End Resolution.

(** ** Further examples *)

Module MoreExamples.

Import GameSystem AbilityResolver.

(** A player with two ready resources, one exhausted and one whose flag
    was never set; card 10 is in hand, card 11 is a unit in the ground
    arena with upgrade 12. *)
Definition cardAt (c : CardId) : Card :=
  {| type := match c with 12%nat => Upgrade | _ => NonLeaderUnit end;
     location :=
       match c with
       | 10%nat => Hand
       | 11%nat | 12%nat => GroundArena
       | _ => Resource
       end;
     upgrades := match c with 11%nat => Some [12%nat] | _ => None end;
     parentCard := match c with 12%nat => Some 11%nat | _ => None end;
     owner := 0%nat;
     controller := 0%nat;
     uuid := String (Ascii.ascii_of_nat (65 + c)) EmptyString;
     exhausted :=
       match c with
       | 1%nat | 2%nat => Some false
       | 3%nat => Some true
       | _ => None
       end |}.

Definition piles : Piles :=
  {| hand := [10%nat]; drawDeck := [];
     resources := [1%nat; 2%nat; 3%nat; 4%nat];
     spaceArena := []; groundArena := [11%nat]; discard := [];
     removedFromGame := []; baseZone := []; leaderZone := [];
     additionalPiles := fun _ => None |}.

Definition table : State :=
  {| cards := cardAt;
     contexts := fun _ => {| Game.stage := None; Game.gameActionsResolutionChain := [];
                             Game.source := 11%nat |};
     hasRestriction := fun _ _ _ => false;
     players := fun _ => piles;
     objectPrototype := Examples.untouched;
     generation := fun _ => 0%nat;
     messages := [] |}.

(** An optional ability whose early target selection was cancelled without
    the pass button having been shown. *)
Definition cancelledTargeting : Targeting :=
  {| results := {| targetsCancelled := true; delayTargeting := false;
                   payCostsFirst := false |};
     passButtonShown := false; passButtonPressed := false |}.

Definition earlyCancelled (isOptional : bool) : Environment :=
  {| optional := isOptional; cannotTargetFirst := false; isCardAbility := true;
     isCardPlayed := false; isActivatedAbility := false; isEventAbility := false;
     hasLimit := false; sourceLocation := GroundArena; cardStateWhenInitiated := None;
     earlyTargets := cancelledTargeting;
     resolveCostsResult := fun c => c;
     resolutionEventCancelled := fun _ => false;
     hasLegalTargets := true; checkAllTargets := true;
     remainingTargets := Examples.quietTargeting; retargeted := Examples.quietTargeting;
     playerPasses := false;
     initiationEventResolves := true;
     initiateCardAbilityEventResolves := true |}.

End MoreExamples.

(** * Properties *)

(** ** Cost adjustment *)

Section CostFacts.

Context {Card Target PlayType Aspect Zones : Type} `{EqDecision Aspect}.
Implicit Types (s : @Player.PlayerState Card Target PlayType Aspect Zones).
Implicit Types (matching : list (@Player.CostAdjuster Card Target PlayType Aspect Zones)).

Import Player.

Lemma fold_left_increases s (card : Card) matching (acc : Z) :
  fold_left (fun cost adjuster => cost - amount s card adjuster) matching acc
  = acc + sumOf (map (fun a => - amount s card a) matching).
Proof.
  revert acc. induction matching as [|a l IH]; intros acc; simpl.
  - lia.
  - rewrite IH. lia.
Qed.

Lemma fold_left_decreases s (card : Card) matching (acc : Z) :
  fold_left (fun cost adjuster => cost + amount s card adjuster) matching acc
  = acc + sumOf (map (amount s card) matching).
Proof.
  revert acc. induction matching as [|a l IH]; intros acc; simpl.
  - lia.
  - rewrite IH. lia.
Qed.

Lemma maxOf_from (xs : list Z) (acc : JsNum.num) :
  JsNum.le acc (fold_left (fun acc x => JsNum.max acc (JsNum.Finite x)) xs acc)
  ∧ ∀ x, In x xs →
      JsNum.le (JsNum.Finite x) (fold_left (fun acc x => JsNum.max acc (JsNum.Finite x)) xs acc).
Proof.
  revert acc. induction xs as [|y xs IH]; intros acc; simpl.
  - split; [destruct acc; simpl; lia | tauto].
  - destruct (IH (JsNum.max acc (JsNum.Finite y))) as [Hacc Hin].
    set (m := fold_left _ xs _) in *.
    split.
    + destruct acc, m; simpl in *; try lia; auto.
    + intros x [->|Hx]; [|by apply Hin].
      destruct acc, m; simpl in *; try lia; auto.
Qed.

Lemma maxOf_upper (xs : list Z) (x : Z) :
  In x xs → JsNum.le (JsNum.Finite x) (JsNum.maxOf xs).
Proof. intros Hx. by apply maxOf_from. Qed.

Lemma increasesOf_nonneg s (card : Card) matching : 0 <= increasesOf s card matching.
Proof.
  unfold increasesOf. induction matching as [|a l IH]; simpl; [lia|].
  destruct (amount s card a <? 0) eqn:E; simpl; [|done].
  apply Z.ltb_lt in E. lia.
Qed.

Lemma decreasesOf_nonneg s (card : Card) matching : 0 <= decreasesOf s card matching.
Proof.
  unfold decreasesOf. induction matching as [|a l IH]; simpl; [lia|].
  destruct (0 <? amount s card a) eqn:E; simpl; [|done].
  apply Z.ltb_lt in E. lia.
Qed.

(** C3. One pass of [runAdjustersForCostType] from the base cost [C0]: with
    [C] the base plus the summed increases of the matching adjusters, the
    returned cost is [max (C - decreases) (min C F)], [F] being the highest
    floor among the matching adjusters ([-Infinity] when none matches); it
    is a finite number between [C - decreases] and [C], it is not below
    [min C f] for the floor [f] of any matching adjuster, and the pass
    leaves the player's state as it was. *)
Theorem runAdjustersForCostType_floor s (playingType : PlayType) (C0 : Z) (card : Card)
    (target : option Target) (ignoreType : bool) (penaltyAspect : option Aspect) :
  let matching := matchingAdjusters s playingType card target ignoreType penaltyAspect in
  let C := C0 + increasesOf s card matching in
  let result :=
    runAdjustersForCostType playingType (JsNum.Finite C0) card target ignoreType penaltyAspect s in
  result.1 = JsNum.max (JsNum.Finite (C - decreasesOf s card matching))
                       (JsNum.min (JsNum.Finite C) (highestFloor matching))
  ∧ result.1 = clampedCost s C0 card matching
  ∧ (∃ z, result.1 = JsNum.Finite z ∧ C - decreasesOf s card matching <= z <= C)
  ∧ (∀ a, In a matching → JsNum.le (JsNum.Finite (Z.min C (costFloor a))) result.1)
  ∧ (matching = [] → result.1 = JsNum.Finite C0)
  ∧ result.2 = s.
Proof.
  intros matching C result.
  assert (Hres : result.1 = JsNum.max (JsNum.Finite (C - decreasesOf s card matching))
                    (JsNum.min (JsNum.Finite C) (highestFloor matching))).
  { subst result C. unfold runAdjustersForCostType, bind, gets, ret. simpl.
    fold matching. rewrite fold_left_increases, fold_left_decreases.
    unfold increasesOf, decreasesOf, highestFloor. simpl.
    do 3 f_equal; lia. }
  pose proof (decreasesOf_nonneg s card matching) as Hdec.
  split; [exact Hres|]. split; [exact Hres|]. split; [|split; [|split]].
  - rewrite Hres. destruct (highestFloor matching) as [|f]; simpl.
    + eexists; split; [reflexivity|lia].
    + eexists; split; [reflexivity|lia].
  - intros a Ha. rewrite Hres.
    assert (Hf : JsNum.le (JsNum.Finite (costFloor a)) (highestFloor matching)).
    { apply maxOf_upper. by apply in_map. }
    destruct (highestFloor matching) as [|f]; simpl in *; [done|lia].
  - intros Hnil. rewrite Hres. subst C. rewrite Hnil. simpl. f_equal.
    unfold increasesOf, decreasesOf. simpl. lia.
  - reflexivity.
Qed.

End CostFacts.

Section CostIdempotence.

Context {Card Target PlayType Aspect Zones : Type} `{EqDecision Aspect}.
Variable cardCost : Card → Z.
Implicit Types (s : @Player.PlayerState Card Target PlayType Aspect Zones).

Import Player.

Lemma sameExcept_refl r s : sameExcept r s s.
Proof. by repeat split. Qed.

Lemma sameExcept_trans r s1 s2 s3 :
  sameExcept r s1 s2 → sameExcept r s2 s3 → sameExcept r s1 s3.
Proof.
  intros (A1 & Z1 & L1 & B1 & K1) (A2 & Z2 & L2 & B2 & K2). repeat split; try congruence.
  intros k Hk. rewrite K2, K1; done.
Qed.

(** A pass reads the adjusters and the zones and changes nothing. *)
Lemma runAdjustersForCostType_reads (playingType : PlayType) baseCost (card : Card)
    (target : option Target) ignoreType (penaltyAspect : option Aspect) s s' :
  costAdjusters s' = costAdjusters s → zones s' = zones s →
  (runAdjustersForCostType playingType baseCost card target ignoreType penaltyAspect s').1
  = (runAdjustersForCostType playingType baseCost card target ignoreType penaltyAspect s).1
  ∧ (runAdjustersForCostType playingType baseCost card target ignoreType penaltyAspect s).2 = s.
Proof.
  intros Hadj Hzones.
  unfold runAdjustersForCostType, bind, gets, ret, matchingAdjusters, amount. simpl.
  rewrite Hadj, Hzones. done.
Qed.

Lemma aspectPenaltiesLoop_reads (playingType : PlayType) (card : Card)
    (target : option Target) ignoreType (penaltyAspects : list Aspect) total s s' :
  costAdjusters s' = costAdjusters s → zones s' = zones s →
  (aspectPenaltiesLoop playingType card target ignoreType penaltyAspects total s').1
  = (aspectPenaltiesLoop playingType card target ignoreType penaltyAspects total s).1
  ∧ (aspectPenaltiesLoop playingType card target ignoreType penaltyAspects total s).2 = s.
Proof.
  intros Hadj Hzones. revert total.
  induction penaltyAspects as [|aspect rest IH]; intros total; simpl; [done|].
  unfold bind.
  destruct (runAdjustersForCostType_reads playingType (JsNum.Finite 2) card target
              ignoreType (Some aspect) s s' Hadj Hzones) as [Hv Hs].
  destruct (runAdjustersForCostType playingType (JsNum.Finite 2) card target ignoreType
              (Some aspect) s) as [v t] eqn:E.
  destruct (runAdjustersForCostType playingType (JsNum.Finite 2) card target ignoreType
              (Some aspect) s') as [v' t'] eqn:E'.
  simpl in *. subst t v'.
  assert (t' = s') as ->.
  { pose proof (runAdjustersForCostType_reads playingType (JsNum.Finite 2) card target
                  ignoreType (Some aspect) s' s' eq_refl eq_refl) as [_ Hs'].
    by rewrite E' in Hs'. }
  apply IH.
Qed.

Lemma penaltyLoop_spec (r : ref) (costAspects penaltyAspects current : list Aspect) s :
  arrays s !! r = Some current →
  (penaltyLoop r costAspects penaltyAspects s).1 = penaltiesOf current costAspects penaltyAspects
  ∧ sameExcept r s (penaltyLoop r costAspects penaltyAspects s).2.
Proof.
  revert penaltyAspects current s.
  induction costAspects as [|aspect rest IH]; intros penaltyAspects current s Hr; simpl.
  - split; [done | apply sameExcept_refl].
  - unfold bind, readArray, gets. rewrite Hr. simpl.
    destruct (indexOf aspect current) as [matchedIndex|].
    + set (s1 := {| arrays := alter (delete matchedIndex) r (arrays s);
                    leaderAspects := leaderAspects s;
                    baseAspects := baseAspects s;
                    costAdjusters := costAdjusters s;
                    zones := zones s |}).
      assert (H1 : arrays s1 !! r = Some (delete matchedIndex current)).
      { subst s1. simpl. rewrite lookup_alter_eq, Hr. done. }
      destruct (IH penaltyAspects _ s1 H1) as [Hv Hs]. split; [exact Hv|].
      eapply sameExcept_trans; [|exact Hs].
      repeat split. intros k Hk. subst s1. simpl. by rewrite lookup_alter_ne.
    + apply IH. exact Hr.
Qed.

Lemma getPenaltyAspects_spec (aspects : option (list Aspect)) s :
  allocated s →
  (getPenaltyAspects aspects s).1
  = match aspects with
    | None => []
    | Some costAspects =>
        penaltiesOf (default [] (arrays s !! leaderAspects s)
                     ++ default [] (arrays s !! baseAspects s)) costAspects []
    end
  ∧ sameOwnState s (getPenaltyAspects aspects s).2.
Proof.
  intros [Hl Hb]. destruct aspects as [costAspects|]; simpl.
  - unfold bind at 1. unfold getAspects, bind, gets, readArray, newArray. simpl.
    set (r := fresh (dom (arrays s))).
    set (both := default [] (arrays s !! leaderAspects s)
                 ++ default [] (arrays s !! baseAspects s)).
    set (s1 := {| arrays := <[r := both]> (arrays s); leaderAspects := leaderAspects s;
                  baseAspects := baseAspects s; costAdjusters := costAdjusters s;
                  zones := zones s |}).
    assert (Hfresh : r ∉ dom (arrays s)) by apply is_fresh.
    assert (Hrl : leaderAspects s ≠ r).
    { intros Heq. apply Hfresh. rewrite <- Heq. by apply elem_of_dom. }
    assert (Hrb : baseAspects s ≠ r).
    { intros Heq. apply Hfresh. rewrite <- Heq. by apply elem_of_dom. }
    assert (H1 : arrays s1 !! r = Some both).
    { subst s1. simpl. by rewrite lookup_insert_eq. }
    destruct (penaltyLoop_spec r costAspects [] both s1 H1) as [Hv (A & Z & L & B & K)].
    split; [exact Hv|].
    repeat split; try done.
    + rewrite K by done. subst s1. simpl. by rewrite lookup_insert_ne.
    + rewrite K by done. subst s1. simpl. by rewrite lookup_insert_ne.
  - unfold ret. simpl. by repeat split.
Qed.

Lemma sameOwnState_allocated s s' : allocated s → sameOwnState s s' → allocated s'.
Proof.
  intros [Hl Hb] (A & Z & L & B & Kl & Kb). split.
  - rewrite L, Kl. done.
  - rewrite B, Kb. done.
Qed.

Lemma getAdjustedCost_reads (playingType : PlayType) (card : Card) (target : option Target)
    ignoreType (aspects : option (list Aspect)) s s' :
  allocated s → sameOwnState s s' →
  (getAdjustedCost cardCost playingType card target ignoreType aspects s').1
  = (getAdjustedCost cardCost playingType card target ignoreType aspects s).1
  ∧ sameOwnState s (getAdjustedCost cardCost playingType card target ignoreType aspects s).2.
Proof.
  intros Hs Hsame.
  pose proof (sameOwnState_allocated s s' Hs Hsame) as Hs'.
  destruct (getPenaltyAspects_spec aspects s Hs) as [Hp Hq].
  destruct (getPenaltyAspects_spec aspects s' Hs') as [Hp' Hq'].
  assert (Hsamep : (getPenaltyAspects aspects s').1 = (getPenaltyAspects aspects s).1).
  { rewrite Hp, Hp'. destruct Hsame as (A & Z & L & B & Kl & Kb).
    destruct aspects; [|done]. by rewrite L, B, Kl, Kb. }
  unfold getAdjustedCost, bind.
  destruct (getPenaltyAspects aspects s) as [p t] eqn:E.
  destruct (getPenaltyAspects aspects s') as [p' t'] eqn:E'.
  simpl in Hsamep, Hq, Hq'. subst p'.
  assert (Hadj : costAdjusters t' = costAdjusters t).
  { destruct Hq as (A & _), Hq' as (A' & _), Hsame as (A0 & _). congruence. }
  assert (Hzones : zones t' = zones t).
  { destruct Hq as (_ & Z & _), Hq' as (_ & Z' & _), Hsame as (_ & Z0 & _). congruence. }
  destruct (aspectPenaltiesLoop_reads playingType card target ignoreType p (JsNum.Finite 0)
              t t' Hadj Hzones) as [Hv Ht].
  pose proof (aspectPenaltiesLoop_reads playingType card target ignoreType p (JsNum.Finite 0)
              t' t' eq_refl eq_refl) as [_ Ht'].
  destruct (aspectPenaltiesLoop playingType card target ignoreType p (JsNum.Finite 0) t)
    as [v u] eqn:F.
  destruct (aspectPenaltiesLoop playingType card target ignoreType p (JsNum.Finite 0) t')
    as [v' u'] eqn:F'.
  simpl in Hv, Ht, Ht'. subst u u' v'. cbv beta iota.
  destruct (runAdjustersForCostType_reads playingType
              (JsNum.add (JsNum.Finite (cardCost card)) v) card target ignoreType None
              t t' Hadj Hzones) as [Hr Hrs].
  split; [exact Hr|]. rewrite Hrs. exact Hq.
Qed.

Lemma sameOwnState_refl s : sameOwnState s s.
Proof. by repeat split. Qed.

Lemma sameOwnState_trans s1 s2 s3 :
  sameOwnState s1 s2 → sameOwnState s2 s3 → sameOwnState s1 s3.
Proof.
  intros (A1 & Z1 & L1 & B1 & Kl1 & Kb1) (A2 & Z2 & L2 & B2 & Kl2 & Kb2).
  rewrite L1 in Kl2. rewrite B1 in Kb2.
  repeat split; congruence.
Qed.

(** C10. Two calls of [getAdjustedCost] with the same playing type, card,
    target and aspects, one after the other and with nothing in between,
    return the same cost; after each of them the registered adjusters, the
    zones and the leader's and base's aspect arrays are what they were (the
    one array the computation splices is the copy it made itself). *)
Theorem getAdjustedCost_idempotent (playingType : PlayType) (card : Card)
    (target : option Target) (ignoreType : bool) (aspects : option (list Aspect)) s :
  allocated s →
  let first := getAdjustedCost cardCost playingType card target ignoreType aspects s in
  let second := getAdjustedCost cardCost playingType card target ignoreType aspects first.2 in
  second.1 = first.1 ∧ sameOwnState s first.2 ∧ sameOwnState s second.2.
Proof.
  intros Hs first second.
  destruct (getAdjustedCost_reads playingType card target ignoreType aspects s s Hs
              (sameOwnState_refl s)) as [_ H1].
  fold first in H1.
  destruct (getAdjustedCost_reads playingType card target ignoreType aspects s first.2 Hs H1)
    as [Hv _].
  pose proof (sameOwnState_allocated _ _ Hs H1) as Hs1.
  destruct (getAdjustedCost_reads playingType card target ignoreType aspects first.2 first.2
              Hs1 (sameOwnState_refl _)) as [_ H2].
  fold second in H2.
  split; [exact Hv|]. split; [exact H1|].
  eapply sameOwnState_trans; eauto.
Qed.

End CostIdempotence.

(** ** Target legality *)

Section SystemFacts.

Import GameSystem EventGeneration.

Implicit Types (this : System) (g : State) (target : PlayerOrCard) (context : CtxId).
Implicit Types (additionalProperties : Properties).

(** C4. [canAffect(target, context)] is true exactly when the target's type
    passes the system's type filter, the system is not in the context's
    resolution chain, and either the stage is EffectTmp with the system's
    [cannotBeCancelled] property true, or the target has no restriction
    naming this system. *)
Theorem canAffect_iff this g target context additionalProperties :
  canAffect this g target context additionalProperties = true ↔
    isTargetTypeValid this g target = true
    ∧ (identity this ∉ gameActionsResolutionChain (contexts g context))
    ∧ ((stage (contexts g context) = Some EffectTmp
        ∧ (cannotBeCancelled
             (generated (generatePropertiesFromContext this g context additionalProperties))
           = Some true))
       ∨ hasRestriction g target (systemName this) context = false).
Proof.
  unfold canAffect, inResolutionChain, truthy.
  rewrite !andb_true_iff, orb_true_iff, andb_true_iff, !negb_true_iff.
  rewrite bool_decide_eq_false, bool_decide_eq_true.
  destruct (cannotBeCancelled _) as [[|]|]; simpl; intuition congruence.
Qed.

Lemma hasLegalTargetLoop_exists this g context additionalProperties candidates :
  hasLegalTargetLoop this g context additionalProperties candidates = true ↔
  ∃ t, In t candidates ∧ canAffect this g t context additionalProperties = true.
Proof.
  induction candidates as [|c rest IH]; simpl.
  - split; [done | by intros (? & [] & _)].
  - destruct (canAffect this g c context additionalProperties) eqn:E.
    + split; [|done]. intros _. exists c. auto.
    + rewrite IH. split.
      * intros (t & Ht & Hc). exists t. auto.
      * intros (t & [->|Ht] & Hc); [congruence|]. exists t. auto.
Qed.

Lemma allTargetsLegalLoop_forall this g context additionalProperties candidates :
  allTargetsLegalLoop this g context additionalProperties candidates = true ↔
  ∀ t, In t candidates → canAffect this g t context additionalProperties = true.
Proof.
  induction candidates as [|c rest IH]; simpl.
  - split; [by intros _ ? [] | done].
  - destruct (canAffect this g c context additionalProperties) eqn:E; simpl.
    + rewrite IH. split.
      * intros Hall t [->|Ht]; auto.
      * intros Hall t Ht. apply Hall. auto.
    + split; [done|]. intros Hall. rewrite <- E. apply Hall. auto.
Qed.

(** C8. [hasLegalTarget] is true exactly when some candidate of the
    resolved target list satisfies [canAffect], [allTargetsLegal] exactly
    when every candidate does; on an empty list the first is false and the
    second true. *)
Theorem legal_targets_quantify this g context additionalProperties :
  (hasLegalTarget this g context additionalProperties = true ↔
     ∃ t, In t (targetsOf this g context additionalProperties)
          ∧ canAffect this g t context additionalProperties = true)
  ∧ (allTargetsLegal this g context additionalProperties = true ↔
     ∀ t, In t (targetsOf this g context additionalProperties)
          → canAffect this g t context additionalProperties = true)
  ∧ (targetsOf this g context additionalProperties = [] →
     hasLegalTarget this g context additionalProperties = false
     ∧ allTargetsLegal this g context additionalProperties = true).
Proof.
  split; [apply hasLegalTargetLoop_exists|].
  split; [apply allTargetsLegalLoop_forall|].
  unfold hasLegalTarget, allTargetsLegal. intros ->. done.
Qed.

(** ** Events *)

Lemma generateEvent_data this g target context additionalProperties :
  GameEvent.condition (generateEvent this g target context additionalProperties)
    = GameEvent.SystemCondition this additionalProperties
  ∧ GameEvent.handler (generateEvent this g target context additionalProperties)
    = GameEvent.SystemHandler this additionalProperties
  ∧ GameEvent.checkFullyResolved (generateEvent this g target context additionalProperties)
    = GameEvent.SystemCheck this target context additionalProperties
  ∧ name (GameEvent.data (generateEvent this g target context additionalProperties))
    = eventName this
  ∧ GameSystem.context (GameEvent.data (generateEvent this g target context additionalProperties))
    = Some context
  ∧ cancelled (GameEvent.data (generateEvent this g target context additionalProperties))
    = false.
Proof.
  unfold generateEvent, updateEvent, addPropertiesToEvent, createEvent.
  destruct (variant this); simpl; done.
Qed.

Lemma generateEvent_card this g target context additionalProperties filter :
  variant this = CardTarget filter →
  card (GameEvent.data (generateEvent this g target context additionalProperties))
    = Some target.
Proof.
  intros Hv. unfold generateEvent, updateEvent, addPropertiesToEvent, createEvent.
  rewrite Hv. done.
Qed.

(** C2. The condition of an event made by [generateEvent] is the closure
    over [checkEventCondition]: run in the state [g'] in which the event is
    about to apply, it is [checkEventCondition] in [g'], whatever the state
    [g] of creation was.  For a card target system that is [canAffect] of
    the event's card and context in [g'].  So an event whose target is
    illegal in [g'] has a false condition there, and applying it leaves
    [g'] as it is without running the handler; with a legal target the
    handler runs. *)
Theorem event_condition_revalidates this g g' target context additionalProperties :
  let event := generateEvent this g target context additionalProperties in
  GameEvent.condition event = GameEvent.SystemCondition this additionalProperties
  ∧ evalCondition g' (GameEvent.data event) (GameEvent.condition event)
    = checkEventCondition this g' (GameEvent.data event) additionalProperties
  ∧ ∀ filter, variant this = CardTarget filter →
      checkEventCondition this g' (GameEvent.data event) additionalProperties
      = Some (canAffect this g' target context additionalProperties)
      ∧ (canAffect this g' target context additionalProperties = false →
         evalCondition g' (GameEvent.data event) (GameEvent.condition event) = Some false
         ∧ applyEvent g' event = (g', false))
      ∧ (canAffect this g' target context additionalProperties = true →
         applyEvent g' event
         = (eventHandler this (GameEvent.data event) additionalProperties g', true)).
Proof.
  intros event.
  destruct (generateEvent_data this g target context additionalProperties)
    as (Hc & Hh & _ & _ & Hctx & Hcan).
  fold event in Hc, Hh, Hctx, Hcan.
  assert (Heval : evalCondition g' (GameEvent.data event) (GameEvent.condition event)
                  = checkEventCondition this g' (GameEvent.data event) additionalProperties).
  { rewrite Hc. done. }
  split; [exact Hc|]. split; [exact Heval|].
  intros filter Hv.
  pose proof (generateEvent_card this g target context additionalProperties filter Hv) as Hcard.
  fold event in Hcard.
  assert (Hcheck : checkEventCondition this g' (GameEvent.data event) additionalProperties
                   = Some (canAffect this g' target context additionalProperties)).
  { unfold checkEventCondition. rewrite Hv, Hcard, Hctx. done. }
  split; [exact Hcheck|]. split.
  - intros Hillegal. split.
    + rewrite Heval, Hcheck. by f_equal.
    + unfold applyEvent. rewrite Hcan, Heval, Hcheck, Hillegal. done.
  - intros Hlegal. unfold applyEvent. rewrite Hcan, Heval, Hcheck, Hlegal, Hh. done.
Qed.

End SystemFacts.

(** ** The piles of a player and the movement of cards *)

Section ZoneFacts.

Import GameSystem Zones.

Implicit Types (g : State) (p : Piles) (card c : CardId) (slot : Slot).

Lemma assign_cards slot v g : cards (assign slot v g) = cards g.
Proof. by destruct slot. Qed.

Lemma assign_messages slot v g : messages (assign slot v g) = messages g.
Proof. by destruct slot. Qed.

Lemma getCardPile_cards this source g : cards (getCardPile this source g).2 = cards g.
Proof.
  destruct source as [[| | | | | | | | |name]|]; try done.
  simpl. case_bool_decide; [done|]. simpl. by destruct (lookupPile _ _ _).
Qed.

Lemma getCardPile_messages this source g :
  messages (getCardPile this source g).2 = messages g.
Proof.
  destruct source as [[| | | | | | | | |name]|]; try done.
  simpl. case_bool_decide; [done|]. simpl. by destruct (lookupPile _ _ _).
Qed.

Variable pileKey : list CardId → Location.

Lemma removeCardFromPile_controller this card g :
  removeCardFromPile pileKey this card g
  = removeFromOwnPile pileKey (controller (cards g card)) card g.
Proof.
  unfold removeCardFromPile. case_bool_decide as Hc; [done|].
  by rewrite Hc.
Qed.

Lemma removeFromOwnPile_cards holder card g :
  cards (removeFromOwnPile pileKey holder card g) = cards g
  ∧ messages (removeFromOwnPile pileKey holder card g) = messages g.
Proof.
  unfold removeFromOwnPile.
  pose proof (getCardPile_cards holder (Some (location (cards g card))) g) as Hc.
  pose proof (getCardPile_messages holder (Some (location (cards g card))) g) as Hm.
  destruct (getCardPile holder _ g) as [[pile|] g1]; cbn [fst snd] in *; [|done].
  split; [etrans; [|exact Hc] | etrans; [|exact Hm]];
    (destruct (location (cards g card)); rewrite ?assign_cards, ?assign_messages; try done;
     destruct (lookupPile holder (pileKey pile) g1);
     by rewrite ?assign_cards, ?assign_messages).
Qed.

Lemma removeCardFromPile_cards this card g :
  cards (removeCardFromPile pileKey this card g) = cards g.
Proof. rewrite removeCardFromPile_controller. apply removeFromOwnPile_cards. Qed.

Lemma removeCardFromPile_messages this card g :
  messages (removeCardFromPile pileKey this card g) = messages g.
Proof. rewrite removeCardFromPile_controller. apply removeFromOwnPile_cards. Qed.

(** What a field of a player holds after an assignment. *)
Lemma arrayAt_assign_field slot v g q z :
  isField z = true →
  arrayAt (Field q z) (assign slot v g)
  = if bool_decide (slot = Field q z) then Some v else arrayAt (Field q z) g.
Proof.
  intros Hz. destruct slot as [player zone|player name|name| |];
    [|rewrite bool_decide_eq_false_2 by done; destruct z; try done; simpl;
      by case_bool_decide; simplify_eq..].
  destruct (decide (player = q)) as [->|Hq].
  - destruct z, zone; try done; simpl; rewrite ?bool_decide_eq_true_2 by done;
      by rewrite ?bool_decide_eq_false_2.
  - rewrite (bool_decide_eq_false_2 (Field player zone = Field q z)) by congruence.
    destruct z, zone; try done; simpl; by rewrite bool_decide_eq_false_2.
Qed.


Lemma additionalPiles_assign slot v g q l :
  additionalPiles (players (assign slot v g) q) l
  = if bool_decide (slot = AdditionalPile q l) then Some v
    else additionalPiles (players g q) l.
Proof.
  destruct slot as [player zone|player name|name| |];
    [|idtac|by rewrite bool_decide_eq_false_2..].
  - rewrite bool_decide_eq_false_2 by done. simpl.
    case_bool_decide; [|done]. subst q. by destruct zone.
  - simpl. destruct (decide (q = player)) as [->|Hq].
    + rewrite bool_decide_eq_true_2 by done. simpl.
      destruct (decide (l = name)) as [->|Hl].
      * by rewrite !bool_decide_eq_true_2.
      * rewrite bool_decide_eq_false_2 by done.
        by rewrite bool_decide_eq_false_2 by congruence.
    + rewrite bool_decide_eq_false_2 by done.
      by rewrite bool_decide_eq_false_2 by congruence.
Qed.

Lemma lookupPile_field q z g :
  isField z = true →
  lookupPile q z g
  = match additionalPiles (players g q) z with Some _ => Some OwnPile | None => None end.
Proof. intros Hz. unfold lookupPile. by destruct z. Qed.

Lemma lookupPile_own q l g object :
  lookupPile q l g = Some object →
  ∀ slot v, slot = ownCards q l object →
    ∀ q' z, isField z = true → lookupPile q' z (assign slot v g) = lookupPile q' z g.
Proof.
  intros Hlook slot v -> q' z Hz. rewrite !lookupPile_field by done.
  rewrite additionalPiles_assign. case_bool_decide as Hslot; [|done].
  destruct object; try done. simpl in Hslot. injection Hslot as -> ->.
  by rewrite <- lookupPile_field.
Qed.

Lemma getCardPile_field this source g :
  (∀ q z, isField z = true →
     lookupPile q z (getCardPile this source g).2 = lookupPile q z g
     ∧ arrayAt (Field q z) (getCardPile this source g).2 = arrayAt (Field q z) g)
  ∧ (∀ zone, source = Some zone → isField zone = true →
       getCardPile this source g = (arrayAt (Field this zone) g, g)).
Proof.
  split.
  - intros q z Hz. destruct source as [[| | | | | | | | |name]|]; try done.
    unfold getCardPile. case_bool_decide; [done|]. cbn [snd].
    destruct (lookupPile this (OtherLocation name) g); [done|].
    unfold createAdditionalPile. rewrite arrayAt_assign_field by done.
    rewrite bool_decide_eq_false_2 by done. split; [|done].
    rewrite !lookupPile_field by done. rewrite additionalPiles_assign.
    rewrite bool_decide_eq_false_2; [done|]. intros [=]. subst z. done.
  - intros zone -> Hz. by destruct zone.
Qed.

Lemma default_write_field holder key v g q z :
  isField z = true →
  let g' := match lookupPile holder key g with
            | Some object => assign (ownCards holder key object) v g
            | None => g
            end in
  lookupPile q z g' = lookupPile q z g ∧ arrayAt (Field q z) g' = arrayAt (Field q z) g.
Proof.
  intros Hz. cbv zeta. destruct (lookupPile holder key g) as [object|] eqn:Hlook; [|done].
  split; [by eapply lookupPile_own|].
  rewrite arrayAt_assign_field by done. rewrite bool_decide_eq_false_2; [done|].
  by destruct object.
Qed.

(** The fields of the players after [removeCardFromPile]: one is
    filtered, the others are as they were. *)
Lemma removeFromOwnPile_field holder card g q z :
  isField z = true →
  lookupPile q z (removeFromOwnPile pileKey holder card g) = lookupPile q z g
  ∧ arrayAt (Field q z) (removeFromOwnPile pileKey holder card g)
    = if bool_decide (q = holder) && bool_decide (z = location (cards g card))
         && negb (bool_decide (z = Resource)) && negb (bool_decide (z = Base))
      then (λ pile, removeCardByUuid g pile (uuid (cards g card))) <$> arrayAt (Field q z) g
      else arrayAt (Field q z) g.
Proof.
  intros Hz. unfold removeFromOwnPile.
  destruct (getCardPile_field holder (Some (location (cards g card))) g) as [Hframe Hget].
  specialize (Hframe q z Hz). specialize (Hget _ eq_refl).
  pose proof (getCardPile_cards holder (Some (location (cards g card))) g) as Hcards.
  destruct (isField (location (cards g card))) eqn:Hloc.
  - rewrite Hget by done. clear Hframe Hget Hcards.
    destruct (arrayAt (Field holder (location (cards g card))) g) as [pile|] eqn:Hpile.
    2:{ by destruct (location (cards g card)). }
    destruct (location (cards g card)) eqn:Eloc; try done;
      try (rewrite arrayAt_assign_field by done; rewrite !lookupPile_field by done;
           rewrite additionalPiles_assign; rewrite (bool_decide_eq_false_2 (Field _ _ = AdditionalPile _ _)) by done;
           split; [done|];
           destruct (decide (q = holder)) as [->|Hq];
           [|rewrite bool_decide_eq_false_2 by congruence;
             by rewrite (bool_decide_eq_false_2 (q = holder))];
           rewrite (bool_decide_eq_true_2 (holder = holder)) by done;
           destruct z; try done;
           rewrite ?(bool_decide_eq_false_2 (Field _ _ = Field _ _)) by congruence;
           rewrite ?(bool_decide_eq_true_2 (Field _ _ = Field _ _)) by done;
           rewrite ?Hpile; done).
    all: destruct (default_write_field holder (pileKey pile)
                     (removeCardByUuid g pile (uuid (cards g card))) g q z Hz) as [Hl Ha];
      split; [exact Hl|]; rewrite Ha;
      by destruct (bool_decide (q = holder)), (bool_decide (z = Resource)),
           (bool_decide (z = Base)) eqn:E.
  - clear Hget. destruct (location (cards g card)) as [| | | | | | | | |name]; try done.
    rewrite (bool_decide_eq_false_2 (z = OtherLocation name)) by (by intros ->).
    rewrite andb_false_r. cbn [andb].
    destruct (getCardPile holder (Some (OtherLocation name)) g) as [[pile|] g1];
      cbn [fst snd] in *; [|done].
    destruct Hframe as [Hl1 Ha1].
    destruct (default_write_field holder (pileKey pile)
                (removeCardByUuid g1 pile (uuid (cards g1 card))) g1 q z Hz) as [Hl Ha].
    by rewrite Hl, Ha.
Qed.

Lemma removeCardFromPile_field this card g q z :
  isField z = true →
  lookupPile q z (removeCardFromPile pileKey this card g) = lookupPile q z g
  ∧ ∀ pile, arrayAt (Field q z) (removeCardFromPile pileKey this card g) = Some pile →
      ∃ before, arrayAt (Field q z) g = Some before ∧ ∀ x, x ∈ pile → x ∈ before.
Proof.
  intros Hz. rewrite removeCardFromPile_controller.
  destruct (removeFromOwnPile_field (controller (cards g card)) card g q z Hz) as [Hl Ha].
  split; [exact Hl|]. intros pile. rewrite Ha.
  destruct (_ && _ && _ && _).
  - destruct (arrayAt (Field q z) g) as [before|]; [|done].
    intros [= <-]. exists before. split; [done|].
    intros x Hx. unfold removeCardByUuid in Hx. apply list_elem_of_In in Hx.
    apply filter_In in Hx as [Hx _]. by apply list_elem_of_In.
  - intros ->. by exists pile.
Qed.

Lemma arrayAt_store_field slot v g q z :
  isField z = true →
  arrayAt (Field q z) (store slot v g)
  = if bool_decide (slot = Field q z) then Some v else arrayAt (Field q z) g.
Proof.
  intros Hz. destruct slot as [player zone|player name|name| |];
    [|rewrite bool_decide_eq_false_2 by done; destruct z; try done; simpl;
      by case_bool_decide; simplify_eq..].
  destruct (decide (player = q)) as [->|Hq].
  - destruct z, zone; try done; simpl; rewrite ?bool_decide_eq_true_2 by done;
      by rewrite ?bool_decide_eq_false_2.
  - rewrite (bool_decide_eq_false_2 (Field player zone = Field q z)) by congruence.
    destruct z, zone; try done; simpl; by rewrite bool_decide_eq_false_2.
Qed.

Variable defaultLegalLocationsForCardType : CardType → option (list LocationFilter).
Variable runtime : Runtime.

Lemma isLegalLocationForCardType_field g g' q cardType z :
  lookupPile q z g' = lookupPile q z g →
  isLegalLocationForCardType defaultLegalLocationsForCardType g' q cardType (Some z)
  = isLegalLocationForCardType defaultLegalLocationsForCardType g q cardType (Some z).
Proof. intros Hl. unfold isLegalLocationForCardType. simpl. by rewrite Hl. Qed.

Lemma place_field c z options this rest g :
  isField z = true →
  arrayAt (Field this z) g = Some rest →
  let g' := place runtime c z options (Some (Field this z, generation g (Field this z))) g in
  arrayAt (Field this z) g' = Some (placed c z options rest)
  ∧ (∀ q z', isField z' = true → Field q z' ≠ Field this z →
       arrayAt (Field q z') g' = arrayAt (Field q z') g)
  ∧ messages g' = messages g
  ∧ cards g' c = moveTo runtime z (cards g c)
  ∧ (∀ x, x ≠ c → cards g' x = cards g x).
Proof.
  intros Hz Hrest. cbv zeta. unfold place, placed, changeInPlace.
  rewrite Nat.eqb_refl, Hrest.
  assert (Hstore : ∀ v,
    let g' := updateCard c (moveTo runtime z) (store (Field this z) v g) in
    arrayAt (Field this z) g' = Some v
    ∧ (∀ q z', isField z' = true → Field q z' ≠ Field this z →
         arrayAt (Field q z') g' = arrayAt (Field q z') g)
    ∧ messages g' = messages g
    ∧ cards g' c = moveTo runtime z (cards g c)
    ∧ (∀ x, x ≠ c → cards g' x = cards g x)).
  { intros v. cbv zeta. split; [|split; [|split; [|split]]].
    - change (arrayAt (Field this z) (store (Field this z) v g) = Some v).
      rewrite arrayAt_store_field by done. by rewrite bool_decide_eq_true_2.
    - intros q z' Hz' Hne.
      change (arrayAt (Field q z') (store (Field this z) v g) = arrayAt (Field q z') g).
      rewrite arrayAt_store_field by done. by rewrite bool_decide_eq_false_2.
    - by destruct z.
    - destruct z; simpl; by rewrite !bool_decide_eq_true_2.
    - intros x Hx. destruct z; simpl; by rewrite !bool_decide_eq_false_2. }
  destruct (bool_decide (z = Deck) && negb (bottom options)); [apply Hstore|].
  destruct (bool_decide (z = Discard) || bool_decide (z = RemovedFromGame)); apply Hstore.
Qed.

Lemma updateCard_same c (f : Card → Card) g : cards (updateCard c f g) c = f (cards g c).
Proof. simpl. by rewrite bool_decide_eq_true_2. Qed.

Lemma updateCard_other c (f : Card → Card) g x :
  x ≠ c → cards (updateCard c f g) x = cards g x.
Proof. intros Hx. simpl. by rewrite bool_decide_eq_false_2. Qed.

(** [moveCard] to a field of the card's owner: the call returns when the
    zone is legal, the card is not in the field already and, for a unit
    that leaves an arena, no upgrade is left on it. *)
Lemma moveCard_to_field this c z options g :
  isField z = true →
  (1 ≤ callDepth runtime)%nat →
  bottomOf runtime z = None →
  owner (cards g c) = this →
  isLegalLocationForCardType defaultLegalLocationsForCardType g this (type (cards g c))
    (Some z) = true →
  (∀ pile, arrayAt (Field this z) g = Some pile → c ∉ pile) →
  (EnumHelpers.isArena (Loc (location (cards g c))) = true →
   isUnit runtime (cards g c) = true → upgrades (cards g c) = Some []) →
  ∃ g2,
    moveCard defaultLegalLocationsForCardType pileKey runtime this c z options g = Some g2
    ∧ movedToField pileKey runtime this c z options g g2.
Proof.
  intros Hz Hdepth Hbottom Howner Hlegal Hfresh Hupgrades.
  unfold movedToField. set (g1 := removeCardFromPile pileKey this c g).
  destruct (removeCardFromPile_field this c g this z Hz) as [Hlook Hpile].
  fold g1 in Hlook, Hpile.
  assert (Hcards : cards g1 = cards g) by apply removeCardFromPile_cards.
  assert (Hmessages : messages g1 = messages g) by apply removeCardFromPile_messages.
  assert (Hrest : ∃ rest, arrayAt (Field this z) g1 = Some rest)
    by (destruct z; try done; by eexists).
  destruct Hrest as [rest Hrest].
  assert (Hnotin : c ∉ rest).
  { destruct (Hpile rest Hrest) as (before & Hbefore & Hsub).
    intros Hin. by apply (Hfresh before Hbefore), Hsub. }
  unfold moveCard. destruct (callDepth runtime) as [|depth]; [lia|].
  cbn [moveCardWithin]. fold g1. rewrite Hbottom.
  destruct (getCardPile_field this (Some z) g1) as [_ Hget].
  rewrite (Hget z eq_refl Hz). rewrite Hrest.
  assert (Hslot : pileOf this z g1 = Some (Field this z)) by (by destruct z).
  rewrite Hslot. unfold hold. cbn [mbind option_bind]. rewrite Hrest. cbn [mbind option_bind].
  rewrite (isLegalLocationForCardType_field g g1 this _ z Hlook).
  rewrite Hcards, Hlegal. rewrite (bool_decide_eq_false_2 (c ∈ rest)) by done.
  cbn [negb orb]. rewrite Howner. rewrite (bool_decide_eq_true_2 (this = this)) by done.
  cbn [negb].
  destruct (EnumHelpers.isArena (Loc (location (cards g c)))) eqn:Harena.
  - assert (Hloop : (if isUnit runtime (cards g c)
                     then attached ← upgrades (cards g c);
                          fold_left
                            (λ moved upgrade,
                               g0 ← moved;
                               moveCardWithin defaultLegalLocationsForCardType pileKey runtime
                                 depth (owner (cards g0 upgrade)) upgrade Discard
                                 {| bottom := false |} g0)
                            attached (Some g1)
                     else Some g1) = Some g1).
    { destruct (isUnit runtime (cards g c)) eqn:Hunit; [|done].
      by rewrite (Hupgrades eq_refl eq_refl). }
    rewrite Hloop. cbn [mbind option_bind].
    destruct (place_field c z options this rest (updateCard c (withController this) g1)
                Hz Hrest) as (Hp1 & Hp2 & Hp3 & Hp4 & Hp5).
    rewrite updateCard_same in Hp4.
    eexists. split; [done|]. eexists rest, _. split; [done|]. split; [exact Hp1|].
    split; [exact Hp2|]. split; [exact Hp4|]. split; [done|].
    split; [|exact (eq_trans Hp3 Hmessages)].
    intros x Hx. etrans; [by apply Hp5|]. by rewrite updateCard_other, Hcards.
  - destruct (EnumHelpers.isArena (Loc z)).
    + destruct (place_field c z options this rest
                  (updateCard c (withController this)
                     (updateCard c (setDefaultController runtime this) g1))
                  Hz Hrest) as (Hp1 & Hp2 & Hp3 & Hp4 & Hp5).
      rewrite !updateCard_same in Hp4.
      eexists. split; [done|]. eexists rest, _. split; [done|]. split; [exact Hp1|].
      split; [exact Hp2|]. split; [exact Hp4|]. split; [done|].
      split; [|exact (eq_trans Hp3 Hmessages)].
      intros x Hx. etrans; [by apply Hp5|]. by rewrite !updateCard_other, Hcards.
    + destruct (place_field c z options this rest (updateCard c (withController this) g1)
                  Hz Hrest) as (Hp1 & Hp2 & Hp3 & Hp4 & Hp5).
      rewrite updateCard_same in Hp4.
      eexists. split; [done|]. eexists rest, _. split; [done|]. split; [exact Hp1|].
      split; [exact Hp2|]. split; [exact Hp4|]. split; [done|].
      split; [|exact (eq_trans Hp3 Hmessages)].
      intros x Hx. etrans; [by apply Hp5|]. by rewrite updateCard_other, Hcards.
Qed.

(** [moveCard] to a field that is not legal for the card's type does not
    return. *)
Lemma moveCard_illegal_field this c z options g :
  isField z = true →
  bottomOf runtime z = None →
  isLegalLocationForCardType defaultLegalLocationsForCardType g this (type (cards g c))
    (Some z) = false →
  moveCard defaultLegalLocationsForCardType pileKey runtime this c z options g = None.
Proof.
  intros Hz Hbottom Hlegal.
  unfold moveCard. destruct (callDepth runtime) as [|depth]; [done|].
  cbn [moveCardWithin]. set (g1 := removeCardFromPile pileKey this c g).
  destruct (removeCardFromPile_field this c g this z Hz) as [Hlook _]. fold g1 in Hlook.
  assert (Hcards : cards g1 = cards g) by apply removeCardFromPile_cards.
  rewrite Hbottom.
  destruct (getCardPile_field this (Some z) g1) as [_ Hget].
  rewrite (Hget z eq_refl Hz).
  rewrite (isLegalLocationForCardType_field g g1 this _ z Hlook).
  by rewrite Hcards, Hlegal.
Qed.

End ZoneFacts.

(** ** Cards leaving play *)

Section LeavesPlayFacts.

Import GameSystem EventGeneration CardTargetSystem Zones.

Variable defeat : System.
Variable getFrameworkContext : State → CtxId.
Variable defaultLegalLocationsForCardType : CardType → option (list LocationFilter).
Variable pileKey : list CardId → Location.
Variable runtime : Runtime.

Lemma addLeavesPlayPropertiesToEvent_data this g event c ctx additionalProperties filter :
  variant this = CardTarget filter →
  let primary := addLeavesPlayPropertiesToEvent this g event (ACard c) ctx additionalProperties in
  GameEvent.createContingentEvents primary = GameEvent.DefeatAttachedUpgrades
  ∧ card (GameEvent.data primary) = Some (ACard c)
  ∧ order (GameEvent.data primary) = order (GameEvent.data event)
  ∧ eventDestination (GameEvent.data primary)
    = Some (default Discard
              (destination (generated
                 (generatePropertiesFromContext this g ctx additionalProperties)))).
Proof.
  intros Hv. unfold addLeavesPlayPropertiesToEvent, updateEvent, addPropertiesToEvent.
  rewrite Hv. done.
Qed.

Lemma attachmentEventFor_data g event upgrade :
  let e := attachmentEventFor defeat getFrameworkContext g event upgrade in
  GameEvent.checkFullyResolved e
    = GameEvent.SystemCheck defeat (ACard upgrade) (getFrameworkContext g) noProperties
  ∧ name (GameEvent.data e) = eventName defeat
  ∧ order (GameEvent.data e) = order event - 1
  ∧ isContingent (GameEvent.data e) = true
  ∧ GameEvent.condition e
    = GameEvent.AttachedCondition (GameEvent.SystemCondition defeat noProperties)
        upgrade (card event).
Proof.
  unfold attachmentEventFor, generateEvent, updateEvent, addPropertiesToEvent, createEvent.
  destruct (variant defeat); done.
Qed.

(** C6. For a leaves-play event on a card, [createContingentEvents] gives
    one event of the defeat system for each upgrade of the card that is in
    an arena when it is called, in the order of the upgrades and no other;
    each has the primary event's order minus one as its order, which is
    less than the primary's. *)
Theorem contingent_events_for_upgrades this g g' event c ctx additionalProperties filter :
  variant this = CardTarget filter →
  let primary := addLeavesPlayPropertiesToEvent this g event (ACard c) ctx additionalProperties in
  ∃ contingent,
    createContingentEvents defeat getFrameworkContext g' primary = Some contingent
    ∧ Forall2
        (fun e upgrade =>
           GameEvent.checkFullyResolved e
             = GameEvent.SystemCheck defeat (ACard upgrade) (getFrameworkContext g') noProperties
           ∧ name (GameEvent.data e) = eventName defeat)
        contingent (upgradesInArena g' c)
    ∧ length contingent = length (upgradesInArena g' c)
    ∧ (∀ upgrade, In upgrade (upgradesInArena g' c) ↔
         In upgrade (default [] (upgrades (cards g' c)))
         ∧ EnumHelpers.isArena (Loc (location (cards g' upgrade))) = true)
    ∧ (∀ e, In e contingent →
         order (GameEvent.data e) = order (GameEvent.data primary) - 1
         ∧ order (GameEvent.data e) < order (GameEvent.data primary)
         ∧ isContingent (GameEvent.data e) = true).
Proof.
  intros Hv primary.
  destruct (addLeavesPlayPropertiesToEvent_data this g event c ctx additionalProperties
              filter Hv) as (Hcont & Hcard & _).
  fold primary in Hcont, Hcard.
  exists (map (attachmentEventFor defeat getFrameworkContext g' (GameEvent.data primary))
            (upgradesInArena g' c)).
  split; [|split; [|split; [|split]]].
  - unfold createContingentEvents. rewrite Hcont, Hcard. done.
  - induction (upgradesInArena g' c) as [|u us IH]; simpl; constructor; [|exact IH].
    destruct (attachmentEventFor_data g' (GameEvent.data primary) u) as (H1 & H2 & _).
    done.
  - apply length_map.
  - intros upgrade. unfold upgradesInArena. apply filter_In.
  - intros e He. apply in_map_iff in He as (u & <- & _).
    destruct (attachmentEventFor_data g' (GameEvent.data primary) u) as (_ & _ & H3 & H4 & _).
    rewrite H3. split; [done|]. split; [lia | exact H4].
Qed.

(** C9, as amended.  [leavesPlayEventHandler] on an event for card [c]
    with recorded destination [d].  When [d] is not a legal location for
    the card's type, the handler writes one message to the chat log, sets
    the event's destination to the deck and calls [moveCard] of the card's
    owner with the deck; its outcome is that call's.  The call does not
    return when the deck is not a legal location for the card's type
    either.  It returns when the deck is legal, the card is not in the
    owner's deck already and, if the card is a unit in an arena, no upgrade
    is left on it: then the card is in the owner's deck and the log has
    the one message more.  When [d] is legal the handler writes nothing
    and calls [moveCard] with [d], the event left as it was; for a field
    of the player that call returns under the same conditions, with the
    card in that field. *)
Theorem leavesPlayEventHandler_redirects (event : EventData) g c d :
  card event = Some (ACard c) →
  eventDestination event = Some d →
  let player := owner (cards g c) in
  let opts := default {| bottom := false |} (options event) in
  let legal :=
    isLegalLocationForCardType defaultLegalLocationsForCardType g player
      (type (cards g c)) in
  let move := moveCard defaultLegalLocationsForCardType pileKey runtime player c in
  let handler := leavesPlayEventHandler defaultLegalLocationsForCardType pileKey runtime in
  let returns (z : Location) :=
    (1 ≤ callDepth runtime)%nat
    ∧ bottomOf runtime z = None
    ∧ (∀ pile, arrayAt (Field player z) g = Some pile → c ∉ pile)
    ∧ (EnumHelpers.isArena (Loc (location (cards g c))) = true →
       isUnit runtime (cards g c) = true → upgrades (cards g c) = Some []) in
  (legal (Some d) = false →
   let g1 := addMessage (IllegalLocationMessage (Some d) c) g in
   messages g1 = messages g ++ [IllegalLocationMessage (Some d) c]
   ∧ eventDestination (GameEvent.setDestination Deck event) = Some Deck
   ∧ handler event g = (λ g', (GameEvent.setDestination Deck event, g')) <$> move Deck opts g1
   ∧ (bottomOf runtime Deck = None → legal (Some Deck) = false → handler event g = None)
   ∧ (returns Deck → legal (Some Deck) = true →
      ∃ g2, handler event g = Some (GameEvent.setDestination Deck event, g2)
            ∧ movedToField pileKey runtime player c Deck opts g1 g2
            ∧ messages g2 = messages g ++ [IllegalLocationMessage (Some d) c]))
  ∧ (legal (Some d) = true →
     handler event g = (λ g', (event, g')) <$> move d opts g
     ∧ (isField d = true → returns d →
        ∃ g2, handler event g = Some (event, g2)
              ∧ movedToField pileKey runtime player c d opts g g2
              ∧ messages g2 = messages g)).
Proof.
  intros Hcard Hdest player opts legal move handler returns.
  subst handler. unfold leavesPlayEventHandler. rewrite Hcard, Hdest.
  fold player. fold legal. split.
  - intros Hillegal. rewrite Hillegal. cbn [negb]. cbv zeta.
    set (g1 := addMessage (IllegalLocationMessage (Some d) c) g).
    change (eventDestination (GameEvent.setDestination Deck event)) with (Some Deck).
    fold opts. fold move.
    assert (Hrun : (g' ← move Deck opts g1; Some (GameEvent.setDestination Deck event, g'))
                   = (λ g', (GameEvent.setDestination Deck event, g')) <$> move Deck opts g1).
    { by destruct (move Deck opts g1). }
    split; [done|]. split; [done|]. split; [exact Hrun|]. split.
    + intros Hbottom Hdeck. etrans; [exact Hrun|]. subst move.
      by rewrite (moveCard_illegal_field pileKey defaultLegalLocationsForCardType runtime
                    player c Deck opts g1 eq_refl Hbottom Hdeck).
    + intros (Hdepth & Hbottom & Hfresh & Hupgrades) Hdeck.
      assert (Hgoal : ∃ g2, (λ g', (GameEvent.setDestination Deck event, g'))
                              <$> move Deck opts g1
                            = Some (GameEvent.setDestination Deck event, g2)
                            ∧ movedToField pileKey runtime player c Deck opts g1 g2
                            ∧ messages g2 = messages g ++ [IllegalLocationMessage (Some d) c]);
        [|destruct Hgoal as (g2 & Hg2 & Hrest); exists g2;
          split; [exact (eq_trans Hrun Hg2)|exact Hrest]].
      subst move.
      destruct (moveCard_to_field pileKey defaultLegalLocationsForCardType runtime
                  player c Deck opts g1 eq_refl Hdepth Hbottom eq_refl Hdeck Hfresh
                  Hupgrades) as (g2 & -> & Hmoved).
      exists g2. split; [done|]. split; [exact Hmoved|].
      destruct Hmoved as (rest & moved & _ & _ & _ & _ & _ & _ & ->). done.
  - intros Hlegal. rewrite Hlegal. cbn [negb]. rewrite Hdest. fold opts. fold move.
    assert (Hrun : (g' ← move d opts g; Some (event, g'))
                   = (λ g', (event, g')) <$> move d opts g).
    { by destruct (move d opts g). }
    split; [exact Hrun|].
    intros Hfield (Hdepth & Hbottom & Hfresh & Hupgrades).
    assert (Hgoal : ∃ g2, (λ g', (event, g')) <$> move d opts g = Some (event, g2)
                          ∧ movedToField pileKey runtime player c d opts g g2
                          ∧ messages g2 = messages g);
      [|destruct Hgoal as (g2 & Hg2 & Hrest); exists g2;
        split; [exact (eq_trans Hrun Hg2)|exact Hrest]].
    subst move.
    destruct (moveCard_to_field pileKey defaultLegalLocationsForCardType runtime
                player c d opts g Hfield Hdepth Hbottom eq_refl Hlegal Hfresh
                Hupgrades) as (g2 & -> & Hmoved).
    exists g2. split; [done|]. split; [exact Hmoved|].
    by destruct Hmoved as (rest & moved & _ & _ & _ & _ & _ & _ & ->).
Qed.

End LeavesPlayFacts.

(** ** Additional costs of targeted cards *)

Section UnlessCostFacts.

Import GameSystem EventGeneration CardTargetSystem.

Context {CostObject : Type}.
Variable costHasLegalTarget : CostObject → State → CtxId → bool.
Variable costResolve : CostObject → PlayerOrCard → CtxId → State → State.
Variable unlessActionCosts : State → PlayerOrCard → list (UnlessActionCost CostObject).
Variable this : System.
Variable ctx : CtxId.
Variable additionalProperties : Properties.

Implicit Types (r : Run CostObject) (i j : nat) (card : PlayerOrCard).








(** What the loop returns with. *)
Lemma loop_spec (target : list PlayerOrCard) i r :
  let r' := loop unlessActionCosts this ctx additionalProperties i target r in
  game r' = game r ∧ attempts r' = attempts r
  ∧ queue r' = queue r ++ queuedSteps unlessActionCosts this (game r) i target
  ∧ events r' = events r ++ immediateEvents unlessActionCosts this (game r) ctx
                              additionalProperties i target
  ∧ (∀ j, (i ≤ j < i + length target)%nat → flagOf j r' = Some true)
  ∧ (∀ j, (j < i ∨ i + length target ≤ j)%nat → flagOf j r' = flagOf j r).
Proof.
  revert i r. induction target as [|card rest IH]; intros i r; simpl.
  { rewrite !app_nil_r. repeat split; try done. intros j Hj. lia. }
  set (r1 := iteration unlessActionCosts this ctx additionalProperties i card r).
  assert (H1 : game r1 = game r ∧ attempts r1 = attempts r
               ∧ queue r1 = queue r ++
                   match additionalCostsOf unlessActionCosts this (game r) card with
                   | [] => []
                   | _ :: _ =>
                       map (ResolveCardTargetingCost i card)
                         (additionalCostsOf unlessActionCosts this (game r) card)
                       ++ [PushCardTargetEvent i card]
                   end
               ∧ events r1 = events r ++
                   match additionalCostsOf unlessActionCosts this (game r) card with
                   | [] => [(i, generateEvent this (game r) card ctx additionalProperties)]
                   | _ :: _ => []
                   end
               ∧ allCostsPaid r1 = <[i := true]> (allCostsPaid r)).
  { subst r1. unfold iteration. simpl.
    destruct (additionalCostsOf unlessActionCosts this (game r) card); simpl.
    - rewrite lookup_insert_eq. simpl. by rewrite app_nil_r.
    - by rewrite app_nil_r. }
  destruct H1 as (Hg & Ha & Hq & He & Hf).
  destruct (IH (S i) r1) as (Hg' & Ha' & Hq' & He' & Hin & Hout).
  rewrite Hg in Hq', He'.
  split; [by etrans|]. split; [by etrans|].
  split; [by rewrite Hq', Hq, <- app_assoc|].
  split; [by rewrite He', He, <- app_assoc|].
  split.
  - intros j Hj. destruct (decide (j = i)) as [->|Hne].
    + rewrite Hout by lia. unfold flagOf. rewrite Hf. by rewrite lookup_insert_eq.
    + apply Hin. lia.
  - intros j Hj. rewrite Hout by lia. unfold flagOf. rewrite Hf.
    rewrite lookup_insert_ne; [done|lia].
Qed.



End UnlessCostFacts.

(** ** Ability resolution *)

Section ResolverFacts.

Import AbilityResolver.

Implicit Types (env : Environment) (r : Resolver) (s : Step) (pipeline : list Step).

Lemma run_step fuel env s pipeline r :
  run (S fuel) env (s :: pipeline) r
  = let '(r1, queued, effects) := step env s r in
    let '(r2, waiting, later) := run fuel env (queued ++ pipeline) r1 in
    (r2, waiting, effects ++ later).
Proof. reflexivity. Qed.

Lemma run_nil fuel env r : run fuel env [] r = (r, [], []).
Proof. by destruct fuel. Qed.

Lemma storeTargeting_cancelled t r :
  cancelled r = true → cancelled (storeTargeting t r) = true.
Proof.
  intros Hc. unfold storeTargeting. simpl.
  destruct (passAbilityHandler r); [|done].
  destruct (passButtonShown t); simpl; [|done].
  by destruct (passButtonPressed t).
Qed.

Lemma handlerExecuted_cancels (es : list GameEvent.t) :
  handlerExecuted (map EventCancelCalled es) = false.
Proof. by induction es. Qed.

Lemma promptsShown_cancels (es : list GameEvent.t) :
  promptsShown (map EventCancelCalled es) = 0%nat.
Proof. by induction es. Qed.

(** A cancelled resolver stays cancelled, and no step of it runs the
    ability's handler. *)
Lemma step_cancelled env s r :
  cancelled r = true →
  cancelled (step env s r).1.1 = true ∧ handlerExecuted (step env s r).2 = false.
Proof.
  intros Hc. destruct s; simpl; rewrite ?Hc; simpl;
    repeat case_match; simpl; rewrite ?handlerExecuted_cancels;
    auto using storeTargeting_cancelled.
Qed.

Lemma handlerExecuted_app (effects later : list Effect) :
  handlerExecuted (effects ++ later) = handlerExecuted effects || handlerExecuted later.
Proof. apply existsb_app. Qed.

Lemma run_cancelled fuel env pipeline r :
  cancelled r = true →
  cancelled (run fuel env pipeline r).1.1 = true
  ∧ handlerExecuted (run fuel env pipeline r).2 = false.
Proof.
  revert pipeline r. induction fuel as [|fuel IH]; intros pipeline r Hc; [done|].
  destruct pipeline as [|s rest]; [done|].
  rewrite run_step.
  destruct (step_cancelled env s r Hc) as [Hc1 Hh1].
  destruct (step env s r) as [[r1 queued] effects]. simpl in Hc1, Hh1.
  destruct (IH (queued ++ rest) r1 Hc1) as [Hc2 Hh2].
  destruct (run fuel env (queued ++ rest) r1) as [[r2 waiting] later]. simpl in *.
  split; [done|]. by rewrite handlerExecuted_app, Hh1, Hh2.
Qed.

(** C1. When the resolver is cancelled as the pipeline reaches
    [initiateAbilityEffects] and [executeHandler]: the first calls
    [cancel()] on every event of the resolver's list, in order, and does
    nothing else; the second does nothing; so the two steps leave every
    event cancelled and the ability's handler not executed.  And whatever
    steps are run from a cancelled resolver, it stays cancelled and the
    handler is never executed. *)
Theorem cancelled_resolution_executes_nothing env r :
  cancelled r = true →
  step env InitiateAbilityEffects r
    = (setEvents (map GameEvent.cancel (events r)) r, [], map EventCancelCalled (events r))
  ∧ (∀ r', cancelled r' = true → step env ExecuteHandler r' = (r', [], []))
  ∧ (∀ fuel,
       run (S (S fuel)) env [InitiateAbilityEffects; ExecuteHandler] r
       = (setEvents (map GameEvent.cancel (events r)) r, [],
          map EventCancelCalled (events r)))
  ∧ (∀ e, In e (events r) →
       In (EventCancelCalled e) (map EventCancelCalled (events r))
       ∧ In (GameEvent.cancel e) (map GameEvent.cancel (events r))
       ∧ GameSystem.cancelled (GameEvent.data (GameEvent.cancel e)) = true)
  ∧ (∀ fuel pipeline,
       cancelled (run fuel env pipeline r).1.1 = true
       ∧ handlerExecuted (run fuel env pipeline r).2 = false).
Proof.
  intros Hc.
  assert (H1 : step env InitiateAbilityEffects r
               = (setEvents (map GameEvent.cancel (events r)) r, [],
                  map EventCancelCalled (events r))).
  { simpl. by rewrite Hc. }
  assert (H2 : ∀ r', cancelled r' = true → step env ExecuteHandler r' = (r', [], [])).
  { intros r' Hc'. simpl. by rewrite Hc'. }
  split; [exact H1|]. split; [exact H2|]. split; [|split].
  - intros fuel. rewrite run_step, H1. cbn [app]. rewrite run_step, H2 by done.
    cbn [app]. rewrite run_nil. by rewrite !app_nil_r.
  - intros e He. split; [by apply in_map|]. split; [by apply in_map|done].
  - intros fuel pipeline. by apply run_cancelled.
Qed.

Lemma promptsShown_app (effects later : list Effect) :
  promptsShown (effects ++ later) = (promptsShown effects + promptsShown later)%nat.
Proof. unfold promptsShown. by rewrite List.filter_app, length_app. Qed.

Lemma storeTargeting_shown t r :
  passNotYetShown r = false → passNotYetShown (storeTargeting t r) = false.
Proof.
  unfold passNotYetShown, storeTargeting. simpl.
  destruct (passAbilityHandler r) as [h|] eqn:E; simpl; [|by rewrite E].
  intros Hs. destruct (passButtonShown t); simpl.
  - by destruct (passButtonPressed t).
  - by rewrite E.
Qed.

(** Once the handler is absent or marked shown, no step puts up the prompt
    and it stays that way. *)
Lemma step_quiet env s r :
  passNotYetShown r = false →
  passNotYetShown (step env s r).1.1 = false ∧ promptsShown (step env s r).2 = 0%nat.
Proof.
  intros Hq. destruct s; simpl; rewrite ?Hq; simpl;
    repeat case_match; simpl; rewrite ?promptsShown_cancels;
    auto using storeTargeting_shown.
Qed.

Lemma run_quiet fuel env pipeline r :
  passNotYetShown r = false →
  passNotYetShown (run fuel env pipeline r).1.1 = false
  ∧ promptsShown (run fuel env pipeline r).2 = 0%nat.
Proof.
  revert pipeline r. induction fuel as [|fuel IH]; intros pipeline r Hq; [done|].
  destruct pipeline as [|s rest]; [done|].
  rewrite run_step.
  destruct (step_quiet env s r Hq) as [Hq1 Hp1].
  destruct (step env s r) as [[r1 queued] effects]. simpl in Hq1, Hp1.
  destruct (IH (queued ++ rest) r1 Hq1) as [Hq2 Hp2].
  destruct (run fuel env (queued ++ rest) r1) as [[r2 waiting] later]. simpl in *.
  split; [done|]. by rewrite promptsShown_app, Hp1, Hp2.
Qed.

(** A step shows the prompt at most once, and if it does the handler is
    marked shown afterwards. *)
Lemma step_prompt env s r :
  promptsShown (step env s r).2 = 0%nat
  ∨ (promptsShown (step env s r).2 = 1%nat ∧ passNotYetShown (step env s r).1.1 = false).
Proof.
  destruct (passNotYetShown r) eqn:Hq; [|left; by apply step_quiet].
  destruct s; simpl; rewrite ?Hq; simpl;
    repeat case_match; simpl; rewrite ?promptsShown_cancels; auto.
Qed.

Lemma run_prompt_at_most_once fuel env pipeline r :
  (promptsShown (run fuel env pipeline r).2 ≤ 1)%nat.
Proof.
  revert pipeline r. induction fuel as [|fuel IH]; intros pipeline r.
  { destruct pipeline; unfold promptsShown; simpl; lia. }
  destruct pipeline as [|s rest]; [unfold promptsShown; simpl; lia|].
  rewrite run_step.
  pose proof (step_prompt env s r) as Hstep.
  destruct (step env s r) as [[r1 queued] effects]. simpl in Hstep.
  pose proof (IH (queued ++ rest) r1) as Hrest.
  pose proof (run_quiet fuel env (queued ++ rest) r1) as Hquiet.
  destruct (run fuel env (queued ++ rest) r1) as [[r2 waiting] later]. simpl in *.
  rewrite promptsShown_app.
  destruct Hstep as [->|[-> Hq]]; [lia|].
  destruct (Hquiet Hq) as [_ ->]. lia.
Qed.

(** C5, as amended.  The pass handler exists only for an optional
    ability, and without it no resolution shows the pass prompt.  However
    the pipeline is entered and re-entered, the prompt is shown at most
    once: showing it marks the handler shown, and from then on no step
    shows it.  A resolution of an optional ability whose early targeting
    neither showed the pass button nor cancelled shows the prompt exactly
    once; one whose early targeting showed the pass button does not show
    the prompt at all, as target selection marks the same handler. *)
Theorem pass_prompt_shown_once env :
  (passAbilityHandler (new env) = None ↔ optional env = false)
  ∧ (optional env = false → ∀ fuel, promptsShown (resolve fuel env).2 = 0%nat)
  ∧ (∀ fuel pipeline r, (promptsShown (run fuel env pipeline r).2 ≤ 1)%nat)
  ∧ (∀ r, passNotYetShown r = true → cancelled r = false →
          costsCancelled (costResults r) = false →
          step env CheckForPass r
          = (setPassAbilityHandler (Some {| hasBeenShown := true |}) r,
             [HandlerMenuPrompt], [PassPromptShown]))
  ∧ (∀ fuel pipeline r, passNotYetShown r = false →
          promptsShown (run fuel env pipeline r).2 = 0%nat)
  ∧ (optional env = true →
     cannotTargetFirst env = true ∨ passButtonShown (earlyTargets env) = false →
     ∀ fuel, promptsShown (resolve (3 + fuel) env).2 = 1%nat)
  ∧ (optional env = true →
     cannotTargetFirst env = false → passButtonShown (earlyTargets env) = true →
     ∀ fuel, promptsShown (resolve fuel env).2 = 0%nat).
Proof.
  split; [|split; [|split; [|split; [|split; [|split]]]]].
  - unfold new. simpl. by destruct (optional env).
  - intros Hopt fuel. apply run_quiet. unfold new, passNotYetShown. simpl. by rewrite Hopt.
  - intros fuel pipeline r. apply run_prompt_at_most_once.
  - intros r Hq Hc Hcc. simpl. by rewrite Hc, Hcc, Hq.
  - intros fuel pipeline r Hq. by apply run_quiet.
  - intros Hopt Hearly fuel. unfold resolve, initialPipeline.
    change (3 + fuel)%nat with (S (S (S fuel))).
    rewrite run_step.
    assert (Hfirst : ∃ r1, step env ResolveEarlyTargets (new env) = (r1, [], [])
                           ∧ cancelled r1 = false ∧ passNotYetShown r1 = true
                           ∧ costsCancelled (costResults r1) = false).
    { unfold new. simpl. rewrite Hopt.
      destruct (cannotTargetFirst env) eqn:Ectf; simpl.
      - eexists. split; [done|]. done.
      - destruct Hearly as [|Hshown]; [done|].
        eexists. split; [done|]. unfold storeTargeting, passNotYetShown. simpl.
        rewrite Hshown. done. }
    destruct Hfirst as (r1 & -> & Hc & Hq & Hcc). cbn [app].
    rewrite run_step. cbn [step]. rewrite Hc, Hq. cbn [app].
    rewrite run_step. cbn [step]. rewrite Hc, Hcc, Hq. cbn [app].
    pose proof (run_quiet fuel env [HandlerMenuPrompt; OpenInitiateAbilityEventWindow]
                  (setPassAbilityHandler (Some {| hasBeenShown := true |}) r1)
                  eq_refl) as [_ Hrest].
    destruct (run fuel env _ _) as [[r2 waiting] later]. simpl in *.
    unfold promptsShown in *. simpl. by rewrite Hrest.
  - intros Hopt Hctf Hshown [|fuel]; [done|].
    unfold resolve, initialPipeline. rewrite run_step.
    assert (Hfirst : ∃ r1, step env ResolveEarlyTargets (new env) = (r1, [], [])
                           ∧ passNotYetShown r1 = false).
    { unfold new. simpl. rewrite Hopt, Hctf. simpl.
      eexists. split; [done|]. unfold storeTargeting, passNotYetShown. simpl.
      rewrite Hshown. by destruct (passButtonPressed (earlyTargets env)). }
    destruct Hfirst as (r1 & -> & Hq). cbn [app].
    pose proof (run_quiet fuel env [CheckForCancelOrPass; OpenInitiateAbilityEventWindow]
                  r1 Hq) as [_ Hrest].
    destruct (run fuel env _ _) as [[r2 waiting] later]. simpl in *. exact Hrest.
Qed.

(** An optional ability that is not offered the pass by the resolver: it
    is never cancelled and its handler runs, yet the prompt is not shown
    even once, as early target selection had shown the pass button. *)
Lemma pass_prompt_not_shown_after_targeting :
  optional Examples.passOfferedByTargeting = true
  ∧ (resolve 20 Examples.passOfferedByTargeting).1.2 = []
  ∧ cancelled (resolve 20 Examples.passOfferedByTargeting).1.1 = false
  ∧ handlerExecuted (resolve 20 Examples.passOfferedByTargeting).2 = true
  ∧ promptsShown (resolve 20 Examples.passOfferedByTargeting).2 = 0%nat
  ∧ promptsShown (resolve 20 Examples.passOfferedByTargeting).2 ≠ 1%nat.
Proof. vm_compute. repeat split; done. Qed.

(** *** A resolution as a whole *)

Lemma totalWeight_app (p q : list Step) :
  totalWeight (p ++ q) = (totalWeight p + totalWeight q)%nat.
Proof. induction p as [|s p IH]; simpl; [done|]. rewrite IH. lia. Qed.

Lemma step_weight env s r : (totalWeight (step env s r).1.2 < weight s)%nat.
Proof. destruct s; simpl; repeat case_match; simpl; lia. Qed.

(** With fuel for the weight of the pipeline, the pipeline empties. *)
Lemma run_completes fuel env pipeline r :
  (totalWeight pipeline ≤ fuel)%nat → (run fuel env pipeline r).1.2 = [].
Proof.
  revert pipeline r. induction fuel as [|fuel IH]; intros pipeline r Hw.
  { destruct pipeline as [|s rest]; [done|]. simpl in Hw.
    pose proof (step_weight env s r). lia. }
  destruct pipeline as [|s rest]; [done|].
  rewrite run_step. pose proof (step_weight env s r) as Hs.
  destruct (step env s r) as [[r1 queued] effects]. simpl in Hs, Hw.
  pose proof (IH (queued ++ rest) r1) as Hrest.
  rewrite totalWeight_app in Hrest.
  destruct (run fuel env (queued ++ rest) r1) as [[r2 waiting] later]. simpl in *.
  apply Hrest. lia.
Qed.

(** Fuel beyond what empties the pipeline changes nothing. *)
Lemma run_more_fuel fuel extra env pipeline r :
  (run fuel env pipeline r).1.2 = [] →
  run (fuel + extra) env pipeline r = run fuel env pipeline r.
Proof.
  revert pipeline r. induction fuel as [|fuel IH]; intros pipeline r Hdone.
  { simpl in Hdone. subst pipeline. simpl. by rewrite run_nil. }
  destruct pipeline as [|s rest]; [done|].
  change (S fuel + extra)%nat with (S (fuel + extra)). rewrite !run_step in *.
  destruct (step env s r) as [[r1 queued] effects].
  specialize (IH (queued ++ rest) r1).
  destruct (run fuel env (queued ++ rest) r1) as [[r2 waiting] later]. simpl in Hdone.
  rewrite IH by done. done.
Qed.

(** Every resolution ends: twenty steps are enough. *)
Lemma resolve_completes env extra :
  (resolve (20 + extra) env).1.2 = [] ∧ resolve (20 + extra) env = resolve 20 env.
Proof.
  assert (H20 : (resolve 20 env).1.2 = []) by (apply run_completes; simpl; lia).
  unfold resolve in *. rewrite run_more_fuel by done. done.
Qed.

Lemma allEventsCancelled_cancel r :
  allEventsCancelled (setEvents (map GameEvent.cancel (events r)) r).
Proof.
  unfold allEventsCancelled. simpl. induction (events r); constructor; done.
Qed.

Lemma storeTargeting_events t r : events (storeTargeting t r) = events r.
Proof. unfold storeTargeting. simpl. repeat case_match; done. Qed.

(** One step of a reachable resolution gives a reachable resolution; the
    handler runs only as the last step, of a resolver that is not
    cancelled. *)
Lemma step_reachable env s rest r :
  reachable (s :: rest) r →
  reachable ((step env s r).1.2 ++ rest) (step env s r).1.1
  ∧ (handlerExecuted (step env s r).2 = true →
     (step env s r).1.2 ++ rest = [] ∧ cancelled (step env s r).1.1 = false).
Proof.
  intros (ph & Hph & Hr).
  inversion Hph; subst; simpl in Hr; simpl; repeat case_match; simpl;
    rewrite ?handlerExecuted_cancels;
    (split; [|try done]);
    try (eexists; split; [by econstructor|]; simpl; rewrite ?storeTargeting_events;
         try done; try (intros; congruence); auto using allEventsCancelled_cancel);
    try (intros _; split; [done|]; by destruct (cancelled r)).
  intros _. unfold allEventsCancelled. rewrite Hr. constructor.
Qed.

Lemma reachable_end r : reachable [] r → cancelled r = true → allEventsCancelled r.
Proof. intros (ph & Hph & Hr). inversion Hph; subst. exact Hr. Qed.

Lemma run_reachable fuel env pipeline r :
  reachable pipeline r →
  let out := run fuel env pipeline r in
  reachable out.1.2 out.1.1
  ∧ (cancelled out.1.1 = true → handlerExecuted out.2 = false).
Proof.
  revert pipeline r. induction fuel as [|fuel IH]; intros pipeline r Hreach.
  { by destruct pipeline. }
  destruct pipeline as [|s rest]; [done|].
  cbv zeta. rewrite run_step.
  destruct (step_reachable env s rest r Hreach) as [Hnext Hhandler].
  destruct (step env s r) as [[r1 queued] effects]. simpl in Hnext, Hhandler.
  specialize (IH (queued ++ rest) r1 Hnext). cbv zeta in IH.
  destruct (run fuel env (queued ++ rest) r1) as [[r2 waiting] later] eqn:Erun.
  simpl in *. destruct IH as [IH1 IH2]. split; [done|].
  intros Hc. rewrite handlerExecuted_app, (IH2 Hc), orb_false_r.
  destruct (handlerExecuted effects) eqn:Eh; [|done].
  destruct (Hhandler eq_refl) as [Hnil Hc1]. rewrite Hnil, run_nil in Erun.
  injection Erun as <- _ _. congruence.
Qed.

(** An ability resolution from the constructor to the end of its pipeline:
    if it ends cancelled, the ability's handler was not executed and every
    event of the resolver's list is cancelled. *)
Theorem cancelled_resolution_is_void env extra :
  let out := resolve (20 + extra) env in
  out.1.2 = []
  ∧ (cancelled out.1.1 = true →
     handlerExecuted out.2 = false ∧ allEventsCancelled out.1.1).
Proof.
  intros out. destruct (resolve_completes env extra) as [Hdone _]. fold out in Hdone.
  split; [exact Hdone|]. intros Hc.
  assert (Hstart : reachable initialPipeline (new env)).
  { exists BeforeWindow. split; [constructor|done]. }
  destruct (run_reachable (20 + extra) env initialPipeline (new env) Hstart) as [Hr Hh].
  fold (resolve (20 + extra) env) in Hr, Hh. fold out in Hr, Hh.
  split; [by apply Hh|]. rewrite Hdone in Hr. by apply reachable_end.
Qed.

End ResolverFacts.

(** ** The theorems at concrete inputs *)

Section Witnesses.

Import GameSystem EventGeneration CardTargetSystem AbilityResolver.

(** The spec's scenario: a 2-cost card with one aspect penalty and a
    discount of 1 with floor 0 costs 3. *)
Example adjusted_cost_scenario :
  (Player.getAdjustedCost (fun c : Z => c) tt 2 None false (Some [1%nat; 7%nat])
     (Examples.player [Examples.discount])).1 = JsNum.Finite 3.
Proof. vm_compute. reflexivity. Qed.

(** A floor above the pre-decrease cost holds the cost at the pre-decrease
    cost: base 2, increase 2, decrease 1, floors 0 and 5 give 4. *)
Example floor_scenario :
  (Player.runAdjustersForCostType tt (JsNum.Finite 2) (2 : Z) None false None
     (Examples.player [Examples.discount; Examples.surcharge])).1 = JsNum.Finite 4.
Proof. vm_compute. reflexivity. Qed.

(** With no matching adjuster the floor is [-Infinity] and the cost is the
    base cost. *)
Example no_adjuster_scenario :
  (Player.runAdjustersForCostType tt (JsNum.Finite 2) (2 : Z) None false None
     (Examples.player [])).1 = JsNum.Finite 2.
Proof. vm_compute. reflexivity. Qed.

Lemma getAdjustedCost_idempotent_witness :
  Player.allocated (Examples.player [Examples.discount])
  ∧ (let first :=
       Player.getAdjustedCost (fun c : Z => c) tt 2 None false (Some [1%nat; 7%nat])
         (Examples.player [Examples.discount]) in
     let second :=
       Player.getAdjustedCost (fun c : Z => c) tt 2 None false (Some [1%nat; 7%nat])
         first.2 in
     second.1 = first.1
     ∧ Player.sameOwnState (Examples.player [Examples.discount]) first.2
     ∧ Player.sameOwnState (Examples.player [Examples.discount]) second.2).
Proof.
  assert (H : Player.allocated (Examples.player [Examples.discount])).
  { split; eexists; vm_compute; reflexivity. }
  split; [exact H|].
  exact (getAdjustedCost_idempotent (fun c : Z => c) tt 2 None false (Some [1%nat; 7%nat])
           (Examples.player [Examples.discount]) H).
Defined.

(** Card 1 could be exhausted when the event was made and cannot when it
    is about to apply: the event is dropped. *)
Example stale_event_scenario :
  canAffect Examples.exhaust Examples.unrestricted (ACard 1%nat) 0%nat noProperties = true
  ∧ applyEvent Examples.cardOneRestricted
      (generateEvent Examples.exhaust Examples.unrestricted (ACard 1%nat) 0%nat noProperties)
    = (Examples.cardOneRestricted, false)
  ∧ (applyEvent Examples.unrestricted
       (generateEvent Examples.exhaust Examples.unrestricted (ACard 1%nat) 0%nat noProperties)).2
    = true.
Proof. vm_compute. done. Qed.

Lemma event_condition_revalidates_witness :
  variant Examples.exhaust = CardTarget [WildTyp UnitCard]
  ∧ canAffect Examples.exhaust Examples.cardOneRestricted (ACard 1%nat) 0%nat noProperties
    = false
  ∧ applyEvent Examples.cardOneRestricted
      (generateEvent Examples.exhaust Examples.unrestricted (ACard 1%nat) 0%nat noProperties)
    = (Examples.cardOneRestricted, false).
Proof.
  assert (Hv : variant Examples.exhaust = CardTarget [WildTyp UnitCard]) by reflexivity.
  assert (Hc : canAffect Examples.exhaust Examples.cardOneRestricted (ACard 1%nat) 0%nat
                 noProperties = false) by reflexivity.
  split; [exact Hv|]. split; [exact Hc|].
  destruct (event_condition_revalidates Examples.exhaust Examples.unrestricted
              Examples.cardOneRestricted (ACard 1%nat) 0%nat noProperties)
    as (_ & _ & Hcard).
  destruct (Hcard [WildTyp UnitCard] Hv) as (_ & Hdrop & _).
  exact (proj2 (Hdrop Hc)).
Defined.

(** Defeating card 1, which has one upgrade in the arena and one already
    discarded: one contingent event, ordered one below the primary. *)
Example contingent_scenario :
  let primary :=
    addLeavesPlayPropertiesToEvent Examples.defeat Examples.unrestricted
      (GameEvent.new Unnamed None GameEvent.NoHandler) (ACard 1%nat) 0%nat noProperties in
  eventDestination (GameEvent.data primary) = Some Discard
  ∧ order (GameEvent.data primary) = 0
  ∧ (map (fun e => (card (GameEvent.data e), order (GameEvent.data e)))
       <$> createContingentEvents Examples.defeat (fun _ => 9%nat) Examples.unrestricted primary)
    = Some [(Some (ACard 2%nat), -1)].
Proof. vm_compute. done. Qed.

Lemma contingent_events_for_upgrades_witness :
  variant Examples.defeat = CardTarget [WildTyp AnyCard]
  ∧ ∃ contingent,
      createContingentEvents Examples.defeat (fun _ => 9%nat) Examples.unrestricted
        (addLeavesPlayPropertiesToEvent Examples.defeat Examples.unrestricted
           (GameEvent.new Unnamed None GameEvent.NoHandler) (ACard 1%nat) 0%nat noProperties)
      = Some contingent
      ∧ length contingent = 1%nat.
Proof.
  assert (Hv : variant Examples.defeat = CardTarget [WildTyp AnyCard]) by reflexivity.
  split; [exact Hv|].
  destruct (contingent_events_for_upgrades Examples.defeat (fun _ => 9%nat)
              Examples.defeat Examples.unrestricted Examples.unrestricted
              (GameEvent.new Unnamed None GameEvent.NoHandler) 1%nat 0%nat noProperties
              [WildTyp AnyCard] Hv) as (contingent & Hc & _ & Hlen & _).
  exists contingent. split; [exact Hc|]. exact Hlen.
Defined.

(** A unit sent to the base zone, where units cannot go: one message, and
    the unit is put on its owner's deck. *)
Lemma leavesPlayEventHandler_redirects_witness :
  card Examples.unitDefeated = Some (ACard 4%nat)
  ∧ eventDestination Examples.unitDefeated = Some Base
  ∧ Zones.isLegalLocationForCardType Examples.legalLocations Examples.unrestricted 0%nat
      NonLeaderUnit (Some Base) = false
  ∧ ∃ g2,
      leavesPlayEventHandler Examples.legalLocations Examples.pileKey Examples.engine
        Examples.unitDefeated Examples.unrestricted
      = Some (GameEvent.setDestination Deck Examples.unitDefeated, g2)
      ∧ drawDeck (players g2 0%nat) = [4%nat]
      ∧ messages g2 = [IllegalLocationMessage (Some Base) 4%nat].
Proof.
  assert (Hcard : card Examples.unitDefeated = Some (ACard 4%nat)) by reflexivity.
  assert (Hdest : eventDestination Examples.unitDefeated = Some Base) by reflexivity.
  assert (Hillegal : Zones.isLegalLocationForCardType Examples.legalLocations
                       Examples.unrestricted
                       (owner (cards Examples.unrestricted 4%nat))
                       (type (cards Examples.unrestricted 4%nat)) (Some Base) = false)
    by reflexivity.
  split; [exact Hcard|]. split; [exact Hdest|]. split; [exact Hillegal|].
  destruct (leavesPlayEventHandler_redirects Examples.legalLocations Examples.pileKey
              Examples.engine Examples.unitDefeated Examples.unrestricted 4%nat Base
              Hcard Hdest) as [Hredirect _].
  destruct (Hredirect Hillegal) as (_ & _ & _ & _ & Hmove).
  destruct Hmove as (g2 & Hhandler & Hmoved & Hmessages).
  { split; [vm_compute; lia|]. split; [reflexivity|]. split; [|reflexivity].
    intros pile [= <-]. apply not_elem_of_nil. }
  { reflexivity. }
  exists g2. split; [exact Hhandler|]. split; [|exact Hmessages].
  destruct Hmoved as (rest & moved & Hrest & Hdeck & _).
  vm_compute in Hrest. injection Hrest as <-.
  simpl in Hdeck. by injection Hdeck.
Defined.

(** A redirection that does not keep the handler from failing: a token
    sent to the discard pile, where tokens cannot go, is redirected to the
    deck, where tokens cannot go either, and [moveCard] does not return. *)
Lemma leavesPlayEventHandler_fails_on_token :
  card Examples.tokenDefeated = Some (ACard 6%nat)
  ∧ eventDestination Examples.tokenDefeated = Some Discard
  ∧ Zones.isLegalLocationForCardType Examples.legalLocations Examples.unrestricted
      (owner (cards Examples.unrestricted 6%nat)) (type (cards Examples.unrestricted 6%nat))
      (Some Discard) = false
  ∧ leavesPlayEventHandler Examples.legalLocations Examples.pileKey Examples.engine
      Examples.tokenDefeated Examples.unrestricted = None.
Proof. vm_compute. done. Qed.


(** Three targets, of which card 4 has an additional cost that cannot be
    paid: the events of the first and the third are in the array, in that
    order, and the one check that failed is card 4's. *)
Example three_targets_scenario :
  let final :=
    resolvedEvents Examples.payable Examples.payCost Examples.unlessCosts
      Examples.exhaustThree Examples.unrestricted 0%nat noProperties in
  map (fun e => (e.1, card (GameEvent.data e.2))) (CardTargetSystem.events final)
    = [(0%nat, Some (ACard 1%nat)); (2%nat, Some (ACard 5%nat))]
  ∧ CardTargetSystem.attempts final = [(1%nat, false); (2%nat, true)].
Proof. vm_compute. done. Qed.


(** An optional ability whose player chooses to trigger it: the prompt is
    shown once and the handler runs.  If the player passes, the resolution
    is cancelled and the handler does not run. *)
Example optional_ability_scenario :
  promptsShown (resolve 20 (Examples.optionalAbility false)).2 = 1%nat
  ∧ handlerExecuted (resolve 20 (Examples.optionalAbility false)).2 = true
  ∧ (resolve 20 (Examples.optionalAbility false)).1.2 = []
  ∧ promptsShown (resolve 20 (Examples.optionalAbility true)).2 = 1%nat
  ∧ handlerExecuted (resolve 20 (Examples.optionalAbility true)).2 = false
  ∧ cancelled (resolve 20 (Examples.optionalAbility true)).1.1 = true.
Proof. vm_compute. done. Qed.

Lemma cancelled_resolution_executes_nothing_witness :
  cancelled Examples.cancelledResolver = true
  ∧ run 2 (Examples.optionalAbility false) [InitiateAbilityEffects; ExecuteHandler]
      Examples.cancelledResolver
    = (setEvents (map GameEvent.cancel (events Examples.cancelledResolver))
         Examples.cancelledResolver, [],
       map EventCancelCalled (events Examples.cancelledResolver)).
Proof.
  assert (Hc : cancelled Examples.cancelledResolver = true) by reflexivity.
  split; [exact Hc|].
  destruct (cancelled_resolution_executes_nothing (Examples.optionalAbility false)
              Examples.cancelledResolver Hc) as (_ & _ & Hrun & _).
  exact (Hrun 0%nat).
Defined.

Lemma pass_prompt_shown_once_witness :
  optional (Examples.optionalAbility false) = true
  ∧ promptsShown (resolve 20 (Examples.optionalAbility false)).2 = 1%nat.
Proof.
  assert (Ho : optional (Examples.optionalAbility false) = true) by reflexivity.
  split; [exact Ho|].
  destruct (pass_prompt_shown_once (Examples.optionalAbility false))
    as (_ & _ & _ & _ & _ & Honce & _).
  exact (Honce Ho (or_intror eq_refl) 17%nat).
Defined.

End Witnesses.

(** * Further properties of the code *)

(** ** Card types, zones and enum conversion *)

Section EnumFacts.

Import EnumHelpers EnumConversion.

Lemma getCardTypesForFilter_single (cardType : CardType) (cardTypeFilter : CardTypeFilter) :
  In cardType (getCardTypesForFilter cardTypeFilter)
  ↔ cardTypeMatches cardType [cardTypeFilter] = true.
Proof.
  destruct cardTypeFilter as [t|[]]; destruct cardType; simpl;
    rewrite ?orb_false_r, ?bool_decide_eq_true; try destruct t; intuition congruence.
Qed.

(** X1. [getCardTypesForFilter] lists exactly the card types that
    [cardTypeMatches] accepts for the filter, each of them once; for a list
    of filters, [cardTypeMatches] accepts the union of the types listed for
    its members, so the empty list accepts nothing. *)
Theorem getCardTypesForFilter_matches (cardType : CardType) :
  (∀ cardTypeFilter,
     (In cardType (getCardTypesForFilter cardTypeFilter)
      ↔ cardTypeMatches cardType [cardTypeFilter] = true)
     ∧ NoDup (getCardTypesForFilter cardTypeFilter))
  ∧ (∀ filters,
       cardTypeMatches cardType filters = true
       ↔ ∃ f, In f filters ∧ In cardType (getCardTypesForFilter f))
  ∧ cardTypeMatches cardType [] = false.
Proof.
  split; [|split; [|done]].
  - intros cardTypeFilter. split; [apply getCardTypesForFilter_single|].
    destruct cardTypeFilter as [t|[]]; simpl;
      [apply NoDup_singleton | by apply (bool_decide_unpack _) ..].
  - intros filters. unfold cardTypeMatches. rewrite existsb_exists. split.
    + intros (f & Hf & Hm). exists f. split; [done|].
      apply getCardTypesForFilter_single. unfold cardTypeMatches. simpl.
      by rewrite orb_false_r.
    + intros (f & Hf & Hm). exists f. split; [done|].
      apply getCardTypesForFilter_single in Hm. unfold cardTypeMatches in Hm.
      simpl in Hm. by rewrite orb_false_r in Hm.
Qed.

(** X2. Zone filters: the wildcard for attackable zones accepts what the
    wildcard for arenas accepts and, besides, the base zone and nothing
    else; the arena wildcard accepts exactly the ground and the space
    arena; a list of filters accepts a zone when one of its members does. *)
Theorem cardLocationMatches_wildcards (cardLocation : Location) :
  cardLocationMatches cardLocation [WildLoc AnyAttackable]
    = cardLocationMatches cardLocation [WildLoc AnyArena]
      || bool_decide (cardLocation = Base)
  ∧ (cardLocationMatches cardLocation [WildLoc AnyArena] = true
     ↔ cardLocation = GroundArena ∨ cardLocation = SpaceArena)
  ∧ cardLocationMatches cardLocation [WildLoc AnyLocation] = true
  ∧ (∀ filters1 filters2,
       cardLocationMatches cardLocation (filters1 ++ filters2)
       = cardLocationMatches cardLocation filters1
         || cardLocationMatches cardLocation filters2)
  ∧ cardLocationMatches cardLocation [] = false.
Proof.
  split; [|split; [|split; [done|split; [|done]]]].
  - destruct cardLocation; done.
  - destruct cardLocation; simpl; intuition congruence.
  - intros filters1 filters2. unfold cardLocationMatches. apply existsb_app.
Qed.

Section CheckConvertFacts.

Variable toLowerCase : string → string.

Lemma checkConvertToEnum_returned (values enumValues result : list string) :
  checkConvertToEnum toLowerCase values enumValues = Returned result →
  result = values ∧ Forall (λ v, toLowerCase v ∈ enumValues) values.
Proof.
  revert result. induction values as [|v rest IH]; intros result; simpl.
  - intros [= <-]. done.
  - unfold isEnumValue. destruct (bool_decide_reflect (toLowerCase v ∈ enumValues)); [|done].
    destruct (checkConvertToEnum toLowerCase rest enumValues) as [|r]; [done|].
    intros [= <-]. destruct (IH r eq_refl) as [-> Hall]. split; [done|]. by constructor.
Qed.

Lemma checkConvertToEnum_thrown (values enumValues : list string) (message : string) :
  checkConvertToEnum toLowerCase values enumValues = Thrown message →
  ∃ before value after,
    values = before ++ value :: after
    ∧ Forall (λ v, toLowerCase v ∈ enumValues) before
    ∧ (toLowerCase value ∉ enumValues)
    ∧ message = ("Invalid value for enum: " ++ value)%string.
Proof.
  induction values as [|v rest IH]; simpl; [done|].
  unfold isEnumValue. destruct (bool_decide_reflect (toLowerCase v ∈ enumValues)) as [Hin|Hout].
  - destruct (checkConvertToEnum toLowerCase rest enumValues) as [m|r]; [|done].
    intros [= <-]. destruct (IH eq_refl) as (before & value & after & -> & Hb & Hv & Hm).
    exists (v :: before), value, after. split; [done|]. split; [by constructor|]. done.
  - intros [= <-]. exists [], v, rest. done.
Qed.

(** X3. [checkConvertToEnum] returns exactly when the lower-case form of
    every value is a value of the enum, and then it returns the values as
    they were passed, not their lower-case forms; otherwise it throws,
    naming the first value that fails, whatever comes after it. *)
Theorem checkConvertToEnum_outcome (values enumValues : list string) :
  (Forall (λ v, toLowerCase v ∈ enumValues) values
   ↔ checkConvertToEnum toLowerCase values enumValues = Returned values)
  ∧ (∀ result, checkConvertToEnum toLowerCase values enumValues = Returned result →
               result = values)
  ∧ (∀ message, checkConvertToEnum toLowerCase values enumValues = Thrown message →
       ∃ before value after,
         values = before ++ value :: after
         ∧ Forall (λ v, toLowerCase v ∈ enumValues) before
         ∧ (toLowerCase value ∉ enumValues)
         ∧ message = ("Invalid value for enum: " ++ value)%string).
Proof.
  split; [|split].
  - split.
    + intros Hall.
      destruct (checkConvertToEnum toLowerCase values enumValues) as [m|r] eqn:E.
      * destruct (checkConvertToEnum_thrown _ _ _ E) as (b & v & a & -> & _ & Hv & _).
        apply Forall_app in Hall as [_ Hall]. by inversion Hall.
      * by destruct (checkConvertToEnum_returned _ _ _ E) as [-> _].
    + intros E. by destruct (checkConvertToEnum_returned _ _ _ E).
  - intros result E. by destruct (checkConvertToEnum_returned _ _ _ E).
  - apply checkConvertToEnum_thrown.
Qed.

End CheckConvertFacts.

End EnumFacts.

(** ** Costs, continued *)

Section MoreCostFacts.

Context {Card Target PlayType Aspect Zones : Type} `{EqDecision Aspect}.
Variable cardCost : Card → Z.
Implicit Types (s : @Player.PlayerState Card Target PlayType Aspect Zones).

Import Player.

Lemma indexOf_None (x : Aspect) (l : list Aspect) :
  indexOf x l = None → count_occ EqDecision0 l x = 0%nat.
Proof.
  induction l as [|y l IH]; simpl; [done|].
  destruct (decide (y = x)) as [->|Hne]; [done|].
  destruct (indexOf x l); [done|]. intros _.
  destruct (EqDecision0 y x); [done|]. by apply IH.
Qed.

Lemma indexOf_Some (x : Aspect) (l : list Aspect) (i : nat) :
  indexOf x l = Some i →
  ∀ a, count_occ EqDecision0 (delete i l) a
       = (count_occ EqDecision0 l a - (if decide (a = x) then 1 else 0))%nat.
Proof.
  revert i. induction l as [|y l IH]; intros i; simpl; [done|].
  destruct (decide (y = x)) as [->|Hne].
  - intros [= <-] a. simpl. destruct (EqDecision0 x a) as [->|Hxa].
    + rewrite decide_True by done. lia.
    + rewrite decide_False by congruence. lia.
  - destruct (indexOf x l) as [j|] eqn:E; [|done]. intros [= <-] a. simpl.
    rewrite (IH j eq_refl a).
    destruct (EqDecision0 y a) as [->|Hya]; [|done].
    rewrite decide_False by congruence. lia.
Qed.

Lemma penaltiesOf_count (current costAspects penaltyAspects : list Aspect) (a : Aspect) :
  count_occ EqDecision0 (penaltiesOf current costAspects penaltyAspects) a
  = (count_occ EqDecision0 penaltyAspects a
     + (count_occ EqDecision0 costAspects a - count_occ EqDecision0 current a))%nat.
Proof.
  revert current penaltyAspects.
  induction costAspects as [|x rest IH]; intros current penaltyAspects; simpl; [lia|].
  destruct (indexOf x current) as [i|] eqn:E.
  - rewrite IH, (indexOf_Some x current i E a).
    destruct (EqDecision0 x a) as [->|Hxa].
    + rewrite decide_True by done.
      assert (count_occ EqDecision0 current a ≠ 0%nat).
      { intros H0. clear IH. revert i E H0. induction current as [|y l IHl]; simpl; [done|].
        intros i. destruct (decide (y = a)) as [->|Hne].
        - intros _. by destruct (EqDecision0 a a).
        - destruct (indexOf a l) as [j|]; [|done]. intros _.
          destruct (EqDecision0 y a); [done|]. by apply (IHl j). }
      lia.
    + rewrite decide_False by congruence. lia.
  - rewrite IH, count_occ_app. simpl.
    destruct (EqDecision0 x a) as [->|Hxa]; [|lia].
    rewrite (indexOf_None a current E). lia.
Qed.

Lemma penaltiesOf_sublist (current costAspects penaltyAspects : list Aspect) :
  ∃ kept, penaltiesOf current costAspects penaltyAspects = penaltyAspects ++ kept
          ∧ sublist kept costAspects.
Proof.
  revert current penaltyAspects.
  induction costAspects as [|x rest IH]; intros current penaltyAspects; simpl.
  - exists []. by rewrite app_nil_r.
  - destruct (indexOf x current) as [i|].
    + destruct (IH (delete i current) penaltyAspects) as (kept & -> & Hsub).
      exists kept. split; [done|]. by apply sublist_cons.
    + destruct (IH current (penaltyAspects ++ [x])) as (kept & -> & Hsub).
      exists (x :: kept). rewrite <- app_assoc. split; [done|]. by apply sublist_skip.
Qed.

(** X4. [getPenaltyAspects] is the difference of multisets: each aspect
    occurs among the penalty aspects as often as it occurs among the cost
    aspects beyond its occurrences among the leader's and the base's
    aspects; the penalty aspects keep the order of the cost aspects; with
    no cost aspects passed there is no penalty. *)
Theorem getPenaltyAspects_difference (costAspects : list Aspect) s :
  allocated s →
  let playerAspects :=
    default [] (arrays s !! leaderAspects s) ++ default [] (arrays s !! baseAspects s) in
  let penaltyAspects := (getPenaltyAspects (Some costAspects) s).1 in
  (∀ a, count_occ EqDecision0 penaltyAspects a
        = (count_occ EqDecision0 costAspects a - count_occ EqDecision0 playerAspects a)%nat)
  ∧ sublist penaltyAspects costAspects
  ∧ (getPenaltyAspects None s).1 = []
  ∧ (getPenaltyAspects (Some []) s).1 = [].
Proof.
  intros Hs playerAspects penaltyAspects.
  destruct (getPenaltyAspects_spec (Some costAspects) s Hs) as [Hv _].
  fold penaltyAspects in Hv. fold playerAspects in Hv.
  split; [|split; [|split]].
  - intros a. rewrite Hv, penaltiesOf_count. simpl. lia.
  - rewrite Hv. destruct (penaltiesOf_sublist playerAspects costAspects [])
      as (kept & -> & Hsub). done.
  - done.
  - by destruct (getPenaltyAspects_spec (Some []) s Hs) as [-> _].
Qed.

Lemma aspectPenaltiesLoop_no_adjusters (playingType : PlayType) (card : Card)
    (target : option Target) ignoreType (penaltyAspects : list Aspect) (total : Z) s :
  costAdjusters s = [] →
  (aspectPenaltiesLoop playingType card target ignoreType penaltyAspects (JsNum.Finite total) s).1
  = JsNum.Finite (total + 2 * Z.of_nat (length penaltyAspects)).
Proof.
  intros Hnone. revert total.
  induction penaltyAspects as [|aspect rest IH]; intros total.
  - simpl. f_equal. lia.
  - cbn [aspectPenaltiesLoop]. unfold bind.
    assert (Hpass : runAdjustersForCostType playingType (JsNum.Finite 2) card target
                      ignoreType (Some aspect) s = (JsNum.Finite 2, s)).
    { unfold runAdjustersForCostType, bind, gets, ret, matchingAdjusters.
      rewrite Hnone. done. }
    rewrite Hpass. cbn [JsNum.add]. rewrite IH. f_equal. cbn [length]. lia.
Qed.

Lemma runAdjustersForCostType_finite (playingType : PlayType) (base : Z) (card : Card)
    (target : option Target) ignoreType (penaltyAspect : option Aspect) s :
  ∃ z, runAdjustersForCostType playingType (JsNum.Finite base) card target ignoreType
         penaltyAspect s = (JsNum.Finite z, s).
Proof.
  unfold runAdjustersForCostType, bind, gets, ret. cbn [JsNum.add JsNum.sub].
  destruct (JsNum.maxOf _); cbn [JsNum.min JsNum.max]; by eexists.
Qed.

Lemma aspectPenaltiesLoop_finite (playingType : PlayType) (card : Card)
    (target : option Target) ignoreType (penaltyAspects : list Aspect) (total : Z) s :
  ∃ z, aspectPenaltiesLoop playingType card target ignoreType penaltyAspects
         (JsNum.Finite total) s = (JsNum.Finite z, s).
Proof.
  revert total. induction penaltyAspects as [|aspect rest IH]; intros total.
  - by eexists.
  - cbn [aspectPenaltiesLoop]. unfold bind.
    destruct (runAdjustersForCostType_finite playingType 2 card target ignoreType
                (Some aspect) s) as (z & ->).
    cbn [JsNum.add]. apply IH.
Qed.

Lemma getAdjustedCost_finite (playingType : PlayType) (card : Card)
    (target : option Target) ignoreType (aspects : option (list Aspect)) s :
  ∃ z, (getAdjustedCost cardCost playingType card target ignoreType aspects s).1
       = JsNum.Finite z.
Proof.
  unfold getAdjustedCost, bind.
  destruct (getPenaltyAspects aspects s) as [p t].
  destruct (aspectPenaltiesLoop_finite playingType card target ignoreType p 0 t) as (z & ->).
  cbn [JsNum.add].
  destruct (runAdjustersForCostType_finite playingType (cardCost card + z) card target
              ignoreType None t) as (z' & ->).
  by eexists.
Qed.

(** X5. With no cost adjuster registered, the adjusted cost is the card's
    printed cost plus 2 for every penalty aspect. *)
Theorem getAdjustedCost_without_adjusters (playingType : PlayType) (card : Card)
    (target : option Target) (ignoreType : bool) (aspects : option (list Aspect)) s :
  allocated s → costAdjusters s = [] →
  (getAdjustedCost cardCost playingType card target ignoreType aspects s).1
  = JsNum.Finite
      (cardCost card + 2 * Z.of_nat (length (getPenaltyAspects aspects s).1)).
Proof.
  intros Hs Hnone.
  destruct (getPenaltyAspects_spec aspects s Hs) as [_ (Hadj & _)].
  unfold getAdjustedCost, bind.
  destruct (getPenaltyAspects aspects s) as [p t]. simpl in Hadj. cbn [fst].
  assert (Ht : costAdjusters t = []) by congruence.
  pose proof (aspectPenaltiesLoop_no_adjusters playingType card target ignoreType p 0 t Ht)
    as Hloop.
  destruct (aspectPenaltiesLoop_finite playingType card target ignoreType p 0 t) as (z & Hz).
  rewrite Hz in Hloop. simpl in Hloop. injection Hloop as ->. rewrite Hz.
  cbn [JsNum.add].
  unfold runAdjustersForCostType, bind, gets, ret, matchingAdjusters. rewrite Ht.
  simpl. f_equal. lia.
Qed.

(** X6. The adjusted cost is always a number, never [-Infinity], also when
    no adjuster matches; [getMinimumPossibleCost] is that number when it is
    not negative and 0 otherwise. *)
Theorem getMinimumPossibleCost_nonnegative (playingType : PlayType) (card : Card)
    (target : option Target) (ignoreType : bool) (costAspects : option (list Aspect)) s :
  ∃ adjusted,
    (getAdjustedCost cardCost playingType card target ignoreType costAspects s).1
    = JsNum.Finite adjusted
    ∧ (getMinimumPossibleCost cardCost playingType card target ignoreType costAspects s).1
      = JsNum.Finite (Z.max adjusted 0)
    ∧ 0 <= Z.max adjusted 0.
Proof.
  destruct (getAdjustedCost_finite playingType card target ignoreType costAspects s)
    as (z & Hz).
  exists z. split; [exact Hz|]. split; [|lia].
  unfold getMinimumPossibleCost, bind, ret.
  destruct (getAdjustedCost cardCost playingType card target ignoreType costAspects s)
    as [v t]. simpl in Hz. subst v. done.
Qed.

End MoreCostFacts.

(** ** Systems: properties, targets and events *)

Section MoreSystemFacts.

Import GameSystem EventGeneration SystemCalls.

Implicit Types (this : System) (g : State) (ctx : CtxId) (additionalProperties : Properties).

(** Precedence in [generatePropertiesFromContext]: every property is
    taken from the system's own properties (preset or computed) if they
    have it, else from the additional properties, else from the defaults;
    the target falls back, last, on the default targets.  The resolved
    target list is that target made an array, with null and undefined
    entries dropped. *)
Lemma generatePropertiesFromContext_precedence this g ctx additionalProperties :
  let own := configured this g ctx in
  let result := generatePropertiesFromContext this g ctx additionalProperties in
  cannotBeCancelled (generated result)
    = firstDefined [cannotBeCancelled own; cannotBeCancelled additionalProperties;
                    cannotBeCancelled (defaultProperties this)]
  ∧ optional (generated result)
    = firstDefined [optional own; optional additionalProperties;
                    optional (defaultProperties this)]
  ∧ destination (generated result)
    = firstDefined [destination own; destination additionalProperties;
                    destination (defaultProperties this)]
  ∧ GameSystem.target (generated result)
    = firstDefined [GameSystem.target own; GameSystem.target additionalProperties;
                    GameSystem.target (defaultProperties this);
                    Some (getDefaultTargets this g ctx)]
  ∧ targets result = normaliseTarget (GameSystem.target (generated result)).
Proof.
  unfold generatePropertiesFromContext, configured, assign. simpl.
  destruct (configuration this) as [own|factory]; simpl;
    repeat split; repeat case_match; done.
Qed.

(** X7. [resolve(target, context)] keeps the passed target as the system's
    default target, also for later calls; it is the target of the events
    only if neither the system's own properties nor the defaults name one:
    a target in the system's own properties wins over the one passed.  An
    undefined target leaves the system as it was. *)
Theorem resolve_target_precedence (target : TargetProperty) this g ctx :
  targetGiven target = true →
  getDefaultTargets (resolveReceiver target this) g ctx = target
  ∧ (GameSystem.target (configured this g ctx) = None →
     GameSystem.target (defaultProperties this) = None →
     targetsOf (resolveReceiver target this) g ctx noProperties
     = normaliseTarget (Some target))
  ∧ (∀ own, GameSystem.target (configured this g ctx) = Some own →
     targetsOf (resolveReceiver target this) g ctx noProperties
     = normaliseTarget (Some own))
  ∧ resolveReceiver (One None) this = this.
Proof.
  intros Hgiven. unfold resolveReceiver. rewrite Hgiven.
  split; [done|]. split; [|split; [|done]].
  - intros Hown Hdef.
    unfold targetsOf, generatePropertiesFromContext, configured, assign in *. simpl in *.
    destruct (configuration this); simpl in *; rewrite Hown, Hdef; done.
  - intros own Hown.
    unfold targetsOf, generatePropertiesFromContext, configured, assign in *. simpl in *.
    destruct (configuration this); simpl in *; rewrite Hown; done.
Qed.

Lemma hasLegalTargetLoop_existsb this g ctx additionalProperties candidates :
  hasLegalTargetLoop this g ctx additionalProperties candidates
  = existsb (fun t => canAffect this g t ctx additionalProperties) candidates.
Proof.
  induction candidates as [|c rest IH]; simpl; [done|].
  rewrite IH. by destruct (canAffect this g c ctx additionalProperties).
Qed.

Lemma allTargetsLegalLoop_forallb this g ctx additionalProperties candidates :
  allTargetsLegalLoop this g ctx additionalProperties candidates
  = forallb (fun t => canAffect this g t ctx additionalProperties) candidates.
Proof.
  induction candidates as [|c rest IH]; simpl; [done|].
  rewrite IH. by destruct (canAffect this g c ctx additionalProperties).
Qed.

Lemma filter_nil_existsb {A} (f : A → bool) (l : list A) :
  List.filter f l = [] ↔ existsb f l = false.
Proof.
  induction l as [|x l IH]; simpl; [done|].
  destruct (f x); simpl; [split; done|]. exact IH.
Qed.

Lemma filter_length_forallb {A} (f : A → bool) (l : list A) :
  length (List.filter f l) = length l ↔ forallb f l = true.
Proof.
  induction l as [|x l IH]; simpl; [done|].
  pose proof (List.filter_length_le f l) as Hle.
  destruct (f x); simpl.
  - rewrite <- IH. split; lia.
  - split; [lia|done].
Qed.

(** X8. [generateEventsForAllTargets] of GameSystem gives one event for
    each target that [canAffect] accepts, in the order of the targets, and
    none for the others: there is no event exactly when [hasLegalTarget] is
    false, and as many events as targets exactly when [allTargetsLegal] is
    true.  Every event carries the system's event name and the context. *)
Theorem generateEventsForAllTargets_legal_targets this g ctx additionalProperties :
  let events := generateEventsForAllTargets this g ctx additionalProperties in
  let legal :=
    List.filter (fun t => canAffect this g t ctx additionalProperties)
      (targetsOf this g ctx additionalProperties) in
  map GameEvent.checkFullyResolved events
    = map (fun t => GameEvent.SystemCheck this t ctx additionalProperties) legal
  ∧ (events = [] ↔ hasLegalTarget this g ctx additionalProperties = false)
  ∧ (length events = length (targetsOf this g ctx additionalProperties)
     ↔ allTargetsLegal this g ctx additionalProperties = true)
  ∧ (length events ≤ length (targetsOf this g ctx additionalProperties))%nat
  ∧ Forall (fun e => name (GameEvent.data e) = eventName this
                     ∧ GameSystem.context (GameEvent.data e) = Some ctx
                     ∧ cancelled (GameEvent.data e) = false) events.
Proof.
  intros events legal. subst events. unfold generateEventsForAllTargets. fold legal.
  split; [|split; [|split; [|split]]].
  - rewrite map_map. apply map_ext. intros t. apply generateEvent_data.
  - unfold hasLegalTarget. rewrite hasLegalTargetLoop_existsb, <- filter_nil_existsb.
    fold legal. destruct legal; simpl; split; done.
  - rewrite length_map. unfold allTargetsLegal.
    rewrite allTargetsLegalLoop_forallb. apply filter_length_forallb.
  - rewrite length_map. apply List.filter_length_le.
  - apply List.Forall_forall. intros e He. apply in_map_iff in He as (t & <- & _).
    destruct (generateEvent_data this g t ctx additionalProperties)
      as (_ & _ & _ & Hn & Hc & Hcan). done.
Qed.

(** X9. The check that [createEvent] installs answers for the event it is
    asked about: the event made by [generateEvent] is fully resolved for
    its own target as long as it is not cancelled, and not once it is; for
    a card target system, an event of the same system for another card is
    not fully resolved for this target. *)
Theorem generated_event_fully_resolved this g ctx additionalProperties
    (target other : PlayerOrCard) :
  let event := generateEvent this g target ctx additionalProperties in
  evalFullyResolved (GameEvent.checkFullyResolved event) (GameEvent.data event) = Some true
  ∧ evalFullyResolved (GameEvent.checkFullyResolved event)
      (GameEvent.data (GameEvent.cancel event)) = Some false
  ∧ (∀ filter, variant this = CardTarget filter → other ≠ target →
       evalFullyResolved (GameEvent.checkFullyResolved event)
         (GameEvent.data (generateEvent this g other ctx additionalProperties))
       = Some false).
Proof.
  intros event. subst event.
  unfold generateEvent, updateEvent, addPropertiesToEvent, createEvent, evalFullyResolved,
    isEventFullyResolved.
  destruct (variant this) as [valid|filter] eqn:Ev; simpl; rewrite ?Ev; simpl.
  - rewrite !bool_decide_eq_true_2 by done. split; [done|]. split; [done|]. done.
  - rewrite !bool_decide_eq_true_2 by done. split; [done|]. split; [done|].
    intros filter' _ Hne. rewrite bool_decide_eq_false_2; [done|congruence].
Qed.

End MoreSystemFacts.

(** ** Card target systems *)

Section MoreCardTargetFacts.

Import GameSystem EventGeneration CardTargetSystem.

Context {CostObject : Type}.
Variable unlessActionCosts : State → PlayerOrCard → list (UnlessActionCost CostObject).
Variable this : System.
Variable ctx : CtxId.
Variable additionalProperties : Properties.

Lemma no_costs_nothing_queued g (target : list PlayerOrCard) i :
  (∀ card, In card target → additionalCostsOf unlessActionCosts this g card = []) →
  queuedSteps unlessActionCosts this g i target = []
  ∧ map snd (immediateEvents unlessActionCosts this g ctx additionalProperties i target)
    = map (fun card => generateEvent this g card ctx additionalProperties) target.
Proof.
  revert i. induction target as [|card rest IH]; intros i Hnone; [done|].
  cbn [queuedSteps immediateEvents].
  rewrite (Hnone card) by (by left).
  destruct (IH (S i)) as [-> Hev]; [intros c Hc; apply Hnone; by right|].
  split; [done|]. cbn [app map snd]. by rewrite Hev.
Qed.

Lemma applyEvent_illegal g card filter :
  variant this = CardTarget filter →
  canAffect this g card ctx additionalProperties = false →
  applyEvent g (generateEvent this g card ctx additionalProperties) = (g, false).
Proof.
  intros Hv Hc.
  destruct (generateEvent_data this g card ctx additionalProperties)
    as (Hcond & _ & _ & _ & Hctx & Hcan).
  pose proof (generateEvent_card this g card ctx additionalProperties filter Hv) as Hcard.
  unfold applyEvent. rewrite Hcan, Hcond. cbn [evalCondition].
  unfold checkEventCondition. rewrite Hv, Hcard, Hctx, Hc. done.
Qed.

(** X10. A card target system never affects a player, whatever the state
    and the context: it has no legal target among players only, and an
    event it generates for a player has a false condition, so applying the
    event changes nothing.  With the filter it starts with, which admits
    any card, every card passes its type check. *)
Theorem card_target_system_needs_cards g filter :
  variant this = CardTarget filter →
  (∀ p, canAffect this g (APlayer p) ctx additionalProperties = false)
  ∧ ((∀ t, In t (targetsOf this g ctx additionalProperties) → ∃ p, t = APlayer p) →
     hasLegalTarget this g ctx additionalProperties = false)
  ∧ (∀ p, applyEvent g (generateEvent this g (APlayer p) ctx additionalProperties)
          = (g, false))
  ∧ (filter = [WildTyp AnyCard] → ∀ c, isTargetTypeValid this g (ACard c) = true).
Proof.
  intros Hv.
  assert (Hplayer : ∀ p, canAffect this g (APlayer p) ctx additionalProperties = false).
  { intros p. unfold canAffect, isTargetTypeValid. by rewrite Hv. }
  split; [exact Hplayer|]. split; [|split].
  - intros Hall.
    assert (Hnone : existsb (fun t => canAffect this g t ctx additionalProperties)
                      (targetsOf this g ctx additionalProperties) = false).
    { apply not_true_is_false. intros Hex. apply existsb_exists in Hex as (t & Ht & Hc).
      destruct (Hall t Ht) as (p & ->). by rewrite Hplayer in Hc. }
    unfold hasLegalTarget. by rewrite hasLegalTargetLoop_existsb.
  - intros p. by eapply applyEvent_illegal.
  - intros -> c. unfold isTargetTypeValid. by rewrite Hv.
Qed.

(** X11. [generateEventsForAllTargets] of CardTargetSystem, unlike the one
    it overrides, does not ask [canAffect]: when no target carries an
    additional cost for this system it queues nothing and returns one event
    for every target, in order, the illegal ones included.  The event of a
    target that [canAffect] rejects has a false condition, so applying it
    in that state changes nothing. *)
Theorem card_targets_are_not_filtered g :
  let target := targetsOf this g ctx additionalProperties in
  let r := generateEventsForAllTargets unlessActionCosts this g ctx additionalProperties in
  (∀ card, In card target → additionalCostsOf unlessActionCosts this g card = []) →
  queue r = []
  ∧ map snd (CardTargetSystem.events r)
    = map (fun card => generateEvent this g card ctx additionalProperties) target
  ∧ length (CardTargetSystem.events r) = length target
  ∧ (∀ filter card, variant this = CardTarget filter → In card target →
       canAffect this g card ctx additionalProperties = false →
       In (generateEvent this g card ctx additionalProperties)
          (map snd (CardTargetSystem.events r))
       ∧ applyEvent g (generateEvent this g card ctx additionalProperties) = (g, false)).
Proof.
  intros target r Hnone. subst r. unfold generateEventsForAllTargets. fold target.
  destruct (loop_spec unlessActionCosts this ctx additionalProperties target 0%nat
              (start g)) as (_ & _ & Hq & He & _).
  cbv zeta in Hq, He. simpl in Hq, He.
  destruct (no_costs_nothing_queued g target 0%nat Hnone) as [Hsteps Himm].
  rewrite Hsteps in Hq. rewrite Hq.
  assert (Hevents : map snd (CardTargetSystem.events
                      (loop unlessActionCosts this ctx additionalProperties 0 target (start g)))
                    = map (fun card => generateEvent this g card ctx additionalProperties)
                        target).
  { by rewrite He, Himm. }
  split; [done|]. split; [exact Hevents|]. split.
  - rewrite <- (length_map snd), Hevents. apply length_map.
  - intros filter card Hv Hin Hc. split; [|by eapply applyEvent_illegal].
    rewrite Hevents.
    by apply (in_map (fun card => generateEvent this g card ctx additionalProperties)).
Qed.

End MoreCardTargetFacts.

Section MoreLeavesPlayFacts.

Import GameSystem EventGeneration CardTargetSystem.

Variable defeat : System.
Variable getFrameworkContext : State → CtxId.
Variable defaultLegalLocationsForCardType : CardType → option (list LocationFilter).
Variable pileKey : list CardId → Location.
Variable runtime : Zones.Runtime.

(** X12. The contingent defeat of an attached upgrade is checked again
    when it is about to apply: its condition holds only if the defeat
    system can still affect the upgrade and the upgrade's parent is still
    the card of the primary event.  An upgrade that was attached to another
    card in between is not defeated. *)
Theorem contingent_event_revalidates g g' (primary : EventData) (upgrade : CardId) filter :
  variant defeat = CardTarget filter →
  let e := attachmentEventFor defeat getFrameworkContext g primary upgrade in
  evalCondition g' (GameEvent.data e) (GameEvent.condition e)
    = Some (canAffect defeat g' (ACard upgrade) (getFrameworkContext g) noProperties
            && bool_decide (ACard <$> parentCard (cards g' upgrade) = card primary))
  ∧ (ACard <$> parentCard (cards g' upgrade) ≠ card primary →
     applyEvent g' e = (g', false))
  ∧ (canAffect defeat g' (ACard upgrade) (getFrameworkContext g) noProperties = true →
     ACard <$> parentCard (cards g' upgrade) = card primary →
     applyEvent g' e
     = (eventHandler defeat (GameEvent.data e) noProperties g', true)).
Proof.
  intros Hv e.
  assert (Hcond : GameEvent.condition e
                  = GameEvent.AttachedCondition
                      (GameEvent.SystemCondition defeat noProperties) upgrade (card primary)).
  { apply attachmentEventFor_data. }
  assert (Hdata : card (GameEvent.data e) = Some (ACard upgrade)
                  ∧ GameSystem.context (GameEvent.data e) = Some (getFrameworkContext g)
                  ∧ cancelled (GameEvent.data e) = false
                  ∧ GameEvent.handler e = GameEvent.SystemHandler defeat noProperties).
  { subst e. unfold attachmentEventFor, generateEvent, updateEvent, addPropertiesToEvent,
      createEvent. rewrite Hv. done. }
  destruct Hdata as (Hcard & Hctx & Hcan & Hh).
  assert (Heval : evalCondition g' (GameEvent.data e) (GameEvent.condition e)
                  = Some (canAffect defeat g' (ACard upgrade) (getFrameworkContext g)
                            noProperties
                          && bool_decide (ACard <$> parentCard (cards g' upgrade)
                                          = card primary))).
  { rewrite Hcond. cbn [evalCondition]. unfold checkEventCondition.
    rewrite Hv, Hcard, Hctx. by destruct (canAffect _ _ _ _ _). }
  split; [exact Heval|]. split.
  - intros Hne. unfold applyEvent. rewrite Hcan, Heval.
    rewrite (bool_decide_eq_false_2 _ Hne), andb_false_r. done.
  - intros Hc Hp. unfold applyEvent. rewrite Hcan, Heval, Hc.
    rewrite (bool_decide_eq_true_2 _ Hp), Hh. done.
Qed.

(** X13. The handler and the event it is written for: on an event that
    [addLeavesPlayPropertiesToEvent] prepared for a card, the handler
    always reaches [moveCard]; the zone it passes is the destination of the
    system's properties, the discard pile if they have none, or, when that
    zone is not legal for the card's type, the deck, and a message is
    written exactly in the last case. *)
Theorem leavesPlayEventHandler_on_prepared_event this g g' event c ctx
    additionalProperties filter :
  variant this = CardTarget filter →
  let primary :=
    GameEvent.data
      (addLeavesPlayPropertiesToEvent this g event (ACard c) ctx additionalProperties) in
  let intended :=
    default Discard
      (destination (generated (generatePropertiesFromContext this g ctx additionalProperties))) in
  let player := owner (cards g' c) in
  let opts := default {| bottom := false |} (options primary) in
  let legal :=
    Zones.isLegalLocationForCardType defaultLegalLocationsForCardType g' player
      (type (cards g' c)) (Some intended) in
  let moveCard := Zones.moveCard defaultLegalLocationsForCardType pileKey runtime in
  leavesPlayEventHandler defaultLegalLocationsForCardType pileKey runtime primary g'
  = if legal
    then (λ g'', (primary, g'')) <$> moveCard player c intended opts g'
    else (λ g'', (GameEvent.setDestination Deck primary, g''))
           <$> moveCard player c Deck opts
                 (addMessage (IllegalLocationMessage (Some intended) c) g').
Proof.
  intros Hv primary intended player opts legal moveCard.
  destruct (addLeavesPlayPropertiesToEvent_data this g event c ctx additionalProperties
              filter Hv) as (_ & Hcard & _ & Hdest).
  cbv zeta in Hcard, Hdest. fold primary in Hcard, Hdest. fold intended in Hdest.
  unfold leavesPlayEventHandler. rewrite Hcard, Hdest. fold player. fold legal.
  destruct legal; cbn [negb].
  - rewrite Hdest. fold opts. fold moveCard. by destruct (moveCard _ _ _ _ _).
  - change ((g'' ← moveCard player c Deck opts
                     (addMessage (IllegalLocationMessage (Some intended) c) g');
             Some (GameEvent.setDestination Deck primary, g''))
            = (λ g'', (GameEvent.setDestination Deck primary, g''))
                <$> moveCard player c Deck opts
                      (addMessage (IllegalLocationMessage (Some intended) c) g')).
    by destruct (moveCard _ _ _ _ _).
Qed.

End MoreLeavesPlayFacts.

(** ** Asking for a pile, and removing a card from one *)

Section PileFacts.

Import GameSystem Zones.

Implicit Types (t g : State) (p : Piles) (card c : CardId).

Lemma players_assign_other slot v g other :
  (∀ zone, slot ≠ Field other zone) → (∀ name, slot ≠ AdditionalPile other name) →
  players (assign slot v g) other = players g other.
Proof.
  intros Hfield Hpile. destruct slot as [player zone|player name|name| |]; try done.
  - simpl. rewrite bool_decide_eq_false_2; [done|]. intros ->. by destruct (Hfield zone).
  - simpl. rewrite bool_decide_eq_false_2; [done|]. intros ->. by destruct (Hpile name).
Qed.

Lemma lookupPile_created this name g :
  lookupPile this name (createAdditionalPile this name g) = Some OwnPile.
Proof.
  unfold lookupPile, createAdditionalPile. rewrite additionalPiles_assign.
  by rewrite bool_decide_eq_true_2.
Qed.

Lemma getCardPile_additional this name g :
  name ≠ EmptyString →
  getCardPile this (Some (OtherLocation name)) g
  = match lookupPile this (OtherLocation name) g with
    | Some _ => (slot ← additionalCards this (OtherLocation name) g; arrayAt slot g, g)
    | None =>
        (slot ← additionalCards this (OtherLocation name)
                  (createAdditionalPile this (OtherLocation name) g);
         arrayAt slot (createAdditionalPile this (OtherLocation name) g),
         createAdditionalPile this (OtherLocation name) g)
    end.
Proof.
  intros Hname. unfold getCardPile. rewrite bool_decide_eq_false_2 by done.
  by destruct (lookupPile this (OtherLocation name) g).
Qed.

(** X14. [getCardPile] makes the zone it is asked for legal: after it has
    been asked for a zone with a non-empty name that is not a field of the
    player, [isLegalLocationForCardType] accepts that zone for every card
    type, whatever the legal zones of the type are; asked again it returns
    the same, and it leaves the fields and every other pile alone.  For a
    name under which [this.additionalPiles] has nothing it creates an empty
    pile and returns it; a pile that is there is returned, nothing
    created.  A name that every object inherits (such as [constructor]) is
    not a name with nothing under it: no pile is created for it, and what
    is returned is the [cards] of the inherited object, undefined unless
    something was stored there or on the prototype. *)
Theorem getCardPile_makes_zone_legal g (player : PlayerId) (name : string) :
  name ≠ EmptyString →
  let zone := OtherLocation name in
  let asked := getCardPile player (Some zone) g in
  (∀ defaultLegalLocationsForCardType cardType,
     isLegalLocationForCardType defaultLegalLocationsForCardType asked.2 player cardType
       (Some zone) = true)
  ∧ getCardPile player (Some zone) asked.2 = asked
  ∧ (∀ q l, (q, l) ≠ (player, zone) →
       additionalPiles (players asked.2 q) l = additionalPiles (players g q) l)
  ∧ (∀ q z, isField z = true → arrayAt (Field q z) asked.2 = arrayAt (Field q z) g)
  ∧ (lookupPile player zone g = None →
     asked.1 = Some [] ∧ additionalPiles (players asked.2 player) zone = Some [])
  ∧ (∀ pile, additionalPiles (players g player) zone = Some pile → asked = (Some pile, g))
  ∧ (∀ object, lookupPile player zone g = Some object → asked.2 = g)
  ∧ (additionalPiles (players g player) zone = None →
     isInherited zone = true ∨ zone = protoName →
     asked.2 = g
     ∧ additionalPiles (players asked.2 player) zone = None
     ∧ (memberCards (objectPrototype g) zone = None →
        prototypeCards (objectPrototype g) = None → asked.1 = None)).
Proof.
  intros Hname zone asked. subst asked. subst zone.
  rewrite (getCardPile_additional player name g Hname).
  set (zone := OtherLocation name).
  destruct (lookupPile player zone g) as [object|] eqn:Hlook; cbn [fst snd].
  - subst zone. rewrite (getCardPile_additional player name g Hname).
    set (zone := OtherLocation name) in *. rewrite Hlook.
    split.
    { intros defaults cardType. unfold isLegalLocationForCardType.
      change (default undefinedName (Some zone)) with zone. by rewrite Hlook. }
    split; [done|]. split; [done|]. split; [done|]. split; [done|]. split.
    { intros pile Hpile. f_equal. unfold additionalCards. rewrite Hlook.
      unfold lookupPile in Hlook. rewrite Hpile in Hlook. injection Hlook as <-.
      cbn [mbind option_bind cardsOf arrayAt]. exact Hpile. }
    split; [done|].
    intros Hnone Hinherited. split; [done|]. split; [done|].
    intros Hmember Hprototype. unfold additionalCards. rewrite Hlook.
    unfold lookupPile in Hlook. rewrite Hnone in Hlook.
    destruct Hinherited as [Hinherited| ->].
    + case_bool_decide as Hproto.
      * injection Hlook as <-. simpl. unfold inheritedCards. by rewrite Hprototype.
      * rewrite Hinherited in Hlook. injection Hlook as <-. simpl.
        fold zone. rewrite Hmember. unfold inheritedCards. by rewrite Hprototype.
    + rewrite bool_decide_eq_true_2 in Hlook by done. injection Hlook as <-. simpl.
      unfold inheritedCards. by rewrite Hprototype.
  - subst zone. rewrite (getCardPile_additional player name _ Hname).
    set (zone := OtherLocation name) in *.
    rewrite lookupPile_created.
    assert (Hown : additionalPiles (players (createAdditionalPile player zone g) player) zone
                   = Some []).
    { unfold createAdditionalPile. rewrite additionalPiles_assign.
      by rewrite bool_decide_eq_true_2. }
    assert (Hcards : (slot ← additionalCards player zone (createAdditionalPile player zone g);
                      arrayAt slot (createAdditionalPile player zone g)) = Some []).
    { unfold additionalCards. rewrite lookupPile_created.
      cbn [mbind option_bind cardsOf arrayAt]. exact Hown. }
    rewrite Hcards.
    split.
    { intros defaults cardType. unfold isLegalLocationForCardType.
      change (default undefinedName (Some zone)) with zone.
      by rewrite lookupPile_created. }
    split; [done|]. split.
    { intros q l Hne. unfold createAdditionalPile. rewrite additionalPiles_assign.
      rewrite bool_decide_eq_false_2; [done|]. intros [= -> ->]. done. }
    split.
    { intros q z Hz. unfold createAdditionalPile. rewrite arrayAt_assign_field by done.
      by rewrite bool_decide_eq_false_2. }
    split; [done|]. split.
    { intros pile Hpile. unfold lookupPile in Hlook. by rewrite Hpile in Hlook. }
    split; [done|].
    intros Hnone [Hinherited| Hproto]; unfold lookupPile in Hlook; rewrite Hnone in Hlook.
    + rewrite Hinherited in Hlook. by case_bool_decide.
    + by rewrite bool_decide_eq_true_2 in Hlook.
Qed.

Section RemovalFacts.

Variable pileKey : list CardId → Location.

Lemma removeCardByUuid_spec t pile u c :
  In c (removeCardByUuid t pile u) ↔ In c pile ∧ uuid (cards t c) ≠ u.
Proof.
  unfold removeCardByUuid. rewrite filter_In. rewrite negb_true_iff, bool_decide_eq_false.
  done.
Qed.

Lemma getCardPile_players_other this source g other :
  other ≠ this → players (getCardPile this source g).2 other = players g other.
Proof.
  intros Hother. destruct source as [[| | | | | | | | |name]|]; try done.
  unfold getCardPile. case_bool_decide; [done|]. cbn [snd].
  destruct (lookupPile this (OtherLocation name) g); [done|].
  unfold createAdditionalPile. apply players_assign_other; congruence.
Qed.

Lemma removeFromOwnPile_players_other holder card g other :
  other ≠ holder → players (removeFromOwnPile pileKey holder card g) other = players g other.
Proof.
  intros Hother. unfold removeFromOwnPile.
  pose proof (getCardPile_players_other holder (Some (location (cards g card))) g other
                Hother) as Hget.
  destruct (getCardPile holder (Some (location (cards g card))) g) as [[pile|] g1];
    cbn [fst snd] in *; [|done].
  rewrite <- Hget.
  destruct (location (cards g card)); try (apply players_assign_other; congruence);
    (destruct (lookupPile holder (pileKey pile) g1) as [object|]; [|done];
     apply players_assign_other; destruct object; simpl; congruence).
Qed.

(** X15. [removeCardFromPile] works on the piles of the card's controller,
    whoever it is called on, and on nobody else's.  For a card whose
    location is one of the two arenas, the hand, the deck, the discard
    pile, the removed-from-game pile or the leader zone, the pile of that
    location afterwards is the old one without the cards that have the
    card's uuid, the others in their order; the card itself is gone from
    it. *)
Theorem removeCardFromPile_removes this card t :
  let holder := controller (cards t card) in
  let zone := location (cards t card) in
  let t' := removeCardFromPile pileKey this card t in
  cards t' = cards t
  ∧ (∀ other, other ≠ holder → players t' other = players t other)
  ∧ (In zone [SpaceArena; GroundArena; Hand; Deck; Discard; RemovedFromGame; Leader] →
     ∃ pile,
       (getCardPile holder (Some zone) t).1 = Some pile
       ∧ (getCardPile holder (Some zone) t').1
         = Some (removeCardByUuid t pile (uuid (cards t card)))
       ∧ ¬ In card (removeCardByUuid t pile (uuid (cards t card)))
       ∧ (∀ c, uuid (cards t c) ≠ uuid (cards t card) →
            In c pile → In c (removeCardByUuid t pile (uuid (cards t card))))).
Proof.
  intros holder zone t'. subst t'. rewrite removeCardFromPile_controller. fold holder.
  split; [apply removeFromOwnPile_cards|]. split.
  { intros other Hother. by apply removeFromOwnPile_players_other. }
  intros Hzone.
  assert (Hfield : isField zone = true).
  { simpl in Hzone. by destruct Hzone as [<-|[<-|[<-|[<-|[<-|[<-|[<-|[]]]]]]]]. }
  assert (Hrem : ∀ pile, ¬ In card (removeCardByUuid t pile (uuid (cards t card)))).
  { intros pile Hin. apply removeCardByUuid_spec in Hin. by destruct Hin. }
  assert (Hkeep : ∀ pile c, uuid (cards t c) ≠ uuid (cards t card) → In c pile →
                    In c (removeCardByUuid t pile (uuid (cards t card)))).
  { intros pile c Hne Hin. by apply removeCardByUuid_spec. }
  destruct (getCardPile_field holder (Some zone) t) as [_ Hget].
  rewrite (Hget zone eq_refl Hfield).
  destruct (getCardPile_field holder (Some zone) (removeFromOwnPile pileKey holder card t))
    as [_ Hget'].
  rewrite (Hget' zone eq_refl Hfield). cbn [fst].
  destruct (removeFromOwnPile_field pileKey holder card t holder zone Hfield) as [_ ->].
  fold zone. rewrite !bool_decide_eq_true_2 by done.
  assert (Hpile : ∃ pile, arrayAt (Field holder zone) t = Some pile)
    by (destruct zone; try done; by eexists).
  destruct Hpile as [pile Hpile]. rewrite Hpile. exists pile. split; [done|].
  split; [|split; [apply Hrem|apply Hkeep]].
  simpl in Hzone.
  by destruct Hzone as [<-|[<-|[<-|[<-|[<-|[<-|[<-|[]]]]]]]].
Qed.

(** X16. What [removeCardFromPile] never does: it assigns neither
    [resources] nor [baseZone], of any player.  A card whose location is
    the resource zone or the base zone is still in its pile afterwards; and
    a card in an additional pile is taken out of it only if the pile is
    named as the array of its cards reads as a property key. *)
Theorem removeCardFromPile_keeps_resources_and_base this card t :
  let holder := controller (cards t card) in
  let zone := location (cards t card) in
  let t' := removeCardFromPile pileKey this card t in
  (∀ player, resources (players t' player) = resources (players t player)
             ∧ baseZone (players t' player) = baseZone (players t player))
  ∧ (In zone [Resource; Base] →
     (getCardPile holder (Some zone) t').1
     = (getCardPile holder (Some zone) t).1)
  ∧ (∀ name pile, zone = OtherLocation name →
       additionalPiles (players t holder) zone = Some pile →
       pileKey pile ≠ zone →
       additionalPiles (players t' holder) zone = Some pile).
Proof.
  cbv zeta. rewrite removeCardFromPile_controller.
  set (holder := controller (cards t card)).
  assert (Hfixed : ∀ player,
            resources (players (removeFromOwnPile pileKey holder card t) player)
            = resources (players t player)
            ∧ baseZone (players (removeFromOwnPile pileKey holder card t) player)
              = baseZone (players t player)).
  { intros player.
    destruct (removeFromOwnPile_field pileKey holder card t player Resource eq_refl)
      as [_ Hres].
    destruct (removeFromOwnPile_field pileKey holder card t player Base eq_refl)
      as [_ Hbase].
    rewrite (bool_decide_eq_true_2 (Resource = Resource)) in Hres by done.
    rewrite (bool_decide_eq_true_2 (Base = Base)) in Hbase by done.
    rewrite !andb_false_r in Hres. rewrite !andb_false_r in Hbase.
    simpl in Hres, Hbase. split; congruence. }
  split; [exact Hfixed|]. split.
  - destruct (Hfixed holder) as [Hres Hbase].
    simpl. intros [Hz|[Hz|[]]]; rewrite <- Hz; simpl; by f_equal.
  - intros name pile Hz Hpile Hkey. unfold removeFromOwnPile. rewrite Hz in *.
    assert (Hlook : lookupPile holder (OtherLocation name) t = Some OwnPile).
    { unfold lookupPile. by rewrite Hpile. }
    unfold getCardPile. case_bool_decide as Hempty; [done|].
    rewrite Hlook. unfold additionalCards. rewrite Hlook.
    cbn [mbind option_bind cardsOf arrayAt]. rewrite Hpile.
    destruct (lookupPile holder (pileKey pile) t) as [object|] eqn:Hobject; [|done].
    rewrite additionalPiles_assign. rewrite bool_decide_eq_false_2; [done|].
    destruct object; simpl; congruence.
Qed.

End RemovalFacts.

End PileFacts.

Section ResourceFacts.

Import Zones.

Implicit Types (t : State) (card c : CardId) (pile : list CardId).

Lemma count_fold (f : CardId → bool) pile (n : nat) :
  fold_left (fun count card => (count + if f card then 1 else 0)%nat) pile n
  = (n + length (List.filter f pile))%nat.
Proof.
  revert n. induction pile as [|card rest IH]; intros n; simpl; [lia|].
  rewrite IH. destruct (f card); simpl; lia.
Qed.

Lemma countSpendableResources_length this t :
  countSpendableResources this t
  = length (List.filter (isReady t) (resources (players t this))).
Proof. unfold countSpendableResources. by rewrite count_fold. Qed.

Lemma exhausted_fold_none t pile :
  fold_left
    (fun count card =>
       match count, exhausted (cards t card) with
       | Some n, Some b => Some (n + if b then 1 else 0)%nat
       | _, _ => None
       end) pile None = None.
Proof. induction pile as [|card rest IH]; simpl; [done|]. exact IH. Qed.

Lemma exhausted_fold t pile (n : nat) :
  fold_left
    (fun count card =>
       match count, exhausted (cards t card) with
       | Some n, Some b => Some (n + if b then 1 else 0)%nat
       | _, _ => None
       end) pile (Some n)
  = if forallb (fun card => bool_decide (exhausted (cards t card) ≠ None)) pile
    then Some (n + length (List.filter (fun card => negb (isReady t card)) pile))%nat
    else None.
Proof.
  revert n. induction pile as [|card rest IH]; intros n; simpl.
  { f_equal. lia. }
  unfold isReady at 1. destruct (exhausted (cards t card)) as [b|]; simpl.
  - rewrite IH. destruct (forallb _ rest); [|done]. f_equal.
    destruct b; simpl; lia.
  - apply exhausted_fold_none.
Qed.

Lemma filter_complement (f : CardId → bool) pile :
  (length (List.filter f pile) + length (List.filter (fun c => negb (f c)) pile))%nat
  = length pile.
Proof. induction pile as [|c rest IH]; simpl; [done|]. destruct (f c); simpl; lia. Qed.

(** X17. The two resource counts.  A resource whose [exhausted] flag is
    undefined counts as spendable, and makes the count of exhausted
    resources NaN; when every flag is a boolean, the two counts add up to
    the number of resources. *)
Theorem resource_counts this t :
  let pile := resources (players t this) in
  (countSpendableResources this t ≤ length pile)%nat
  ∧ (countExhaustedResources this t = None
     ↔ ∃ card, In card pile ∧ exhausted (cards t card) = None)
  ∧ (∀ n, countExhaustedResources this t = Some n →
          (n + countSpendableResources this t)%nat = length pile)
  ∧ (∀ card, In card pile → exhausted (cards t card) = None → isReady t card = true).
Proof.
  intros pile. rewrite countSpendableResources_length. fold pile.
  unfold countExhaustedResources. fold pile. rewrite exhausted_fold.
  pose proof (filter_complement (isReady t) pile) as Hsum.
  split; [lia|]. split; [|split].
  - destruct (forallb _ pile) eqn:Eall.
    + split; [done|]. intros (card & Hin & Hnone).
      rewrite forallb_forall in Eall. specialize (Eall card Hin).
      apply bool_decide_eq_true in Eall. done.
    + split; [|done]. intros _.
      assert (Hex : existsb (fun card => negb (bool_decide (exhausted (cards t card) ≠ None)))
                      pile = true).
      { clear Hsum. induction pile as [|c rest IH]; simpl in *; [done|].
        destruct (bool_decide (exhausted (cards t c) ≠ None)); simpl in *; [by apply IH|done]. }
      apply existsb_exists in Hex. destruct Hex as (card & Hin & Hcard).
      exists card. split; [done|].
      apply negb_true_iff, bool_decide_eq_false in Hcard.
      destruct (exhausted (cards t card)); [by destruct Hcard|done].
  - intros n. destruct (forallb _ pile); [|done]. intros [= <-]. lia.
  - intros card _ Hnone. unfold isReady. by rewrite Hnone.
Qed.

Lemma setExhausted_fold t (chosen : list CardId) :
  players (fold_left (fun t card => setExhausted card true t) chosen t) = players t
  ∧ ∀ c, isReady (fold_left (fun t card => setExhausted card true t) chosen t) c
         = isReady t c && negb (bool_decide (c ∈ chosen)).
Proof.
  revert t. induction chosen as [|card rest IH]; intros t.
  { split; [done|]. intros c. cbn [fold_left].
    rewrite bool_decide_eq_false_2 by apply not_elem_of_nil. by rewrite andb_true_r. }
  cbn [fold_left]. destruct (IH (setExhausted card true t)) as [Hp Hr].
  split; [by rewrite Hp|]. intros c. rewrite Hr.
  unfold isReady at 1. simpl. case_bool_decide as Hc.
  - subst c. simpl. rewrite (bool_decide_eq_true_2 (card ∈ card :: rest)) by left.
    simpl. by rewrite andb_false_r.
  - fold (isReady t c). f_equal. f_equal. apply bool_decide_ext.
    rewrite elem_of_cons. split; [by right|]. intros [Heq|Hin]; [by subst|done].
Qed.

Lemma filter_both (f g : CardId → bool) pile :
  List.filter (fun c => f c && g c) pile = List.filter g (List.filter f pile).
Proof.
  induction pile as [|c rest IH]; simpl; [done|].
  destruct (f c); simpl; [|done]. destruct (g c); simpl; by rewrite IH.
Qed.

Lemma filter_all (f : CardId → bool) pile :
  (∀ c, In c pile → f c = true) → List.filter f pile = pile.
Proof.
  induction pile as [|c rest IH]; intros Hall; simpl; [done|].
  rewrite (Hall c) by (by left). f_equal. apply IH. intros c' Hc'. apply Hall. by right.
Qed.

Lemma filter_NoDup (f : CardId → bool) pile : NoDup pile → NoDup (List.filter f pile).
Proof.
  induction pile as [|c rest IH]; simpl; [done|].
  rewrite NoDup_cons. intros [Hc Hrest]. destruct (f c); [|by apply IH].
  apply NoDup_cons. split; [|by apply IH].
  rewrite list_elem_of_In, filter_In, <- list_elem_of_In. by intros [? _].
Qed.

Lemma filter_out_prefix pile (k : nat) :
  NoDup pile →
  List.filter (fun c => negb (bool_decide (c ∈ take k pile))) pile = drop k pile.
Proof.
  revert k. induction pile as [|a rest IH]; intros k Hnd; [by destruct k|].
  apply NoDup_cons in Hnd as [Ha Hrest].
  destruct k as [|k].
  { apply filter_all. intros c _. cbn [take].
    by rewrite bool_decide_eq_false_2 by apply not_elem_of_nil. }
  cbn [take drop List.filter].
  rewrite (bool_decide_eq_true_2 (a ∈ a :: take k rest)) by left. cbn [negb].
  rewrite <- (IH k Hrest). apply List.filter_ext_in. intros c Hc.
  f_equal. apply bool_decide_ext. rewrite elem_of_cons. split; [|by right].
  intros [Heq|Hin]; [|done]. subst c. destruct Ha. by apply list_elem_of_In.
Qed.

(** X18. [exhaustResources(count)] exhausts the first [count] ready
    resources, all of them if there are fewer and none if [count] is not
    positive: when no card is listed twice among the resources, the number
    of spendable resources goes down by exactly that many.  No pile
    changes, and a card that was not ready is left as it was. *)
Theorem exhaustResources_spends this (count : Z) t :
  NoDup (resources (players t this)) →
  let t' := exhaustResources this count t in
  players t' = players t
  ∧ countSpendableResources this t'
    = (countSpendableResources this t - Z.to_nat count)%nat
  ∧ (∀ c, isReady t c = false → isReady t' c = false)
  ∧ (∀ c, isReady t c = true → isReady t' c = false →
          In c (take (Z.to_nat count) (List.filter (isReady t) (resources (players t this))))).
Proof.
  intros Hnd t'. subst t'. unfold exhaustResources.
  set (ready := List.filter (isReady t) (resources (players t this))).
  set (k := Z.to_nat (Z.min count (Z.of_nat (length ready)))).
  destruct (setExhausted_fold t (take k ready)) as [Hp Hr].
  assert (Hk : k = Nat.min (Z.to_nat count) (length ready)) by (subst k; lia).
  assert (Htake : take k ready = take (Z.to_nat count) ready).
  { rewrite Hk. destruct (Nat.le_ge_cases (Z.to_nat count) (length ready)) as [Hle|Hge].
    - by rewrite Nat.min_l.
    - rewrite Nat.min_r by done. rewrite !take_ge by lia. done. }
  split; [exact Hp|]. split; [|split].
  - rewrite !countSpendableResources_length, Hp. fold ready.
    rewrite (List.filter_ext _ _ Hr), filter_both. fold ready.
    rewrite filter_out_prefix by (by apply filter_NoDup).
    rewrite length_drop. lia.
  - intros c Hc. by rewrite Hr, Hc.
  - intros c Hc Hc'. rewrite Hr, Hc in Hc'. simpl in Hc'.
    apply negb_false_iff, bool_decide_eq_true in Hc'.
    rewrite <- Htake. by apply list_elem_of_In.
Qed.

(** The cards a card brings into a search: itself and its direct
    upgrades. *)
Lemma findCards_fold t cardList (predicate : CardId → bool) (found : list CardId) :
  fold_left
    (fun cardsToReturn card =>
       let cardsToReturn :=
         if predicate card then cardsToReturn ++ [card] else cardsToReturn in
       match upgrades (cards t card) with
       | Some attached => cardsToReturn ++ List.filter predicate attached
       | None => cardsToReturn
       end)
    cardList found
  = found ++ flat_map
               (fun card => List.filter predicate
                              (card :: default [] (upgrades (cards t card))))
               cardList.
Proof.
  revert found. induction cardList as [|card rest IH]; intros found.
  { simpl. by rewrite app_nil_r. }
  cbn [fold_left flat_map]. rewrite IH. cbn [List.filter].
  destruct (predicate card), (upgrades (cards t card)) as [attached|]; simpl;
    rewrite <- ?app_assoc; simpl; by rewrite ?app_nil_r.
Qed.

(** X19. [findCards] returns, in the order of the list, each card of the
    list that satisfies the predicate followed by those of its upgrades
    that do; upgrades of upgrades are not looked at.  [findCard] returns
    the first of them, and undefined exactly when no card of the list and
    no upgrade of one satisfies the predicate. *)
Theorem findCards_searches_cards_and_upgrades t cardList (predicate : CardId → bool) :
  findCards t cardList predicate
  = flat_map (fun card => List.filter predicate
                            (card :: default [] (upgrades (cards t card)))) cardList
  ∧ (∀ c, In c (findCards t cardList predicate)
          ↔ predicate c = true
            ∧ (In c cardList
               ∨ ∃ host attached, In host cardList
                                  ∧ upgrades (cards t host) = Some attached
                                  ∧ In c attached))
  ∧ findCard t cardList predicate = head (findCards t cardList predicate)
  ∧ (findCard t cardList predicate = None
     ↔ ∀ host, In host cardList →
         predicate host = false
         ∧ ∀ attached c, upgrades (cards t host) = Some attached → In c attached →
                         predicate c = false).
Proof.
  assert (Hform : findCards t cardList predicate
                  = flat_map (fun card => List.filter predicate
                                (card :: default [] (upgrades (cards t card)))) cardList).
  { unfold findCards. by rewrite findCards_fold. }
  assert (Hin : ∀ c, In c (findCards t cardList predicate)
                     ↔ predicate c = true
                       ∧ (In c cardList
                          ∨ ∃ host attached, In host cardList
                                             ∧ upgrades (cards t host) = Some attached
                                             ∧ In c attached)).
  { intros c. rewrite Hform, in_flat_map. split.
    - intros (host & Hhost & Hc). apply filter_In in Hc as [Hc Hp]. split; [done|].
      destruct Hc as [->|Hc]; [by left|]. right.
      destruct (upgrades (cards t host)) as [attached|] eqn:E; [|done].
      by exists host, attached.
    - intros [Hp [Hc|(host & attached & Hhost & E & Hc)]].
      + exists c. split; [done|]. apply filter_In. split; [by left|done].
      + exists host. split; [done|]. apply filter_In. split; [|done].
        right. by rewrite E. }
  split; [exact Hform|]. split; [exact Hin|]. split.
  { unfold findCard. by destruct (findCards t cardList predicate). }
  unfold findCard. split.
  - intros Hnone host Hhost.
    assert (Hempty : ∀ c, ¬ In c (findCards t cardList predicate)).
    { intros c. destruct (findCards t cardList predicate); [by intros []|done]. }
    split.
    + destruct (predicate host) eqn:Ep; [|done].
      destruct (Hempty host). apply Hin. split; [done|by left].
    + intros attached c E Hc. destruct (predicate c) eqn:Ep; [|done].
      destruct (Hempty c). apply Hin. split; [done|]. right. by exists host, attached.
  - intros Hall. destruct (findCards t cardList predicate) as [|c rest] eqn:E; [done|].
    assert (Hc : In c (c :: rest)) by (by left).
    apply Hin in Hc as [Hp [Hc|(host & attached & Hhost & Eu & Hc)]].
    + destruct (Hall c Hc) as [Hf _]. congruence.
    + destruct (Hall host Hhost) as [_ Hf]. specialize (Hf attached c Eu Hc). congruence.
Qed.

End ResourceFacts.

(** ** Resolutions as a whole *)

Section MoreResolverFacts.

Import AbilityResolver Resolution.

Implicit Types (env : Environment) (r : Resolver) (s : Step) (pipeline : list Step).

(** X20. Every resolution ends, whatever the ability, the events and the
    player do: each step queues steps of smaller weight, so twenty steps
    empty the pipeline of a new resolver, and further fuel changes
    nothing. *)
Theorem resolution_terminates env (extra : nat) :
  (resolve (20 + extra) env).1.2 = []
  ∧ resolve (20 + extra) env = resolve 20 env
  ∧ (∀ s r, (totalWeight (step env s r).1.2 < weight s)%nat)
  ∧ (∀ pipeline r, (run (totalWeight pipeline) env pipeline r).1.2 = []).
Proof.
  destruct (resolve_completes env extra) as [Hdone Hsame].
  split; [exact Hdone|]. split; [exact Hsame|]. split.
  - intros s r. apply step_weight.
  - intros pipeline r. by apply run_completes.
Qed.

Lemma messagesAdded_app (effects later : list Effect) :
  messagesAdded (effects ++ later) = (messagesAdded effects + messagesAdded later)%nat.
Proof. unfold messagesAdded. by rewrite List.filter_app, length_app. Qed.

Lemma messagesAdded_cancels (es : list GameEvent.t) :
  messagesAdded (map EventCancelCalled es) = 0%nat.
Proof. by induction es. Qed.

Lemma handlerExecutions_app (effects later : list Effect) :
  handlerExecutions (effects ++ later)
  = (handlerExecutions effects + handlerExecutions later)%nat.
Proof. unfold handlerExecutions. by rewrite List.filter_app, length_app. Qed.

Lemma handlerExecutions_cancels (es : list GameEvent.t) :
  handlerExecutions (map EventCancelCalled es) = 0%nat.
Proof. by induction es. Qed.

(** A cancelled resolver writes no message. *)
Lemma step_silent env s r :
  cancelled r = true → messagesAdded (step env s r).2 = 0%nat.
Proof.
  intros Hc. destruct s; simpl; rewrite ?Hc; simpl;
    repeat case_match; simpl; rewrite ?messagesAdded_cancels; done.
Qed.

Lemma run_silent fuel env pipeline r :
  cancelled r = true → messagesAdded (run fuel env pipeline r).2 = 0%nat.
Proof.
  revert pipeline r. induction fuel as [|fuel IH]; intros pipeline r Hc; [done|].
  destruct pipeline as [|s rest]; [done|].
  rewrite run_step.
  pose proof (step_silent env s r Hc) as Hs.
  destruct (step_cancelled env s r Hc) as [Hc1 _].
  destruct (step env s r) as [[r1 queued] effects]. simpl in Hs, Hc1.
  specialize (IH (queued ++ rest) r1 Hc1).
  destruct (run fuel env (queued ++ rest) r1) as [[r2 waiting] later]. simpl in *.
  rewrite messagesAdded_app. lia.
Qed.

(** A step writes at most one message, and cancels the resolver if it
    does. *)
Lemma step_message env s r :
  messagesAdded (step env s r).2 = 0%nat
  ∨ (messagesAdded (step env s r).2 = 1%nat ∧ cancelled (step env s r).1.1 = true).
Proof.
  destruct s; simpl; repeat case_match; simpl; rewrite ?messagesAdded_cancels; auto.
Qed.

(** X21. The resolver reports a failure at most once in a resolution:
    when the costs were not paid, or when there are no legal targets.  A
    resolution in which it did ends cancelled, with the ability's handler
    not executed and every event of the resolver cancelled. *)
Theorem failure_is_reported_once env :
  (∀ fuel pipeline r, (messagesAdded (run fuel env pipeline r).2 ≤ 1)%nat)
  ∧ (∀ fuel pipeline r, messagesAdded (run fuel env pipeline r).2 = 1%nat →
        cancelled (run fuel env pipeline r).1.1 = true)
  ∧ (∀ extra, messagesAdded (resolve (20 + extra) env).2 = 1%nat →
        cancelled (resolve (20 + extra) env).1.1 = true
        ∧ handlerExecuted (resolve (20 + extra) env).2 = false
        ∧ allEventsCancelled (resolve (20 + extra) env).1.1).
Proof.
  assert (Hrun : ∀ fuel pipeline r,
            messagesAdded (run fuel env pipeline r).2 = 0%nat
            ∨ (messagesAdded (run fuel env pipeline r).2 = 1%nat
               ∧ cancelled (run fuel env pipeline r).1.1 = true)).
  { induction fuel as [|fuel IH]; intros pipeline r; [by left|].
    destruct pipeline as [|s rest]; [by left|].
    rewrite run_step.
    pose proof (step_message env s r) as Hstep.
    destruct (step env s r) as [[r1 queued] effects] eqn:Estep. simpl in Hstep.
    pose proof (IH (queued ++ rest) r1) as Hrest.
    pose proof (run_silent fuel env (queued ++ rest) r1) as Hsilent.
    pose proof (run_cancelled fuel env (queued ++ rest) r1) as Hstay.
    destruct (run fuel env (queued ++ rest) r1) as [[r2 waiting] later]. simpl in *.
    rewrite messagesAdded_app.
    destruct Hstep as [->|[-> Hc]].
    - destruct Hrest as [->|[-> Hc2]]; [by left|by right].
    - right. rewrite (Hsilent Hc). split; [done|]. by apply Hstay. }
  split; [|split].
  - intros fuel pipeline r. destruct (Hrun fuel pipeline r) as [->|[-> _]]; lia.
  - intros fuel pipeline r Hone. destruct (Hrun fuel pipeline r) as [Hz|[_ Hc]]; [lia|done].
  - intros extra Hone.
    assert (Hc : cancelled (resolve (20 + extra) env).1.1 = true).
    { unfold resolve in *.
      destruct (Hrun (20 + extra)%nat initialPipeline (new env)) as [Hz|[_ Hc]]; [lia|done]. }
    split; [exact Hc|].
    assert (Hstart : reachable initialPipeline (new env)).
    { exists BeforeWindow. split; [constructor|done]. }
    destruct (run_reachable (20 + extra) env initialPipeline (new env) Hstart) as [Hr Hh].
    fold (resolve (20 + extra) env) in Hr, Hh.
    split; [by apply Hh|].
    destruct (resolve_completes env extra) as [Hdone _]. rewrite Hdone in Hr.
    by apply reachable_end.
Qed.

Ltac bool_facts :=
  repeat match goal with
         | H : negb _ = false |- _ => apply negb_false_iff in H
         | H : negb _ = true |- _ => apply negb_true_iff in H
         | H : _ || _ = false |- _ => apply orb_false_elim in H; destruct H
         end.

Lemma storeTargeting_initiateAbility t r :
  initiateAbility (storeTargeting t r) = initiateAbility r.
Proof. unfold storeTargeting. simpl. repeat case_match; done. Qed.

(** One step of a resolution keeps what [cleared] records; and the
    handler runs only with all of it in place. *)
Lemma step_cleared env s rest r :
  reachable (s :: rest) r → cleared env (s :: rest) r →
  cleared env ((step env s r).1.2 ++ rest) (step env s r).1.1
  ∧ (handlerExecuted (step env s r).2 = true →
     (step env s r).2 = [AbilityHandlerExecuted]
     ∧ initiationEventResolves env = true
     ∧ hasLegalTargets env = true
     ∧ initiateAbility (step env s r).1.1 = true
     ∧ stage (step env s r).1.1 = Some EffectTmp).
Proof.
  intros (ph & Hph & _) [Hahead Hinit].
  inversion Hph; subst; unfold cleared in *; simpl in *;
    repeat case_match; simpl in *; bool_facts; rewrite ?handlerExecuted_cancels,
      ?storeTargeting_initiateAbility;
    repeat split; try done; try tauto; try (intros; congruence);
    try (intros; exfalso; congruence).
Qed.

Lemma handlerExecutions_zero (effects : list Effect) :
  handlerExecuted effects = false → handlerExecutions effects = 0%nat.
Proof.
  unfold handlerExecuted, handlerExecutions.
  induction effects as [|e rest IH]; simpl; [done|].
  destruct (isHandlerExecution e); simpl; [done|exact IH].
Qed.

Lemma run_cleared fuel env pipeline r :
  reachable pipeline r → cleared env pipeline r →
  let out := run fuel env pipeline r in
  cleared env out.1.2 out.1.1
  ∧ (handlerExecutions out.2 ≤ 1)%nat
  ∧ (handlerExecuted out.2 = true →
     out.1.2 = []
     ∧ cancelled out.1.1 = false
     ∧ initiationEventResolves env = true
     ∧ hasLegalTargets env = true
     ∧ initiateAbility out.1.1 = true
     ∧ stage out.1.1 = Some EffectTmp
     ∧ ∃ before, out.2 = before ++ [AbilityHandlerExecuted]).
Proof.
  revert pipeline r. induction fuel as [|fuel IH]; intros pipeline r Hreach Hclear.
  { cbv zeta. destruct pipeline; simpl; (split; [done|]); (split; [unfold handlerExecutions; simpl; lia|done]). }
  destruct pipeline as [|s rest].
  { cbv zeta. simpl. split; [done|]. split; [unfold handlerExecutions; simpl; lia|done]. }
  cbv zeta. rewrite run_step.
  destruct (step_reachable env s rest r Hreach) as [Hnext Hlast].
  destruct (step_cleared env s rest r Hreach Hclear) as [Hnextc Hran].
  destruct (step env s r) as [[r1 queued] effects]. simpl in Hnext, Hlast, Hnextc, Hran.
  specialize (IH (queued ++ rest) r1 Hnext Hnextc). cbv zeta in IH.
  destruct (handlerExecuted effects) eqn:Eh.
  - destruct (Hlast eq_refl) as [Hnil Hc]. destruct (Hran eq_refl) as (H1 & H2 & H3 & H4 & H5).
    rewrite Hnil in *. rewrite run_nil in *. simpl in *.
    rewrite app_nil_r. split; [by destruct IH|]. rewrite H1.
    split; [unfold handlerExecutions; simpl; lia|].
    intros _. repeat (split; [done|]). by exists [].
  - destruct (run fuel env (queued ++ rest) r1) as [[r2 waiting] later]. simpl in *.
    destruct IH as (IH1 & IH2 & IH3).
    rewrite handlerExecutions_app, handlerExecuted_app, Eh,
      (handlerExecutions_zero effects Eh). simpl.
    split; [done|]. split; [done|]. intros Hlater.
    destruct (IH3 Hlater) as (? & ? & ? & ? & ? & ? & before & ->).
    repeat (split; [done|]). exists (effects ++ before). by rewrite app_assoc.
Qed.

(** X22. The ability's handler runs at most once in a resolution, and
    only at its very end, in the effect stage of a resolver that is not
    cancelled: after the initiation event resolved, the ability had legal
    targets when [resolveTargets] asked, and [initiateAbility] was set,
    which for an activated ability takes its card-ability event resolving. *)
Theorem handler_runs_once_and_last env (extra : nat) :
  let out := resolve (20 + extra) env in
  (handlerExecutions out.2 ≤ 1)%nat
  ∧ (handlerExecuted out.2 = true →
     cancelled out.1.1 = false
     ∧ stage out.1.1 = Some EffectTmp
     ∧ initiateAbility out.1.1 = true
     ∧ initiationEventResolves env = true
     ∧ hasLegalTargets env = true
     ∧ (isActivatedAbility env = true → initiateCardAbilityEventResolves env = true)
     ∧ ∃ before, out.2 = before ++ [AbilityHandlerExecuted]).
Proof.
  intros out.
  assert (Hstart : reachable initialPipeline (new env)).
  { exists BeforeWindow. split; [constructor|done]. }
  assert (Hclear : cleared env initialPipeline (new env)) by done.
  destruct (run_cleared (20 + extra) env initialPipeline (new env) Hstart Hclear)
    as ([_ Hinit] & Hcount & Hran).
  fold (resolve (20 + extra) env) in Hinit, Hcount, Hran. fold out in Hinit, Hcount, Hran.
  split; [exact Hcount|]. intros Hexec.
  destruct (Hran Hexec) as (_ & Hc & Hres & Hlegal & Hia & Hstage & Hlast).
  split; [done|]. split; [done|]. split; [done|]. split; [done|]. split; [done|].
  split; [by apply Hinit|]. exact Hlast.
Qed.

(** The first step of an optional ability whose early target selection,
    if there was one, did not show the pass button. *)
Lemma early_targets_quiet env :
  optional env = true →
  cannotTargetFirst env = true ∨ passButtonShown (earlyTargets env) = false →
  ∃ r1, step env ResolveEarlyTargets (new env) = (r1, [], [])
        ∧ cancelled r1 = false ∧ passNotYetShown r1 = true
        ∧ costsCancelled (costResults r1) = false
        ∧ events r1 = [] ∧ passPriority r1 = false ∧ initiateAbility r1 = false
        ∧ stage r1 = Some PreTarget
        ∧ targetResults r1
          = if cannotTargetFirst env then noTargetResults else results (earlyTargets env).
Proof.
  intros Hopt Hearly. unfold new. simpl. rewrite Hopt.
  destruct (cannotTargetFirst env) eqn:Ectf; simpl.
  - eexists. split; [done|]. done.
  - destruct Hearly as [|Hshown]; [done|].
    eexists. split; [done|]. unfold storeTargeting, passNotYetShown. simpl.
    rewrite Hshown. done.
Qed.

(** X23. Passing on an optional ability before anything else happened:
    when the early target selection did not show the pass button, the
    resolver asks once, and a player who passes ends the resolution there.
    No event is created, no window is opened, no cost is resolved and the
    handler does not run; the resolver is cancelled with [passPriority]
    set. *)
Theorem passing_before_the_window env (extra : nat) :
  optional env = true →
  cannotTargetFirst env = true ∨ passButtonShown (earlyTargets env) = false →
  playerPasses env = true →
  ∃ r, resolve (20 + extra) env = (r, [], [PassPromptShown])
       ∧ cancelled r = true ∧ passPriority r = true
       ∧ events r = [] ∧ initiateAbility r = false ∧ stage r = Some PreTarget
       ∧ passAbilityHandler r = Some {| hasBeenShown := true |}.
Proof.
  intros Hopt Hearly Hpass.
  destruct (resolve_completes env extra) as [_ ->].
  destruct (early_targets_quiet env Hopt Hearly)
    as (r1 & Hstep & Hc & Hq & Hcc & Hev & Hpp & Hia & Hst & _).
  unfold resolve, initialPipeline.
  rewrite run_step, Hstep. cbn [app].
  rewrite run_step. cbn [step]. rewrite Hc, Hq. cbn [app].
  rewrite run_step. cbn [step]. rewrite Hc, Hcc, Hq. cbn [app].
  rewrite run_step. cbn [step outsideStep]. rewrite Hpass. cbn [app].
  rewrite run_step. cbn [step passHandler setPassPriority setCancelled cancelled].
  cbn [app]. rewrite run_nil. eexists. split; [done|]. simpl. done.
Qed.

(** X24. An optional ability does not notice a cancelled early target
    selection where another ability does.  With the pass button not yet
    shown, the first [checkForCancelOrPass] queues the pass prompt instead
    of reading [targetResults.cancelled], and when the player chooses to
    trigger, the initiation window is opened right after the prompt.  The
    same target selection ends the resolution of an ability that is not
    optional at once, before any event is created. *)
Theorem optional_ability_outlives_cancelled_targeting env (extra : nat) :
  cannotTargetFirst env = false →
  targetsCancelled (results (earlyTargets env)) = true →
  (optional env = false →
   ∃ r, resolve (20 + extra) env = (r, [], [])
        ∧ cancelled r = true ∧ events r = [])
  ∧ (optional env = true → passButtonShown (earlyTargets env) = false →
     playerPasses env = false →
     ∃ later,
       (resolve (20 + extra) env).2
       = PassPromptShown :: WindowOpened (initiationEvents env) :: later).
Proof.
  intros Hctf Htc. split.
  - intros Hopt. destruct (resolve_completes env extra) as [_ ->].
    unfold resolve, initialPipeline, new. rewrite Hopt.
    rewrite run_step. cbn [step]. rewrite Hctf. cbn [negb app].
    unfold storeTargeting. cbn [passAbilityHandler setTargetResults setStage].
    rewrite run_step. cbn -[run]. rewrite Htc.
    rewrite run_step. cbn -[run]. rewrite run_nil.
    eexists. split; [done|]. done.
  - intros Hopt Hshown Hpass. destruct (resolve_completes env extra) as [_ ->].
    destruct (early_targets_quiet env Hopt (or_intror Hshown))
      as (r1 & Hstep & Hc & Hq & Hcc & Hev & _).
    unfold resolve, initialPipeline.
    rewrite run_step, Hstep. cbn [app].
    rewrite run_step. cbn [step]. rewrite Hc, Hq. cbn [app].
    rewrite run_step. cbn [step]. rewrite Hc, Hcc, Hq. cbn [app].
    rewrite run_step. cbn [step outsideStep]. rewrite Hpass. cbn [app].
    rewrite run_step. cbn [step setPassAbilityHandler cancelled]. rewrite Hc.
    cbn [setEvents events setPassAbilityHandler]. rewrite Hev. cbn [app].
    rewrite run_step. cbn [step outsideStep].
    destruct (run 14 env _ _) as [[r2 waiting] later]. cbn [snd app].
    by exists later.
Qed.

End MoreResolverFacts.

(** ** The cheapest Smuggle action *)

Section SmuggleFacts.

Import KeywordHelpers.

Context {Action : Type}.
Variable isSmuggle : Action → bool.
Variable isPlayCardAbility : Action → bool.
Variable cost : Action → Z.

(** The loop with a cheapest action in hand: it keeps that action unless a
    later one is strictly cheaper. *)
Lemma cheapestLoop_spec (smuggleActions : list Action) (current : Action) result :
  cheapestLoop isPlayCardAbility cost smuggleActions (Some current) (Some (cost current))
  = Some result →
  ∃ a, result = Some a
       ∧ ((a = current ∧ ∀ b, In b smuggleActions → cost current <= cost b)
          ∨ (cost a < cost current
             ∧ ∃ before after,
                 smuggleActions = before ++ a :: after
                 ∧ (∀ b, In b before → cost a < cost b)
                 ∧ (∀ b, In b after → cost a <= cost b))).
Proof.
  revert current. induction smuggleActions as [|a0 rest IH]; intros current Hloop.
  { simpl in Hloop. injection Hloop as <-. exists current. split; [done|]. left.
    split; [done|]. by intros b []. }
  cbn [cheapestLoop below] in Hloop.
  destruct (isPlayCardAbility a0); [|done]. cbn [negb] in Hloop.
  destruct (cost a0 <? cost current) eqn:Elt.
  - apply Z.ltb_lt in Elt.
    destruct (IH a0 Hloop) as (a & -> & [[-> Hmin]|(Hlt & before & after & -> & Hb & Ha)]).
    + exists a0. split; [done|]. right. split; [done|].
      exists [], rest. split; [done|]. split; [by intros b []|done].
    + exists a. split; [done|]. right. split; [lia|].
      exists (a0 :: before), after. split; [done|]. split; [|done].
      intros b [<-|Hin]; [done|by apply Hb].
  - apply Z.ltb_ge in Elt.
    destruct (IH current Hloop) as (a & -> & [[-> Hmin]|(Hlt & before & after & -> & Hb & Ha)]).
    + exists current. split; [done|]. left. split; [done|].
      intros b [<-|Hin]; [done|by apply Hmin].
    + exists a. split; [done|]. right. split; [done|].
      exists (a0 :: before), after. split; [done|]. split; [|done].
      intros b [<-|Hin]; [lia|by apply Hb].
Qed.

Lemma cheapestLoop_returns (smuggleActions : list Action) cheapestSmuggle cheapestAmount :
  (∀ a, In a smuggleActions → isPlayCardAbility a = true) →
  ∃ result,
    cheapestLoop isPlayCardAbility cost smuggleActions cheapestSmuggle cheapestAmount
    = Some result.
Proof.
  revert cheapestSmuggle cheapestAmount.
  induction smuggleActions as [|a0 rest IH]; intros cheapestSmuggle cheapestAmount Hall.
  { by eexists. }
  cbn [cheapestLoop]. rewrite (Hall a0) by (by left). cbn [negb].
  destruct (below _ _); apply IH; intros a Ha; apply Hall; by right.
Qed.

(** X25. [getCheapestSmuggle] returns null exactly for no action, and
    otherwise the first of the cheapest actions: every action before it
    costs strictly more and every action after it at least as much.  When
    all actions are Smuggle play-card actions it returns; a single action
    is returned without being asked for its cost or checked to be a
    play-card action. *)
Theorem getCheapestSmuggle_first_cheapest (smuggleActions : list Action) :
  (∀ result, getCheapestSmuggle isSmuggle isPlayCardAbility cost smuggleActions = Some result →
     (result = None ↔ smuggleActions = [])
     ∧ ∀ a, result = Some a →
         ∃ before after,
           smuggleActions = before ++ a :: after
           ∧ (∀ b, In b before → cost a < cost b)
           ∧ (∀ b, In b after → cost a <= cost b))
  ∧ ((∀ a, In a smuggleActions → isSmuggle a = true ∧ isPlayCardAbility a = true) →
     ∃ result, getCheapestSmuggle isSmuggle isPlayCardAbility cost smuggleActions
               = Some result)
  ∧ (∀ a, isSmuggle a = true →
          getCheapestSmuggle isSmuggle isPlayCardAbility cost [a] = Some (Some a)).
Proof.
  split; [|split].
  - intros result. unfold getCheapestSmuggle.
    destruct (negb _); [done|].
    destruct smuggleActions as [|a0 [|a1 rest]].
    + intros [= <-]. split; [done|]. done.
    + intros [= <-]. split; [done|]. intros a [= <-].
      exists [], []. split; [done|]. split; by intros b [].
    + cbn [cheapestLoop below]. destruct (isPlayCardAbility a0); [|done]. cbn [negb].
      intros Hloop.
      destruct (cheapestLoop_spec (a1 :: rest) a0 result Hloop)
        as (a & -> & [[-> Hmin]|(Hlt & before & after & Heq & Hb & Ha)]).
      * split; [done|]. intros a [= <-].
        exists [], (a1 :: rest). split; [done|]. split; [by intros b []|done].
      * split; [done|]. intros a' [= <-].
        exists (a0 :: before), after. split; [by rewrite Heq|]. split; [|done].
        intros b [<-|Hin]; [done|by apply Hb].
  - intros Hall. unfold getCheapestSmuggle.
    assert (Hnone : List.filter (fun action => negb (isSmuggle action)) smuggleActions = []).
    { induction smuggleActions as [|a rest IH]; [done|]. simpl.
      destruct (Hall a) as [-> _]; [by left|]. simpl.
      apply IH. intros b Hb. apply Hall. by right. }
    rewrite Hnone. simpl.
    destruct smuggleActions as [|a0 [|a1 rest]]; [by eexists|by eexists|].
    apply cheapestLoop_returns. intros a Ha. by apply Hall.
  - intros a Ha. unfold getCheapestSmuggle. simpl. by rewrite Ha.
Qed.

End SmuggleFacts.

(** ** The properties above on concrete inputs *)

Section MoreWitnesses.

Import GameSystem EventGeneration CardTargetSystem AbilityResolver SystemCalls.

Lemma allocated_example : Player.allocated (Examples.player []).
Proof. split; eexists; vm_compute; reflexivity. Defined.

Lemma getPenaltyAspects_difference_witness :
  Player.allocated (Examples.player [])
  ∧ sublist (Player.getPenaltyAspects (Some [1%nat; 7%nat; 1%nat]) (Examples.player [])).1
      [1%nat; 7%nat; 1%nat].
Proof.
  split; [exact allocated_example|].
  destruct (getPenaltyAspects_difference [1%nat; 7%nat; 1%nat] (Examples.player [])
              allocated_example) as (_ & Hsub & _).
  exact Hsub.
Defined.

Lemma getAdjustedCost_without_adjusters_witness :
  Player.allocated (Examples.player [])
  ∧ Player.costAdjusters (Examples.player []) = []
  ∧ (Player.getAdjustedCost (fun c : Z => c) tt 2 None false (Some [1%nat; 7%nat])
       (Examples.player [])).1
    = JsNum.Finite
        (2 + 2 * Z.of_nat
                   (length (Player.getPenaltyAspects (Some [1%nat; 7%nat])
                              (Examples.player [])).1)).
Proof.
  split; [exact allocated_example|]. split; [reflexivity|].
  exact (getAdjustedCost_without_adjusters (fun c : Z => c) tt 2 None false
           (Some [1%nat; 7%nat]) (Examples.player []) allocated_example eq_refl).
Defined.

Lemma resolve_target_precedence_witness :
  targetGiven (One (Some (ACard 4%nat))) = true
  ∧ getDefaultTargets (resolveReceiver (One (Some (ACard 4%nat))) Examples.exhaust)
      Examples.unrestricted 0%nat
    = One (Some (ACard 4%nat)).
Proof.
  split; [reflexivity|].
  destruct (resolve_target_precedence (One (Some (ACard 4%nat))) Examples.exhaust
              Examples.unrestricted 0%nat eq_refl) as [Hdefault _].
  exact Hdefault.
Defined.

Lemma card_target_system_needs_cards_witness :
  variant Examples.exhaust = CardTarget [WildTyp UnitCard]
  ∧ (∀ p, canAffect Examples.exhaust Examples.unrestricted (APlayer p) 0%nat noProperties
          = false)
  ∧ ∀ p, applyEvent Examples.unrestricted
           (generateEvent Examples.exhaust Examples.unrestricted (APlayer p) 0%nat
              noProperties)
         = (Examples.unrestricted, false).
Proof.
  split; [reflexivity|].
  destruct (card_target_system_needs_cards Examples.exhaust 0%nat noProperties
              Examples.unrestricted [WildTyp UnitCard] eq_refl)
    as (Hplayers & _ & Hevents & _).
  split; [exact Hplayers|exact Hevents].
Defined.

Lemma card_targets_are_not_filtered_witness :
  (∀ card, In card (targetsOf Examples.exhaustThree Examples.unrestricted 0%nat noProperties) →
     additionalCostsOf (fun _ _ => @nil (UnlessActionCost bool)) Examples.exhaustThree
       Examples.unrestricted card = [])
  ∧ length (CardTargetSystem.events
              (generateEventsForAllTargets (fun _ _ => @nil (UnlessActionCost bool))
                 Examples.exhaustThree Examples.unrestricted 0%nat noProperties))
    = 3%nat.
Proof.
  assert (Hnone : ∀ card,
            In card (targetsOf Examples.exhaustThree Examples.unrestricted 0%nat noProperties) →
            additionalCostsOf (fun _ _ => @nil (UnlessActionCost bool)) Examples.exhaustThree
              Examples.unrestricted card = []).
  { intros card _. reflexivity. }
  split; [exact Hnone|].
  destruct (card_targets_are_not_filtered (fun _ _ => @nil (UnlessActionCost bool))
              Examples.exhaustThree 0%nat noProperties Examples.unrestricted Hnone)
    as (_ & _ & Hlen & _).
  exact Hlen.
Defined.

Lemma contingent_event_revalidates_witness :
  variant Examples.defeat = CardTarget [WildTyp AnyCard]
  ∧ applyEvent Examples.unrestricted
      (attachmentEventFor Examples.defeat (fun _ => 9%nat) Examples.unrestricted
         (GameEvent.setCard (ACard 4%nat)
            (GameEvent.data (GameEvent.new Unnamed None GameEvent.NoHandler)))
         2%nat)
    = (Examples.unrestricted, false).
Proof.
  split; [reflexivity|].
  destruct (contingent_event_revalidates Examples.defeat (fun _ => 9%nat)
              Examples.unrestricted Examples.unrestricted
              (GameEvent.setCard (ACard 4%nat)
                 (GameEvent.data (GameEvent.new Unnamed None GameEvent.NoHandler)))
              2%nat [WildTyp AnyCard] eq_refl) as (_ & Hmoved & _).
  apply Hmoved. vm_compute. discriminate.
Defined.

Lemma leavesPlayEventHandler_on_prepared_event_witness :
  variant Examples.defeat = CardTarget [WildTyp AnyCard]
  ∧ (λ outcome, (eventDestination outcome.1, discard (players outcome.2 0%nat),
                 spaceArena (players outcome.2 0%nat)))
      <$> leavesPlayEventHandler Examples.legalLocations Examples.pileKey Examples.engine
            (GameEvent.data
               (addLeavesPlayPropertiesToEvent Examples.defeat Examples.unrestricted
                  (GameEvent.new Unnamed None GameEvent.NoHandler) (ACard 4%nat) 0%nat
                  noProperties))
            Examples.unrestricted
    = Some (Some Discard, [4%nat; 3%nat], [5%nat; 6%nat]).
Proof.
  split; [reflexivity|].
  rewrite (leavesPlayEventHandler_on_prepared_event Examples.legalLocations
             Examples.pileKey Examples.engine Examples.defeat Examples.unrestricted
             Examples.unrestricted (GameEvent.new Unnamed None GameEvent.NoHandler)
             4%nat 0%nat noProperties [WildTyp AnyCard] eq_refl).
  reflexivity.
Defined.

Lemma getCardPile_makes_zone_legal_witness :
  "limbo"%string ≠ EmptyString
  ∧ "constructor"%string ≠ EmptyString
  ∧ (Zones.getCardPile 0%nat (Some (OtherLocation "limbo")) MoreExamples.table).1 = Some []
  ∧ Zones.isLegalLocationForCardType Examples.legalLocations
      (Zones.getCardPile 0%nat (Some (OtherLocation "limbo")) MoreExamples.table).2
      0%nat TokenUnit (Some (OtherLocation "limbo")) = true
  ∧ Zones.getCardPile 0%nat (Some (OtherLocation "constructor")) MoreExamples.table
    = (None, MoreExamples.table)
  ∧ Zones.isLegalLocationForCardType Examples.legalLocations MoreExamples.table
      0%nat TokenUnit (Some (OtherLocation "constructor")) = true.
Proof.
  assert (Hlimbo : "limbo"%string ≠ EmptyString) by discriminate.
  assert (Hconstructor : "constructor"%string ≠ EmptyString) by discriminate.
  split; [exact Hlimbo|]. split; [exact Hconstructor|].
  destruct (getCardPile_makes_zone_legal MoreExamples.table 0%nat "limbo" Hlimbo)
    as (Hlegal & _ & _ & _ & Hcreated & _).
  destruct (getCardPile_makes_zone_legal MoreExamples.table 0%nat "constructor"
              Hconstructor) as (Hlegal' & _ & _ & _ & _ & _ & _ & Hinherited).
  split; [apply Hcreated; reflexivity|]. split; [apply Hlegal|].
  destruct Hinherited as (Hsame & _ & Hundefined); [reflexivity|by left|].
  split.
  - rewrite <- Hsame at 2. rewrite <- Hundefined by reflexivity. by destruct (Zones.getCardPile _ _ _).
  - rewrite <- Hsame at 1. apply Hlegal'.
Defined.

Lemma resources_listed_once : NoDup (resources (players MoreExamples.table 0%nat)).
Proof. apply (bool_decide_unpack _). reflexivity. Defined.

Lemma exhaustResources_spends_witness :
  NoDup (resources (players MoreExamples.table 0%nat))
  ∧ Zones.countSpendableResources 0%nat MoreExamples.table = 3%nat
  ∧ Zones.countSpendableResources 0%nat (Zones.exhaustResources 0%nat 2 MoreExamples.table)
    = (Zones.countSpendableResources 0%nat MoreExamples.table - Z.to_nat 2)%nat.
Proof.
  split; [exact resources_listed_once|]. split; [reflexivity|].
  destruct (exhaustResources_spends 0%nat 2 MoreExamples.table resources_listed_once)
    as (_ & Hcount & _).
  exact Hcount.
Defined.

Lemma passing_before_the_window_witness :
  optional (Examples.optionalAbility true) = true
  ∧ passButtonShown (earlyTargets (Examples.optionalAbility true)) = false
  ∧ playerPasses (Examples.optionalAbility true) = true
  ∧ ∃ r, resolve (20 + 0) (Examples.optionalAbility true) = (r, [], [PassPromptShown])
         ∧ cancelled r = true.
Proof.
  split; [reflexivity|]. split; [reflexivity|]. split; [reflexivity|].
  destruct (passing_before_the_window (Examples.optionalAbility true) 0%nat eq_refl
              (or_intror eq_refl) eq_refl) as (r & Hrun & Hc & _).
  exists r. split; [exact Hrun|exact Hc].
Defined.

Lemma optional_ability_outlives_cancelled_targeting_witness :
  cannotTargetFirst (MoreExamples.earlyCancelled true) = false
  ∧ targetsCancelled (results (earlyTargets (MoreExamples.earlyCancelled true))) = true
  ∧ ∃ later,
      (resolve (20 + 0) (MoreExamples.earlyCancelled true)).2
      = PassPromptShown
        :: WindowOpened (initiationEvents (MoreExamples.earlyCancelled true)) :: later.
Proof.
  split; [reflexivity|]. split; [reflexivity|].
  destruct (optional_ability_outlives_cancelled_targeting (MoreExamples.earlyCancelled true)
              0%nat eq_refl eq_refl) as [_ Hoptional].
  exact (Hoptional eq_refl eq_refl eq_refl).
Defined.

(** Four resources, of which one is exhausted and one has no flag: three
    can be spent, and the count of exhausted ones is not a number. *)
Example resource_counts_scenario :
  Zones.countSpendableResources 0%nat MoreExamples.table = 3%nat
  ∧ Zones.countExhaustedResources 0%nat MoreExamples.table = None
  ∧ Zones.countExhaustedResources 0%nat
      (Zones.exhaustResources 0%nat 7 MoreExamples.table) = Some 4%nat.
Proof. vm_compute. done. Qed.

(** Card 10 leaves the hand; a card in the resource zone stays where it
    is. *)
Example removal_scenario :
  hand (players (Zones.removeCardFromPile (fun _ => OtherLocation "key") 1%nat
                   10%nat MoreExamples.table) 0%nat) = []
  ∧ resources (players (Zones.removeCardFromPile (fun _ => OtherLocation "key")
                          0%nat 2%nat MoreExamples.table) 0%nat)
    = [1%nat; 2%nat; 3%nat; 4%nat].
Proof. vm_compute. done. Qed.

(** A search of the ground arena finds the upgrade attached there. *)
Example findCards_scenario :
  Zones.findCardInPlayByUuid 0%nat MoreExamples.table (uuid (MoreExamples.cardAt 12%nat))
  = Some 12%nat.
Proof. vm_compute. done. Qed.

(** Unit 1 is moved to the discard pile with upgrades 2 and 3 still on
    it: the upgrades are discarded first, and as upgrade 3 was in the
    discard pile already, removing it assigned a new array there; the unit
    is put into the array [moveCard] had read before, which is the discard
    pile no longer. *)
Example moveCard_scenario :
  (λ g, (groundArena (players g 0%nat), discard (players g 0%nat),
         location (cards g 1%nat)))
    <$> Zones.moveCard Examples.legalLocations Examples.pileKey Examples.engine
          0%nat 1%nat Discard {| bottom := false |} Examples.unrestricted
  = Some ([], [3%nat; 2%nat], Discard).
Proof. vm_compute. done. Qed.

(** An optional ability whose player chooses to trigger runs its handler,
    last. *)
Example triggered_scenario :
  (resolve 20 (Examples.optionalAbility false)).2
  = [PassPromptShown;
     WindowOpened (initiationEvents (Examples.optionalAbility false));
     AbilityMessageDisplayed; AbilityHandlerExecuted].
Proof. vm_compute. done. Qed.

(** Of two actions costing 1, the first is the cheapest. *)
Example cheapest_scenario :
  KeywordHelpers.getCheapestSmuggle (fun _ => true) (fun _ => true) (fun a : Z * nat => a.1)
    [(3, 0%nat); (1, 1%nat); (2, 2%nat); (1, 3%nat)]
  = Some (Some (1, 1%nat)).
Proof. vm_compute. done. Qed.

End MoreWitnesses.
